(** * Peridynamics model: a shallow embedding of [peridynamics/model.py]

    The development follows the Python class [Model]: its constructor, the
    setup methods it calls ([_volume], [_set_material_types],
    [_set_stiffness_corrections], [_set_boundary_conditions]), the intercept
    computation [_set_plus_cs], the driver loop [simulate] and the decorator
    [initial_crack_helper].

    Conventions.
    - Python exceptions are values of [exn]; a computation yields a
      [result].  Calls to external collaborators (mesh and array writers,
      the compiled neighbour-list module, the integrator, warnings) and to
      the caller-supplied callbacks are recorded, in program order, in a
      trace of [event]s.
    - [numpy.float64] data is idealised as exact rationals ([Q]); the only
      non-finite values the modelled code can create come from a division,
      whose result type [float64] keeps [inf] and [nan] apart from the
      finite values.  Rounding is not modelled.
    - Integers are [Z]; a number stored into an [np.intc] array has to
      fit a C int ([np_intc]); indexing follows Python (negative indices
      count from the end, anything else out of range raises
      [IndexError]). *)

From Stdlib Require Import String Ascii DecimalString.
From Stdlib Require Import ZArith QArith Qabs Bool Lia Lqa List Sorted.
Import ListNotations.

Set Implicit Arguments.
Open Scope Z_scope.

(** ** Python values, exceptions and the trace monad *)

Module Py.

Inductive exn : Type :=
| IndexError
| TypeError
| ValueError
| AttributeError
| AssertionError
| ZeroDivisionError
| UnboundLocalError
| OverflowError
| KeyError
| DimensionalityError (dimensions : Z)
| FamilyError (message : string)
| InvalidIntegrator.

Inductive result (A : Type) : Type :=
| Ok (a : A)
| Raise (e : exn).
Arguments Ok {A} a.
Arguments Raise {A} e.

Definition rbind {A B} (r : result A) (k : A -> result B) : result B :=
  match r with
  | Ok a => k a
  | Raise e => Raise e
  end.

(** [l[i]] for a Python list or a one-dimensional numpy array. *)
Definition getitem {A} (l : list A) (i : Z) : result A :=
  let n := Z.of_nat (length l) in
  let k := if i <? 0 then i + n else i in
  if (0 <=? k) && (k <? n) then
    match nth_error l (Z.to_nat k) with
    | Some a => Ok a
    | None => Raise IndexError
    end
  else Raise IndexError.

Fixpoint set_nth {A} (l : list A) (k : nat) (v : A) : list A :=
  match l, k with
  | [], _ => []
  | _ :: t, O => v :: t
  | h :: t, S k' => h :: set_nth t k' v
  end.

(** [l[i] = v]. *)
Definition setitem {A} (l : list A) (i : Z) (v : A) : result (list A) :=
  let n := Z.of_nat (length l) in
  let k := if i <? 0 then i + n else i in
  if (0 <=? k) && (k <? n) then Ok (set_nth l (Z.to_nat k) v)
  else Raise IndexError.

(** [l[:k]]. *)
Definition slice_to {A} (l : list A) (k : Z) : list A :=
  if k <? 0 then firstn (Z.to_nat (Z.of_nat (length l) + k)) l
  else firstn (Z.to_nat k) l.

(** [range(n)], and [range(a, b)]. *)
Definition range (n : Z) : list Z :=
  map Z.of_nat (seq 0 (Z.to_nat n)).

Definition range2 (a b : Z) : list Z :=
  map (fun k => a + Z.of_nat k) (seq 0 (Z.to_nat (b - a))).

(** [a or b] on objects: the first operand when it is truthy. *)
Definition py_or {A} (truthy : A -> bool) (a b : A) : A :=
  if truthy a then a else b.

End Py.
Import Py.

(** ** float64 values produced by a division *)

Inductive float64 : Type :=
| Fin (q : Q)
| PosInf
| NegInf
| NaN.

(** numpy's float64 true division: a zero divisor gives [inf] or [nan]
    (with a warning), it does not raise. *)
Definition np_div (a b : Q) : float64 :=
  if Qeq_bool b 0 then
    match (a ?= 0)%Q with
    | Eq => NaN
    | Gt => PosInf
    | Lt => NegInf
    end
  else Fin (a / b).

(** A float64 array entry divided by a float64 scalar. *)
Definition f64_div (x : float64) (d : Q) : float64 :=
  match x with
  | Fin q => np_div q d
  | PosInf => if Qlt_le_dec d 0 then NegInf else PosInf
  | NegInf => if Qlt_le_dec d 0 then PosInf else NegInf
  | NaN => NaN
  end.

(** Equality of float64 values up to the representation of the rational. *)
Definition f64_eq (x y : float64) : Prop :=
  match x, y with
  | Fin a, Fin b => (a == b)%Q
  | PosInf, PosInf => True
  | NegInf, NegInf => True
  | _, _ => False
  end.

(** [x > 0] as numpy evaluates it ([nan > 0] is false). *)
Definition f64_pos (x : float64) : Prop :=
  match x with
  | Fin q => (0 < q)%Q
  | PosInf => True
  | _ => False
  end.

(** [numpy.pi], the float64 nearest to pi, as the rational it is. *)
Definition np_pi : Q := 884279719003555 # 281474976710656.

(** ** Traces of external calls *)

Inductive warning : Type :=
| WarnNoContext          (* the integrator has no OpenCL context *)
| WarnOver5Percent       (* 'Warning: over 5% of bonds have broken! ...' *)
| WarnOver7Percent.      (* 'Warning: over 7% of bonds have broken! ...' *)

Inductive event : Type :=
| EvWriteArray (name : string)
| EvPrint
| EvWarn (w : warning)
| EvSetFamily
| EvCreateNeighbourListCython (max_neighbours : Z)
| EvCreateNeighbourListCl (max_neighbours : Z)
| EvInitialCrackCallable
| EvCreateCrackCython
| EvCreateCrackCl
| EvCrackFunction (i j : Z)           (* crack_function(coords[i], coords[j]) *)
| EvBondType (i j : Z)                (* bond_type(coords[i], coords[j]) *)
| EvIsDisplacementBoundary (x : list Q)
| EvIsForcesBoundary (x : list Q)
| EvIsTip (x : list Q)
| EvIntegratorBuild
| EvSetBuffers
| EvIntegratorStep (displacement_bc_magnitude force_bc_magnitude : Q)
| EvIntegratorWrite
| EvWriteMesh (step : Z).

(** A computation: the external calls made so far, then a value or the
    exception that ended it. *)
Definition M (A : Type) : Type := (list event * result A)%type.

Definition ret {A} (a : A) : M A := ([], Ok a).
Definition raise {A} (e : exn) : M A := ([], Raise e).
Definition emit (ev : event) : M unit := ([ev], Ok tt).
Definition lift {A} (r : result A) : M A := ([], r).

Definition bind {A B} (m : M A) (k : A -> M B) : M B :=
  match m with
  | (t, Ok a) => let (t', r) := k a in (t ++ t', r)
  | (t, Raise e) => (t, Raise e)
  end.

Definition trace {A} (m : M A) : list event := fst m.
Definition outcome {A} (m : M A) : result A := snd m.

Declare Scope py_scope.
Delimit Scope py_scope with py.
Notation "x <- c ;; k" := (bind c (fun x => k))
  (at level 61, c at next level, right associativity) : py_scope.
Notation "c ;;; k" := (bind c (fun _ => k))
  (at level 61, right associativity) : py_scope.
Notation "x <~ c ;; k" := (rbind c (fun x => k))
  (at level 61, c at next level, right associativity) : py_scope.
Open Scope py_scope.

(** [for x in l: s = body(x, s)], without and with external calls. *)
Fixpoint for_ {X S} (l : list X) (s : S) (body : X -> S -> result S)
  : result S :=
  match l with
  | [] => Ok s
  | x :: t => s' <~ body x s ;; for_ t s' body
  end.

Fixpoint forM {X S} (l : list X) (s : S) (body : X -> S -> M S) : M S :=
  match l with
  | [] => ret s
  | x :: t => s' <- body x s ;; forM t s' body
  end.

(** ** Arrays *)

(** A two-dimensional numpy array: [numpy.shape] is
    [(length nd_rows, nd_cols)]. *)
Record ndarray2 (A : Type) : Type := {
  nd_cols : Z;
  nd_rows : list (list A)
}.

Definition np_full {A} (n : Z) (v : A) : result (list A) :=
  if n <? 0 then Raise ValueError else Ok (repeat v (Z.to_nat n)).

Definition np_full2 {A} (n m : Z) (v : A) : result (list (list A)) :=
  if (n <? 0) || (m <? 0) then Raise ValueError
  else Ok (repeat (repeat v (Z.to_nat m)) (Z.to_nat n)).

(** [a[i][k] = v]. *)
Definition setitem2 {A} (a : list (list A)) (i k : Z) (v : A)
  : result (list (list A)) :=
  row <~ getitem a i ;;
  row' <~ setitem row k v ;;
  setitem a i row'.

Definition getitem2 {A} (a : list (list A)) (i k : Z) : result A :=
  row <~ getitem a i ;; getitem row k.

(** ** The attributes of a [Model] object read by its methods *)

Record Self : Type := {
  dimensions : Z;
  coords : list (list Q);
  nnodes : Z;
  mesh_connectivity : list (list Z);
  horizon : Q;
  volume : list Q;
  (** [self.volume_total] is read by [_set_stiffness_corrections]; no
      statement of the class assigns it. *)
  volume_total : option Q;
  family : list Z;
  max_neighbours : Z;
  degrees_freedom : Z;
  write_path : option string
}.

Definition connectivity_t : Type := (ndarray2 Z * list Z)%type.

(** ** [Model._set_stiffness_corrections] *)

(** Line 663: one member of the family. *)
Definition add_neighbour_volume (self : Self) (neighbour_list : list Z)
    (j : Z) (tmp : Q) : result Q :=
  n <~ getitem neighbour_list j ;;
  v <~ getitem (volume self) n ;;
  Ok (tmp + v)%Q.

(** Lines 660-664: the family volume of node [i]. *)
Definition family_volume_of_node (self : Self) (nlist : ndarray2 Z)
    (i : Z) (family_volumes : list Q) : result (list Q) :=
  row <~ getitem (nd_rows nlist) i ;;
  fam_i <~ getitem (family self) i ;;
  let neighbour_list := slice_to row fam_i in
  tmp <~ for_ (range fam_i) 0%Q (add_neighbour_volume self neighbour_list) ;;
  setitem family_volumes i tmp.

(** Lines 658-664: the family volume of every node. *)
Definition family_volumes_of (self : Self) (nlist : ndarray2 Z)
  : result (list Q) :=
  family_volumes <~ np_full (nnodes self) 0%Q ;;
  for_ (range (nnodes self)) family_volumes
    (family_volume_of_node self nlist).

(** Lines 666-669; [None] when neither branch assigns the variable. *)
Definition family_volume_bulk_of (dimensions : Z) (horizon : Q) : option Q :=
  if dimensions =? 2 then
    Some (np_pi * horizon ^ 2 * (1 # 1000))%Q
  else if dimensions =? 3 then
    Some ((4 # 3) * np_pi * horizon ^ 3)%Q
  else None.

Definition read_local {A} (v : option A) : result A :=
  match v with
  | Some a => Ok a
  | None => Raise UnboundLocalError
  end.

Definition read_attr {A} (v : option A) : result A :=
  match v with
  | Some a => Ok a
  | None => Raise AttributeError
  end.

(** Lines 675-679: slot [neigh] of node [i]. *)
Definition precise_correction_of_slot (nlist : ndarray2 Z)
    (family_volumes : list Q) (family_volume_bulk : option Q)
    (i : Z) (family_volume_i : Q) (neigh : Z)
    (stiffness_corrections : list (list float64))
  : result (list (list float64)) :=
  j <~ getitem2 (nd_rows nlist) i neigh ;;
  family_volume_j <~ getitem family_volumes j ;;
  bulk <~ read_local family_volume_bulk ;;
  let stiffness_correction_factor :=
    np_div (2 * bulk) (family_volume_i + family_volume_j) in
  setitem2 stiffness_corrections i neigh stiffness_correction_factor.

(** Lines 673-679: node [i]. *)
Definition precise_corrections_of_node (connectivity : connectivity_t)
    (family_volumes : list Q) (family_volume_bulk : option Q)
    (i : Z) (stiffness_corrections : list (list float64))
  : result (list (list float64)) :=
  let (nlist, n_neigh) := connectivity in
  family_volume_i <~ getitem family_volumes i ;;
  nn_i <~ getitem n_neigh i ;;
  for_ (range nn_i) stiffness_corrections
    (precise_correction_of_slot nlist family_volumes family_volume_bulk
       i family_volume_i).

(** Lines 671-679: [precise_stiffness_correction == 1]. *)
Definition precise_corrections (self : Self) (connectivity : connectivity_t)
    (family_volumes : list Q) (family_volume_bulk : option Q)
    (stiffness_corrections : list (list float64))
  : result (list (list float64)) :=
  for_ (range (nnodes self)) stiffness_corrections
    (precise_corrections_of_node connectivity family_volumes
       family_volume_bulk).

(** Lines 681-693: [precise_stiffness_correction == 0].  The inner loop
    iterates over the integer [n_neigh[i]] itself, which is not iterable. *)
Definition approximate_corrections (self : Self)
    (connectivity : connectivity_t)
    (family_volume_bulk : option Q)
    (stiffness_corrections : list (list float64))
  : result (list (list float64)) :=
  let (nlist, n_neigh) := connectivity in
  volume_total <~ read_attr (volume_total self) ;;
  average_node_volume <~
    (if nnodes self =? 0 then Raise ZeroDivisionError
     else Ok (volume_total / inject_Z (nnodes self))%Q) ;;
  for_ (range (nnodes self)) stiffness_corrections (fun i sc =>
    nnodes_i_family <~ getitem n_neigh i ;;
    let nodei_family_volume :=
      (inject_Z nnodes_i_family * average_node_volume)%Q in
    Raise TypeError).

Definition _set_stiffness_corrections (self : Self) (horizon : Q)
    (connectivity : connectivity_t)
    (precise_stiffness_correction : option Z) (write_path : option string)
  : M (list (list float64)) :=
  let (nlist, n_neigh) := connectivity in
  stiffness_corrections <-
    lift (np_full2 (nnodes self) (max_neighbours self) (Fin 1)) ;;
  family_volumes <- lift (family_volumes_of self nlist) ;;
  let family_volume_bulk :=
    family_volume_bulk_of (dimensions self) horizon in
  stiffness_corrections <-
    lift (match precise_stiffness_correction with
          | Some 1 =>
              precise_corrections self connectivity family_volumes
                family_volume_bulk stiffness_corrections
          | Some 0 =>
              approximate_corrections self connectivity
                family_volume_bulk stiffness_corrections
          | None => Ok stiffness_corrections
          | Some _ => Raise ValueError
          end) ;;
  match write_path with
  | Some _ =>
      emit EvPrint ;;;
      emit (EvWriteArray "stiffness_corrections") ;;;
      ret stiffness_corrections
  | None => ret stiffness_corrections
  end.

(** ** Bond stiffness and critical stretch values *)

(** A float64 scalar or an array of at most two dimensions, as
    [bond_stiffness] and [critical_stretch] are documented. *)
Inductive npval : Type :=
| NScalar (q : Q)
| NVec (v : list Q)
| NMat (m : list (list Q)).

(** What [a[i]] yields. *)
Inductive elt : Type :=
| EScalar (q : Q)
| EVec (v : list Q).

Definition np_index (a : npval) (i : Z) : result elt :=
  match a with
  | NScalar _ => Raise IndexError        (* invalid index to scalar variable *)
  | NVec v => q <~ getitem v i ;; Ok (EScalar q)
  | NMat m => r <~ getitem m i ;; Ok (EVec r)
  end.

Fixpoint zip_with (f : Q -> Q -> Q) (a b : list Q) : list Q :=
  match a, b with
  | x :: a', y :: b' => f x y :: zip_with f a' b'
  | _, _ => []
  end.

(** Element-wise arithmetic with numpy broadcasting. *)
Definition elt_op (f : Q -> Q -> Q) (a b : elt) : result elt :=
  match a, b with
  | EScalar x, EScalar y => Ok (EScalar (f x y))
  | EScalar x, EVec v => Ok (EVec (map (f x) v))
  | EVec v, EScalar y => Ok (EVec (map (fun x => f x y) v))
  | EVec v, EVec w =>
      if (length v =? length w)%nat then Ok (EVec (zip_with f v w))
      else match v, w with
           | [x], _ => Ok (EVec (map (f x) w))
           | _, [y] => Ok (EVec (map (fun x => f x y) v))
           | _, _ => Raise ValueError
           end
  end.

(** ** [Model._set_plus_cs] *)

(** Lines 739-742: one iteration of the loop over the regimes. *)
Definition plus_cs_iteration (bond_stiffness critical_stretch : npval)
    (i : Z) (st : list elt * elt) : result (list elt * elt) :=
  let (plus_cs, c_prev) := st in
  k1 <~ np_index bond_stiffness (i - 1) ;;
  s1 <~ np_index critical_stretch (i - 1) ;;
  p1 <~ elt_op Qmult k1 s1 ;;
  a1 <~ elt_op Qplus c_prev p1 ;;
  k2 <~ np_index bond_stiffness i ;;
  s2 <~ np_index critical_stretch (i - 1) ;;
  p2 <~ elt_op Qmult k2 s2 ;;
  c_i <~ elt_op Qminus a1 p2 ;;
  (* plus_cs.append[c_i] subscripts the bound method *)
  Raise TypeError.

Definition _set_plus_cs (bond_stiffness critical_stretch : npval)
    (nregimes nmaterials : Z) : result (list elt) :=
  let c0 := EScalar 0 in
  let c_prev := c0 in
  let plus_cs := [c0] in
  st <~ (if negb (nregimes =? 1) then
           for_ (range (nregimes - 1)) (plus_cs, c_prev)
             (plus_cs_iteration bond_stiffness critical_stretch)
         else Ok (plus_cs, c_prev)) ;;
  let (plus_cs, _) := st : list elt * elt in
  if Z.of_nat (length plus_cs) =? nregimes then Ok plus_cs
  else Raise AssertionError.

(** The intercepts the continuity constraint asks for: the first is 0 and
    segment [r] meets segment [r-1] at the breakpoint [s_(r-1)], that is
    [k_(r-1) * s_(r-1) + c_(r-1) = k_r * s_(r-1) + c_r]. *)
Fixpoint continuous_intercepts (c_prev : Q) (ks ss : list Q) : list Q :=
  match ks, ss with
  | k_prev :: ((k :: _) as ks'), s_prev :: ss' =>
      let c := (c_prev + k_prev * s_prev - k * s_prev)%Q in
      c :: continuous_intercepts c ks' ss'
  | _, _ => []
  end.

Definition spec_plus_cs (ks ss : list Q) : list Q :=
  0%Q :: continuous_intercepts 0 ks ss.

(** ** Constructor arguments *)

Inductive pytype : Type := TFloat | TList | TNdarray.

(** A [bond_stiffness] or [critical_stretch] argument: a float, a (nested)
    list or a numpy array, the latter two with their numpy shape. *)
Inductive pyvalue : Type :=
| PyFloat (q : Q)
| PyList (shape : list Z) (data : npval)
| PyNdarray (shape : list Z) (data : npval).

Definition type_of (v : pyvalue) : pytype :=
  match v with
  | PyFloat _ => TFloat
  | PyList _ _ => TList
  | PyNdarray _ _ => TNdarray
  end.

Definition pytype_eqb (a b : pytype) : bool :=
  match a, b with
  | TFloat, TFloat | TList, TList | TNdarray, TNdarray => true
  | _, _ => false
  end.

(** Class objects are truthy. *)
Definition class_truthy (_ : pytype) : bool := true.

Definition np_shape (v : pyvalue) : list Z :=
  match v with
  | PyFloat _ => []
  | PyList s _ => s
  | PyNdarray s _ => s
  end.

(** [np.array(v, dtype=np.float64)] and [np.float64(v)] keep the data. *)
Definition np_float64 (v : pyvalue) : npval :=
  match v with
  | PyFloat q => NScalar q
  | PyList _ d => d
  | PyNdarray _ d => d
  end.

Definition shape_eqb (s t : list Z) : bool :=
  if list_eq_dec Z.eq_dec s t then true else false.

Record stiffness_setup : Type := {
  su_nregimes : Z;
  su_nmaterials : Z;
  su_bond_stiffness : npval;
  su_critical_stretch : npval
}.

(** Lines 252-274 of [Model.__init__]. *)
Definition resolve_bond_stiffness (bond_stiffness critical_stretch : pyvalue)
  : result stiffness_setup :=
  if pytype_eqb (type_of bond_stiffness) (py_or class_truthy TList TNdarray)
  then
    if negb (shape_eqb (np_shape bond_stiffness) (np_shape critical_stretch))
    then Raise ValueError
    else
      nrm <~ (if shape_eqb (np_shape bond_stiffness) [1] then Ok (1, 1)
              else
                nregimes <~ getitem (np_shape bond_stiffness) 1 ;;
                nmaterials <~ getitem (np_shape bond_stiffness) 0 ;;
                Ok (nregimes, nmaterials)) ;;
      Ok {| su_nregimes := fst nrm;
            su_nmaterials := snd nrm;
            su_bond_stiffness := np_float64 bond_stiffness;
            su_critical_stretch := np_float64 critical_stretch |}
  else
    Ok {| su_nregimes := 1;
          su_nmaterials := 1;
          su_bond_stiffness := np_float64 bond_stiffness;
          su_critical_stretch := np_float64 critical_stretch |}.

(** ** External collaborators *)

(** The compiled neighbour-list module, [numpy.linalg.norm] (a square
    root) and the contents of uninitialised [numpy.empty] storage are not
    part of the model; they are taken as given. *)
Record Externals : Type := {
  np_linalg_norm : list Q -> Q;
  set_family : list (list Q) -> Q -> list Z;
  create_neighbour_list_cython : list (list Q) -> Q -> Z -> connectivity_t;
  create_neighbour_list_cl : list (list Q) -> Q -> Z -> connectivity_t;
  create_crack_cython : list (Z * Z) -> connectivity_t -> connectivity_t;
  create_crack_cl : list (Z * Z) -> connectivity_t -> connectivity_t;
  uninitialised : Q
}.

(** What [integrator.build] and [integrator.set_buffers] receive. *)
Record build_args : Type := {
  ba_nnodes : Z;
  ba_degrees_freedom : Z;
  ba_max_neighbours : Z;
  ba_nregimes : Z;
  ba_coords : list (list Q);
  ba_volume : list Q;
  ba_family : list Z;
  ba_bc_types : list (list Z);
  ba_bc_values : list (list Q);
  ba_force_bc_types : list (list Z);
  ba_force_bc_values : list (list float64)
}.

Record buffers : Type := {
  bf_nlist : ndarray2 Z;
  bf_n_neigh : list Z;
  bf_bond_stiffness : npval;
  bf_critical_stretch : npval;
  bf_plus_cs : list elt;
  bf_u : list (list Q);
  bf_ud : list (list Q);
  bf_force : list (list Q);
  bf_damage : list Q;
  bf_regimes : list (list Z)
}.

(** The arrays [integrator.write] hands back. *)
Record snapshot : Type := {
  sn_u : list (list Q);
  sn_ud : list (list Q);
  sn_force : list (list Q);
  sn_damage : list Q;
  sn_nlist : ndarray2 Z;
  sn_n_neigh : list Z
}.

(** An instance of [peridynamics.integrators.Integrator]: an object with
    hidden state, an optional OpenCL context and four operations. *)
Record Integrator : Type := {
  istate : Type;
  context : option unit;
  istate0 : istate;
  build : istate -> build_args -> istate;
  set_buffers : istate -> buffers -> istate;
  call : istate -> Q -> Q -> istate;
  write : istate -> snapshot -> snapshot
}.

Inductive integrator_arg : Type :=
| NotAnIntegrator
| AnIntegrator (integ : Integrator).

Inductive arg (A : Type) : Type :=
| ArgNone
| ArgNdarray (a : A)
| ArgOther.
Arguments ArgNone {A}.
Arguments ArgOther {A}.

Inductive connectivity_arg : Type :=
| ConnNone
| ConnTuple2 (nlist : ndarray2 Z) (n_neigh : list Z)
| ConnTupleOfLen (n : nat)
| ConnOther.

Definition crack_fn : Type :=
  list (list Q) -> ndarray2 Z -> list Z -> M (list (Z * Z)).

Inductive crack_arg : Type :=
| CrackList (pairs : list (Z * Z))
| CrackCallable (f : crack_fn).

(** What a boundary callback returns: a list of per-axis entries ([None]
    or a number), or something that is not a list. *)
Inductive bndret : Type :=
| RetList (l : list (option Q))
| RetOther.

Inductive callback : Type :=
| NotCallable
| Callable (f : list Q -> bndret).

Record Mesh : Type := {
  points : list (list Q);
  cells_dict : string -> option (list (list Z))
}.

Record InitArgs : Type := {
  a_mesh : Mesh;                       (* what meshio.read(mesh_file) gives *)
  a_integrator : integrator_arg;
  a_horizon : Q;
  a_critical_stretch : pyvalue;
  a_bond_stiffness : pyvalue;
  a_transfinite : Z;
  a_volume_total : option Q;
  a_write_path : option string;
  a_connectivity : connectivity_arg;
  a_family : arg (list Z);
  a_volume : arg (list Q);
  a_initial_crack : crack_arg;
  a_dimensions : Z;
  a_bond_type : option (list Q -> list Q -> Z);
  a_is_displacement_boundary : option callback;
  a_is_forces_boundary : option callback;
  a_is_tip : option callback;
  a_material_types : arg (ndarray2 Z);
  a_stiffness_corrections : arg (ndarray2 float64);
  a_precise_stiffness_correction : option Z
}.

(** ** [Model._volume] *)

(** The volumes are the rationals the float64 values stand for and the
    operations on them are not rounded.  What is proved of [_volume]
    below therefore only says which operations are applied to which
    operands and in which order; identities that need exact arithmetic,
    such as the nodal volumes adding up to the total, are not claimed. *)

Definition vec_sub (a b : list Q) : list Q := zip_with Qminus a b.

Definition np_cross (a b : list Q) : result (list Q) :=
  match a, b with
  | [a0; a1; a2], [b0; b1; b2] =>
      Ok [a1 * b2 - a2 * b1; a2 * b0 - a0 * b2; a0 * b1 - a1 * b0]%Q
  | _, _ => Raise ValueError
  end.

Definition np_dot (a b : list Q) : result Q :=
  if (length a =? length b)%nat
  then Ok (fold_left Qplus (zip_with Qmult a b) 0%Q)
  else Raise ValueError.

(** [coords[nodes]]: the rows selected by an index array. *)
Definition take_rows {A} (a : list A) (nodes : list Z) : result (list A) :=
  for_ nodes [] (fun n acc => r <~ getitem a n ;; Ok (acc ++ [r])).

(** [volume[nodes] += x]: every selected entry becomes its old value
    plus [x]. *)
Definition iadd_at (volume : list Q) (nodes : list Z) (x : Q)
  : result (list Q) :=
  for_ nodes volume (fun n acc =>
    old <~ getitem volume n ;; setitem acc n (old + x)%Q).

Definition _volume (ext : Externals) (nnodes dimensions : Z)
    (coords : list (list Q)) (mesh_connectivity : list (list Z))
    (transfinite : Z) (volume_total : option Q)
  : result (list Q * Q) :=
  volume <~ np_full nnodes 0%Q ;;
  let sum_total_volume := 0%Q in
  if negb (transfinite =? 0) then
    match volume_total with
    | None => Raise TypeError
    | Some volume_total =>
        if nnodes =? 0 then Raise ZeroDivisionError
        else
          let tmp := (volume_total / inject_Z nnodes)%Q in
          ones <~ np_full nnodes 1%Q ;;
          Ok (map (Qmult tmp) ones, volume_total)
    end
  else
    let element_nodes :=
      if dimensions =? 2 then Some 3
      else if dimensions =? 3 then Some 4
      else None in
    for_ mesh_connectivity (volume, sum_total_volume)
      (fun nodes (st : list Q * Q) =>
         let (volume, sum_total_volume) := st in
         ev <~ (if dimensions =? 2 then
                  rows <~ take_rows coords nodes ;;
                  match rows with
                  | [a; b; c] =>
                      let i := vec_sub b a in
                      let j := vec_sub c a in
                      x <~ np_cross i j ;;
                      Ok (Some ((1 # 2) * np_linalg_norm ext x)%Q)
                  | _ => Raise ValueError
                  end
                else if dimensions =? 3 then
                  rows <~ take_rows coords nodes ;;
                  match rows with
                  | [a; b; c; d] =>
                      let i := vec_sub a d in
                      let j := vec_sub b d in
                      let k := vec_sub c d in
                      x <~ np_cross j k ;;
                      y <~ np_dot i x ;;
                      Ok (Some (Qabs y / 6)%Q)
                  | _ => Raise ValueError
                  end
                else Ok None) ;;
         element_volume <~ read_local ev ;;
         en <~ read_local element_nodes ;;
         volume' <~ iadd_at volume nodes (element_volume / inject_Z en)%Q ;;
         Ok (volume', (sum_total_volume + element_volume)%Q)).

(** ** Integer helpers of the constructor *)

(** [a.max()] of a one-dimensional integer array. *)
Definition np_max (a : list Z) : result Z :=
  match a with
  | [] => Raise ValueError
  | x :: t => Ok (fold_left Z.max t x)
  end.

(** [np.intc(z)]: a C int; values outside its range are rejected. *)
Definition np_intc (z : Z) : result Z :=
  if (- 2 ^ 31 <=? z) && (z <? 2 ^ 31) then Ok z else Raise OverflowError.

(** [int.bit_length]. *)
Definition bit_length (z : Z) : Z :=
  if z =? 0 then 0 else Z.log2 (Z.abs z) + 1.

(** ** [Model._set_material_types] *)

(** Lines 617-619: the body of the loop over the slots of node [i].
    [material_types] is an array of C ints (line 613): once
    [bond_type] has answered, the slot is located and the answer is
    converted to a C int, which fails with [OverflowError] for a number
    that a C int cannot hold. *)
Definition material_type_of_slot (self : Self) (nlist : ndarray2 Z)
    (bond_type : list Q -> list Q -> Z) (i neigh : Z)
    (material_types : list (list Z)) : M (list (list Z)) :=
  j <- lift (getitem2 (nd_rows nlist) i neigh) ;;
  xi <- lift (getitem (coords self) i) ;;
  xj <- lift (getitem (coords self) j) ;;
  emit (EvBondType i j) ;;;
  _ <- lift (getitem2 material_types i neigh) ;;
  material_type <- lift (np_intc (bond_type xi xj)) ;;
  lift (setitem2 material_types i neigh material_type).

(** Lines 616-619: the body of the loop over the nodes. *)
Definition material_types_of_node (self : Self)
    (connectivity : connectivity_t) (bond_type : list Q -> list Q -> Z)
    (i : Z) (material_types : list (list Z)) : M (list (list Z)) :=
  let (nlist, n_neigh) := connectivity in
  nn_i <- lift (getitem n_neigh i) ;;
  forM (range nn_i) material_types
    (material_type_of_slot self nlist bond_type i).

Definition _set_material_types (self : Self) (connectivity : connectivity_t)
    (bond_type : list Q -> list Q -> Z) (write_path : option string)
  : M (list (list Z)) :=
  let (nlist, n_neigh) := connectivity in
  material_types <-
    lift (np_full2 (nnodes self) (max_neighbours self) 0) ;;
  material_types <-
    forM (range (nnodes self)) material_types
      (material_types_of_node self connectivity bond_type) ;;
  match write_path with
  | Some _ =>
      emit (EvWriteArray "material_types") ;;; ret material_types
  | None => ret material_types
  end.

(** ** [initial_crack_helper] *)

(** Lines 1149-1150: the pairs contributed by node [i]. *)
Definition pairs_of_node (nlist : ndarray2 Z) (n_neigh : list Z) (i : Z)
    (pairs : list (Z * Z)) : result (list (Z * Z)) :=
  row <~ getitem (nd_rows nlist) i ;;
  nn_i <~ getitem n_neigh i ;;
  Ok (pairs ++
      map (fun j => (i, j)) (filter (fun j => i <? j) (slice_to row nn_i))).

(** Lines 1153-1155: the test of one pair. *)
Definition test_pair (crack_function : list Q -> list Q -> bool)
    (coords : list (list Q)) (p : Z * Z) (crack : list (Z * Z))
  : M (list (Z * Z)) :=
  let (i, j) := p in
  xi <- lift (getitem coords i) ;;
  xj <- lift (getitem coords j) ;;
  emit (EvCrackFunction i j) ;;;
  ret (if crack_function xi xj then crack ++ [(i, j)] else crack).

Definition initial_crack_helper (crack_function : list Q -> list Q -> bool)
  : crack_fn :=
  fun coords nlist n_neigh =>
    let crack := [] in
    let nnodes := Z.of_nat (length (nd_rows nlist)) in
    pairs <- lift (for_ (range nnodes) [] (pairs_of_node nlist n_neigh)) ;;
    forM pairs crack (test_pair crack_function coords).

(** ** [Model._set_boundary_conditions] *)

Record boundary_arrays : Type := {
  bc_types : list (list Z);
  bc_values : list (list Q);
  force_bc_types : list (list Z);
  force_bc_values : list (list float64);
  tip_types : list (list Z)
}.

(** The three checks made on each callback, with the calls they make. *)
Definition check_callback (ev : list Q -> event) (f : callback) : M unit :=
  match f with
  | NotCallable => raise TypeError
  | Callable f =>
      emit (ev [0; 0; 0]%Q) ;;;
      match f [0; 0; 0]%Q with
      | RetOther => raise TypeError
      | RetList _ =>
          emit (ev [0; 0; 0]%Q) ;;;
          match f [0; 0; 0]%Q with
          | RetList l =>
              if negb (length l =? 3)%nat then raise TypeError else ret tt
          | RetOther => raise TypeError      (* len() of a non-sequence *)
          end
      end
  end.

Definition invoke (ev : list Q -> event) (f : callback) (x : list Q)
  : M bndret :=
  match f with
  | NotCallable => raise TypeError
  | Callable f => emit (ev x) ;;; ret (f x)
  end.

Definition bnd_item (r : bndret) (j : Z) : result (option Q) :=
  match r with
  | RetList l => getitem l j
  | RetOther => Raise TypeError              (* not subscriptable *)
  end.

(** Lines 818-833: axis [j] of node [i].  The state is the five arrays
    and [is_force_node]. *)
Definition boundary_axis (self : Self) (bnd forces_bnd tip : bndret)
    (i j : Z) (st : boundary_arrays * Z) : result (boundary_arrays * Z) :=
  let (arrays, is_force_node) := st in
  forces_bnd_j <~ bnd_item forces_bnd j ;;
  bnd_j <~ bnd_item bnd j ;;
  tip_j <~ bnd_item tip j ;;
  st1 <~
    match bnd_j with
    | Some v =>
        t <~ setitem2 (bc_types arrays) i j 1 ;;
        w <~ setitem2 (bc_values arrays) i j v ;;
        Ok (t, w)
    | None => Ok (bc_types arrays, bc_values arrays)
    end ;;
  st2 <~
    match forces_bnd_j with
    | Some v =>
        t <~ setitem2 (force_bc_types arrays) i j 1 ;;
        vol_i <~ getitem (volume self) i ;;
        w <~ setitem2 (force_bc_values arrays) i j (np_div v vol_i) ;;
        Ok (t, w, 1)
    | None =>
        Ok (force_bc_types arrays, force_bc_values arrays, is_force_node)
    end ;;
  tt' <~
    match tip_j with
    | Some _ => setitem2 (tip_types arrays) i j 1
    | None => Ok (tip_types arrays)
    end ;;
  Ok ({| bc_types := fst st1; bc_values := snd st1;
         force_bc_types := fst (fst st2);
         force_bc_values := snd (fst st2);
         tip_types := tt' |}, snd st2).

(** Lines 813-834: node [i].  The state is the five arrays and
    [num_force_bc_nodes]. *)
Definition boundary_node (self : Self)
    (is_displacement_boundary is_forces_boundary is_tip : callback)
    (i : Z) (st : boundary_arrays * Z) : M (boundary_arrays * Z) :=
  let (arrays, num_force_bc_nodes) := st in
  x <- lift (getitem (coords self) i) ;;
  bnd <- invoke EvIsDisplacementBoundary is_displacement_boundary x ;;
  forces_bnd <- invoke EvIsForcesBoundary is_forces_boundary x ;;
  tip <- invoke EvIsTip is_tip x ;;
  let is_force_node := 0 in
  st' <- lift (for_ (range (degrees_freedom self)) (arrays, is_force_node)
                 (boundary_axis self bnd forces_bnd tip i)) ;;
  ret (fst st', num_force_bc_nodes + snd st').

(** Lines 835-837. *)
Definition normalise_forces (arrays : boundary_arrays)
    (num_force_bc_nodes : Z) : boundary_arrays :=
  if negb (num_force_bc_nodes =? 0) then
    {| bc_types := bc_types arrays; bc_values := bc_values arrays;
       force_bc_types := force_bc_types arrays;
       force_bc_values :=
         map (map (fun x => f64_div x (inject_Z num_force_bc_nodes)))
             (force_bc_values arrays);
       tip_types := tip_types arrays |}
  else arrays.

Definition _set_boundary_conditions (self : Self)
    (is_displacement_boundary is_forces_boundary is_tip : callback)
  : M boundary_arrays :=
  check_callback EvIsDisplacementBoundary is_displacement_boundary ;;;
  check_callback EvIsForcesBoundary is_forces_boundary ;;;
  check_callback EvIsTip is_tip ;;;
  let n := nnodes self in
  let d := degrees_freedom self in
  bc_types0 <- lift (np_full2 n d 0) ;;
  bc_values0 <- lift (np_full2 n d 0%Q) ;;
  force_bc_types0 <- lift (np_full2 n d 0) ;;
  force_bc_values0 <- lift (np_full2 n d (Fin 0)) ;;
  tip_types0 <- lift (np_full2 n d 0) ;;
  let num_force_bc_nodes := 0 in
  st <-
    forM (range n)
      ({| bc_types := bc_types0; bc_values := bc_values0;
          force_bc_types := force_bc_types0;
          force_bc_values := force_bc_values0;
          tip_types := tip_types0 |}, num_force_bc_nodes)
      (boundary_node self is_displacement_boundary is_forces_boundary
         is_tip) ;;
  ret (normalise_forces (fst st) (snd st)).

(** ** [FamilyError] *)

Definition show_nat (n : nat) : string :=
  NilEmpty.string_of_uint (Nat.to_uint n).

(** [np.where(family == 0)[0]]: the positions holding 0, in increasing
    order. *)
Fixpoint where_zero_from (k : nat) (family : list Z) : list nat :=
  match family with
  | [] => []
  | f :: t =>
      if f =? 0 then k :: where_zero_from (S k) t
      else where_zero_from (S k) t
  end.

Definition where_zero (family : list Z) : list nat :=
  where_zero_from 0 family.

Definition family_error_message (family : list Z) : string :=
  let indicies := where_zero family in
  let indicies := String.concat " " (map show_nat indicies) in
  ("The following nodes have no bonds in the initial state, "
     ++ indicies ++ ".")%string.

(** [raise FamilyError(family)]. *)
Definition raise_FamilyError {A} (family : list Z) : M A :=
  raise (FamilyError (family_error_message family)).

(** [np.any(family == 0)]. *)
Definition any_zero (family : list Z) : bool :=
  existsb (fun f => f =? 0) family.

(** ** The model object *)

Record Model : Type := {
  attrs : Self;
  integrator : Integrator;
  integrator_state : istate integrator;
  nregimes : Z;
  nmaterials : Z;
  bond_stiffness : npval;
  critical_stretch : npval;
  sum_total_volume : option Q;
  initial_connectivity : connectivity_t;
  stiffness_corrections : list (list float64);
  material_types : list (list Z);
  model_tip_types : list (list Z)
}.

(** ** [Model.__init__], stage by stage *)

Definition write_array_if (write_path : option string) (names : list string)
  : M unit :=
  match write_path with
  | Some _ => forM names tt (fun name _ => emit (EvWriteArray name))
  | None => ret tt
  end.

Definition lookup_cells (mesh : Mesh) (key : string)
  : result (list (list Z)) :=
  match cells_dict mesh key with
  | Some c => Ok c
  | None => Raise KeyError
  end.

(** Lines 283-297. *)
Definition init_volume (ext : Externals) (a : InitArgs)
    (nnodes : Z) (coords : list (list Q)) (mesh_connectivity : list (list Z))
  : M (list Q * option Q) :=
  match a_volume a with
  | ArgNone =>
      vs <- lift (_volume ext nnodes (a_dimensions a) coords
                    mesh_connectivity (a_transfinite a) (a_volume_total a)) ;;
      write_array_if (a_write_path a) ["volume"%string] ;;;
      ret (fst vs, Some (snd vs))
  | ArgNdarray volume =>
      if negb (Z.of_nat (length volume) =? nnodes) then raise ValueError
      else ret (volume, None)
  | ArgOther => raise TypeError
  end.

(** Lines 301-314: the family array, computed or supplied. *)
Definition resolve_family (ext : Externals) (a : InitArgs)
    (nnodes : Z) (coords : list (list Q)) : M (list Z) :=
  match a_family a with
  | ArgNone =>
      emit EvSetFamily ;;;
      write_array_if (a_write_path a) ["family"%string] ;;;
      ret (set_family ext coords (a_horizon a))
  | ArgNdarray family =>
      if negb (Z.of_nat (length family) =? nnodes) then raise ValueError
      else ret family
  | ArgOther => raise TypeError
  end.

(** Lines 301-316, the family check included. *)
Definition init_family (ext : Externals) (a : InitArgs)
    (nnodes : Z) (coords : list (list Q)) : M (list Z) :=
  family <- resolve_family ext a nnodes coords ;;
  if any_zero family then raise_FamilyError family
  else ret family.

(** [if initial_crack:] with the call that applies the crack. *)
Definition init_crack (a : InitArgs) (coords : list (list Q))
    (ev : event)
    (create_crack : list (Z * Z) -> connectivity_t -> connectivity_t)
    (conn : connectivity_t) : M connectivity_t :=
  match a_initial_crack a with
  | CrackList [] => ret conn
  | CrackList pairs => emit ev ;;; ret (create_crack pairs conn)
  | CrackCallable f =>
      emit EvInitialCrackCallable ;;;
      pairs <- f coords (fst conn) (snd conn) ;;
      emit ev ;;;
      ret (create_crack pairs conn)
  end.

(** Lines 318-355: the integrator has no OpenCL context. *)
Definition init_connectivity_cython (ext : Externals) (a : InitArgs)
    (coords : list (list Q)) (family : list Z) : M (Z * connectivity_t) :=
  emit (EvWarn WarnNoContext) ;;;
  mc <-
    match a_connectivity a with
    | ConnNone =>
        fmax <- lift (np_max family) ;;
        max_neighbours <- lift (np_intc fmax) ;;
        emit (EvCreateNeighbourListCython max_neighbours) ;;;
        ret (max_neighbours,
             create_neighbour_list_cython ext coords (a_horizon a)
               max_neighbours)
    | ConnTuple2 nlist n_neigh =>
        max_neighbours <- lift (np_intc (nd_cols nlist)) ;;
        fmax <- lift (np_max family) ;;
        if negb (max_neighbours =? fmax) then raise ValueError
        else ret (max_neighbours, (nlist, n_neigh))
    | ConnTupleOfLen _ => raise ValueError
    | ConnOther => raise TypeError
    end ;;
  conn <- init_crack a coords EvCreateCrackCython (create_crack_cython ext)
            (snd mc) ;;
  ret (fst mc, conn).

(** Lines 357-396: the integrator has an OpenCL context. *)
Definition init_connectivity_cl (ext : Externals) (a : InitArgs)
    (coords : list (list Q)) (family : list Z) : M (Z * connectivity_t) :=
  mc <-
    match a_connectivity a with
    | ConnNone =>
        fmax <- lift (np_max family) ;;
        max_neighbours <-
          lift (np_intc (Z.shiftl 1 (bit_length (fmax - 1)))) ;;
        emit (EvCreateNeighbourListCl max_neighbours) ;;;
        write_array_if (a_write_path a) ["nlist"; "n_neigh"]%string ;;;
        ret (max_neighbours,
             create_neighbour_list_cl ext coords (a_horizon a)
               max_neighbours)
    | ConnTuple2 nlist n_neigh =>
        max_neighbours <- lift (np_intc (nd_cols nlist)) ;;
        let test := max_neighbours - 1 in
        if negb (Z.land max_neighbours test =? 0) then raise ValueError
        else ret (max_neighbours, (nlist, n_neigh))
    | ConnTupleOfLen _ => raise ValueError
    | ConnOther => raise TypeError
    end ;;
  conn <- init_crack a coords EvCreateCrackCl (create_crack_cl ext)
            (snd mc) ;;
  ret (fst mc, conn).

Definition shape2_ok {A} (x : ndarray2 A) (n m : Z) : bool :=
  (Z.of_nat (length (nd_rows x)) =? n) && (nd_cols x =? m).

(** Lines 401-419. *)
Definition init_stiffness_corrections (a : InitArgs) (self : Self)
    (conn : connectivity_t) : M (list (list float64)) :=
  match a_stiffness_corrections a with
  | ArgNone =>
      _set_stiffness_corrections self (horizon self) conn
        (a_precise_stiffness_correction a) (write_path self)
  | ArgNdarray sc =>
      if negb (shape2_ok sc (nnodes self) (max_neighbours self))
      then raise ValueError
      else ret (nd_rows sc)
  | ArgOther => raise TypeError
  end.

(** Lines 421-441. *)
Definition init_material_types (a : InitArgs) (self : Self)
    (conn : connectivity_t) : M (list (list Z)) :=
  let bond_type :=
    match a_bond_type a with
    | Some f => f
    | None => fun _ _ => 0
    end in
  match a_material_types a with
  | ArgNone => _set_material_types self conn bond_type (write_path self)
  | ArgNdarray mt =>
      if negb (shape2_ok mt (nnodes self) (max_neighbours self))
      then raise ValueError
      else ret (nd_rows mt)
  | ArgOther => raise TypeError
  end.

Definition no_boundary : callback :=
  Callable (fun _ => RetList [None; None; None]).

Definition default_callback (f : option callback) : callback :=
  match f with
  | Some f => f
  | None => no_boundary
  end.

(** What lines 226-297 establish: the integrator, the mesh, the bond
    parameters and the nodal volumes. *)
Record Prefix : Type := {
  p_integrator : Integrator;
  p_coords : list (list Q);
  p_nnodes : Z;
  p_mesh_connectivity : list (list Z);
  p_setup : stiffness_setup;
  p_volume : list Q;
  p_sum_total_volume : option Q
}.

(** Lines 226-297 of [Model.__init__]. *)
Definition init_prefix (ext : Externals) (a : InitArgs) : M Prefix :=
  integ <-
    match a_integrator a with
    | NotAnIntegrator => raise InvalidIntegrator
    | AnIntegrator integ => ret integ
    end ;;
  let dimensions := a_dimensions a in
  mesh_elements <-
    (if dimensions =? 2 then ret ("triangle", "line")%string
     else if dimensions =? 3 then ret ("tetra", "triangle")%string
     else raise (DimensionalityError dimensions)) ;;
  (* _read_mesh *)
  let coords := points (a_mesh a) in
  let nnodes := Z.of_nat (length coords) in
  mesh_connectivity <- lift (lookup_cells (a_mesh a) (fst mesh_elements)) ;;
  mesh_boundary <- lift (lookup_cells (a_mesh a) (snd mesh_elements)) ;;
  su <- lift (resolve_bond_stiffness (a_bond_stiffness a)
                (a_critical_stretch a)) ;;
  (if negb (a_transfinite a =? 0) then
     match a_volume_total a with
     | None => raise ValueError
     | Some _ => ret tt
     end
   else ret tt) ;;;
  vs <- init_volume ext a nnodes coords mesh_connectivity ;;
  ret {| p_integrator := integ;
         p_coords := coords;
         p_nnodes := nnodes;
         p_mesh_connectivity := mesh_connectivity;
         p_setup := su;
         p_volume := fst vs;
         p_sum_total_volume := snd vs |}.

(** Lines 318-473 of [Model.__init__]: everything after the family
    check. *)
Definition init_rest (ext : Externals) (a : InitArgs) (p : Prefix)
    (family : list Z) : M Model :=
  let integ := p_integrator p in
  mc <-
    match context integ with
    | None => init_connectivity_cython ext a (p_coords p) family
    | Some _ => init_connectivity_cl ext a (p_coords p) family
    end ;;
  let self :=
    {| dimensions := a_dimensions a;
       coords := p_coords p;
       nnodes := p_nnodes p;
       mesh_connectivity := p_mesh_connectivity p;
       horizon := a_horizon a;
       volume := p_volume p;
       volume_total := None;
       family := family;
       max_neighbours := fst mc;
       degrees_freedom := 3;
       write_path := a_write_path a |} in
  let initial_connectivity := snd mc in
  stiffness_corrections <-
    init_stiffness_corrections a self initial_connectivity ;;
  material_types <- init_material_types a self initial_connectivity ;;
  ba <- _set_boundary_conditions self
          (default_callback (a_is_displacement_boundary a))
          (default_callback (a_is_forces_boundary a))
          (default_callback (a_is_tip a)) ;;
  emit EvIntegratorBuild ;;;
  ret {| attrs := self;
         integrator := integ;
         integrator_state :=
           build integ (istate0 integ)
             {| ba_nnodes := p_nnodes p;
                ba_degrees_freedom := 3;
                ba_max_neighbours := fst mc;
                ba_nregimes := su_nregimes (p_setup p);
                ba_coords := p_coords p;
                ba_volume := p_volume p;
                ba_family := family;
                ba_bc_types := bc_types ba;
                ba_bc_values := bc_values ba;
                ba_force_bc_types := force_bc_types ba;
                ba_force_bc_values := force_bc_values ba |};
         nregimes := su_nregimes (p_setup p);
         nmaterials := su_nmaterials (p_setup p);
         bond_stiffness := su_bond_stiffness (p_setup p);
         critical_stretch := su_critical_stretch (p_setup p);
         sum_total_volume := p_sum_total_volume p;
         initial_connectivity := initial_connectivity;
         stiffness_corrections := stiffness_corrections;
         material_types := material_types;
         model_tip_types := tip_types ba |}.

(** [Model.__init__]. *)
Definition Model_init (ext : Externals) (a : InitArgs) : M Model :=
  p <- init_prefix ext a ;;
  family <- init_family ext a (p_nnodes p) (p_coords p) ;;
  init_rest ext a p family.

(** ** [Model.simulate] *)

(** A reported quantity: a number or Python's [None]. *)
Inductive pyscalar : Type :=
| PyNone
| PyNum (q : Q).

Record SimArgs : Type := {
  s_steps : Z;
  s_u : option (list (list Q));
  s_ud : option (list (list Q));
  s_connectivity : connectivity_arg;
  s_regimes : arg (ndarray2 Z);
  s_critical_stretch : option pyvalue;
  s_bond_stiffness : option pyvalue;
  s_displacement_bc_magnitudes : arg (list Q);
  s_force_bc_magnitudes : arg (list Q);
  s_first_step : Z;
  s_write : option Z;
  s_write_path : option string
}.

(** The variables of the driver loop. *)
Record SimState (I : Type) : Type := {
  st_integrator : I;
  st_arrays : snapshot;
  damage_sum_data : list Q;
  tip_displacement_data : list pyscalar;
  tip_velocity_data : list pyscalar;
  tip_force_data : list pyscalar
}.

Definition np_empty2 (ext : Externals) (n m : Z) : result (list (list Q)) :=
  np_full2 n m (uninitialised ext).

(** Magnitude arrays: [None], a one-dimensional array, anything else. *)
Definition init_magnitudes (steps : Z) (m : arg (list Q))
  : result (list Q) :=
  match m with
  | ArgNone => np_full steps 0%Q
  | ArgNdarray v =>
      if negb (Z.of_nat (length v) =? steps) then Raise ValueError
      else Ok v
  | ArgOther => Raise TypeError
  end.

(** [Model._simulate_initialise]. *)
Definition _simulate_initialise (ext : Externals) (m : Model) (s : SimArgs)
  : M (SimState (istate (integrator m)) * list Q * list Q) :=
  let self := attrs m in
  u <- lift (match s_u s with
             | None => np_empty2 ext (nnodes self) 3
             | Some u => Ok u
             end) ;;
  ud <- lift (match s_ud s with
              | None => np_empty2 ext (nnodes self) 3
              | Some ud => Ok ud
              end) ;;
  force <- lift (np_empty2 ext (nnodes self) 3) ;;
  damage <- lift (np_full (nnodes self) (uninitialised ext)) ;;
  displacement_bc_magnitudes <-
    lift (init_magnitudes (s_steps s) (s_displacement_bc_magnitudes s)) ;;
  force_bc_magnitudes <-
    lift (init_magnitudes (s_steps s) (s_force_bc_magnitudes s)) ;;
  conn <-
    match s_connectivity s with
    | ConnNone => ret (initial_connectivity m)
    | ConnTuple2 nlist n_neigh => ret (nlist, n_neigh)
    | ConnTupleOfLen _ => raise ValueError
    | ConnOther => raise TypeError
    end ;;
  regimes <-
    match s_regimes s with
    | ArgNone =>
        lift (np_full2 (nnodes self) (max_neighbours self) 0)
    | ArgNdarray r =>
        if negb (shape2_ok r (nnodes self) (max_neighbours self))
        then raise ValueError
        else ret (nd_rows r)
    | ArgOther => raise TypeError
    end ;;
  let bond_stiffness :=
    match s_bond_stiffness s with
    | None => bond_stiffness m
    | Some v => np_float64 v
    end in
  let critical_stretch :=
    match s_critical_stretch s with
    | None => critical_stretch m
    | Some v => np_float64 v
    end in
  plus_cs <- lift (_set_plus_cs bond_stiffness critical_stretch
                     (nregimes m) (nmaterials m)) ;;
  emit EvSetBuffers ;;;
  ret ({| st_integrator :=
            set_buffers (integrator m) (integrator_state m)
              {| bf_nlist := fst conn; bf_n_neigh := snd conn;
                 bf_bond_stiffness := bond_stiffness;
                 bf_critical_stretch := critical_stretch;
                 bf_plus_cs := plus_cs;
                 bf_u := u; bf_ud := ud; bf_force := force;
                 bf_damage := damage; bf_regimes := regimes |};
          st_arrays :=
            {| sn_u := u; sn_ud := ud; sn_force := force;
               sn_damage := damage;
               sn_nlist := fst conn; sn_n_neigh := snd conn |};
          damage_sum_data := [];
          tip_displacement_data := [];
          tip_velocity_data := [];
          tip_force_data := [] |},
       displacement_bc_magnitudes, force_bc_magnitudes).

(** Lines 940-950: the sums over the tip entries.  The state is
    [(tmp, tip_displacement, tip_velocity, tip_force)]. *)
Definition tip_sums (self : Self) (tip_types : list (list Z))
    (u ud force : list (list Q)) : result (Z * Q * Q * Q) :=
  for_ (range (nnodes self)) (0, 0%Q, 0%Q, 0%Q) (fun i acc =>
    for_ (range (degrees_freedom self)) acc
      (fun j (acc : Z * Q * Q * Q) =>
         let '(tmp, tip_displacement, tip_velocity, tip_force) := acc in
         t <~ getitem2 tip_types i j ;;
         if t =? 1 then
           u_ij <~ getitem2 u i j ;;
           ud_ij <~ getitem2 ud i j ;;
           f_ij <~ getitem2 force i j ;;
           Ok (tmp + 1, (tip_displacement + u_ij)%Q,
               (tip_velocity + ud_ij)%Q, (tip_force + f_ij)%Q)
         else Ok acc)).

(** Lines 951-960: what is appended to the three tip lists. *)
Definition tip_report (sums : Z * Q * Q * Q)
  : pyscalar * pyscalar * pyscalar :=
  let '(tmp, tip_displacement, tip_velocity, tip_force) := sums in
  if negb (tmp =? 0) then
    (PyNum (tip_displacement / inject_Z tmp),
     PyNum (tip_velocity / inject_Z tmp),
     PyNum tip_force)
  else (PyNone, PyNone, PyNum tip_force).

(** Lines 963-968: the warning, if any, for a damage sum. *)
Definition damage_warning (damage_sum : Q) (nnodes : Z) : option warning :=
  if Qlt_le_dec ((5 # 100) * inject_Z nnodes) damage_sum
  then Some WarnOver5Percent
  else if Qlt_le_dec ((7 # 10) * inject_Z nnodes) damage_sum
       then Some WarnOver7Percent
       else None.

Definition np_sum (a : list Q) : Q := fold_left Qplus a 0%Q.

(** Lines 930-968: the body of [if step % write == 0]. *)
Definition write_step (m : Model) (step : Z)
    (st : SimState (istate (integrator m)))
  : M (SimState (istate (integrator m))) :=
  emit EvIntegratorWrite ;;;
  let arrays := write (integrator m) (st_integrator st) (st_arrays st) in
  emit (EvWriteMesh step) ;;;
  sums <- lift (tip_sums (attrs m) (model_tip_types m)
                  (sn_u arrays) (sn_ud arrays) (sn_force arrays)) ;;
  let '(tip_displacement, tip_velocity, tip_force) := tip_report sums in
  let damage_sum := np_sum (sn_damage arrays) in
  match damage_warning damage_sum (nnodes (attrs m)) with
  | Some w => emit (EvWarn w)
  | None => ret tt
  end ;;;
  ret {| st_integrator := st_integrator st;
         st_arrays := arrays;
         damage_sum_data := damage_sum_data st ++ [damage_sum];
         tip_displacement_data :=
           tip_displacement_data st ++ [tip_displacement];
         tip_velocity_data := tip_velocity_data st ++ [tip_velocity];
         tip_force_data := tip_force_data st ++ [tip_force] |}.

(** One iteration of the loop over [step]. *)
Definition simulate_step (m : Model) (s : SimArgs)
    (displacement_bc_magnitudes force_bc_magnitudes : list Q) (step : Z)
    (st : SimState (istate (integrator m)))
  : M (SimState (istate (integrator m))) :=
  d <- lift (getitem displacement_bc_magnitudes (step - 1)) ;;
  f <- lift (getitem force_bc_magnitudes (step - 1)) ;;
  emit (EvIntegratorStep d f) ;;;
  let st :=
    {| st_integrator := call (integrator m) (st_integrator st) d f;
       st_arrays := st_arrays st;
       damage_sum_data := damage_sum_data st;
       tip_displacement_data := tip_displacement_data st;
       tip_velocity_data := tip_velocity_data st;
       tip_force_data := tip_force_data st |} in
  match s_write s with
  | None => ret st
  | Some w =>
      if w =? 0 then ret st
      else if step mod w =? 0 then write_step m step st
      else ret st
  end.

Definition simulate (ext : Externals) (m : Model) (s : SimArgs)
  : M (SimState (istate (integrator m))) :=
  init <- _simulate_initialise ext m s ;;
  let '(st, displacement_bc_magnitudes, force_bc_magnitudes) := init in
  forM (range2 (s_first_step s) (s_first_step s + s_steps s)) st
    (simulate_step m s displacement_bc_magnitudes force_bc_magnitudes).

(** ** Entries of two-dimensional arrays *)

Definition entry {A} (a : list (list A)) (i j : nat) : option A :=
  match nth_error a i with
  | Some row => nth_error row j
  | None => None
  end.

(** [a] has [n] rows of [m] entries each. *)
Definition has_shape {A} (a : list (list A)) (n m : nat) : Prop :=
  length a = n /\ Forall (fun row => length row = m) a.

(** ** The statements of the specification, for comparison *)

(** The family volume of node [n]: the sum of the volumes of the members
    of its initial family. *)
Definition spec_family_volume (volume : list Q) (nlist : ndarray2 Z)
    (family : list Z) (n : nat) : Q :=
  fold_left Qplus
    (map (fun j => nth (Z.to_nat j) volume 0%Q)
         (firstn (Z.to_nat (nth n family 0)) (nth n (nd_rows nlist) [])))
    0%Q.

(** The precise correction factor in two dimensions as the specification
    states it, with the bulk family volume [pi * horizon^2]. *)
Definition spec_precise_factor_2d (horizon fv_i fv_j : Q) : float64 :=
  np_div (2 * (np_pi * horizon ^ 2)) (fv_i + fv_j).

Definition is_power_of_two (z : Z) : Prop :=
  exists k, 0 <= k /\ z = 2 ^ k.

(** How often [bond_type] was called on the pair of nodes [i] and [j], in
    either order. *)
Definition bond_type_calls_on_pair (t : list event) (i j : Z) : nat :=
  length
    (filter (fun e =>
               match e with
               | EvBondType a b =>
                   ((a =? i) && (b =? j)) || ((a =? j) && (b =? i))
               | _ => false
               end) t).

(** How often the crack predicate was called on the pair. *)
Definition crack_calls_on_pair (t : list event) (i j : Z) : nat :=
  length
    (filter (fun e =>
               match e with
               | EvCrackFunction a b =>
                   ((a =? i) && (b =? j)) || ((a =? j) && (b =? i))
               | _ => false
               end) t).

(** ** Classes of events *)

(** The external calls the driver loop can make on a model of [nnodes]
    nodes: the integrator, the mesh writer and the first warning; the
    second warning needs a negative node count. *)
Definition driver_event (nnodes : Z) (e : event) : Prop :=
  match e with
  | EvSetBuffers | EvIntegratorStep _ _ | EvIntegratorWrite
  | EvWriteMesh _ | EvWarn WarnOver5Percent => True
  | EvWarn WarnOver7Percent => nnodes < 0
  | _ => False
  end.


(** ** Checks on the data of a model *)

(** [a] has [n] rows of [m] entries each, as a test. *)
Definition rows_ok {A} (a : list (list A)) (n m : Z) : bool :=
  (Z.of_nat (length a) =? n) &&
  forallb (fun row => Z.of_nat (length row) =? m) a.

(** No entry of [tip_types] equals 1. *)
Definition no_tip (tip_types : list (list Z)) : bool :=
  forallb (forallb (fun t => negb (t =? 1))) tip_types.


(** ** Bonds of a neighbour list *)

(** The directed bonds [(i, nlist[i][k])], [k < n_neigh[i]], of the first
    [n] nodes, in the order in which the setup loops visit them. *)
Definition directed_bonds (conn : connectivity_t) (n : nat)
  : list (Z * Z) :=
  flat_map
    (fun i =>
       map (fun j => (Z.of_nat i, j))
           (firstn (Z.to_nat (nth i (snd conn) 0))
                   (nth i (nd_rows (fst conn)) [])))
    (seq 0 n).

(** Those among them that lead from a node to one of higher index. *)
Definition ascending_bonds (conn : connectivity_t) (n : nat)
  : list (Z * Z) :=
  filter (fun p : Z * Z => fst p <? snd p) (directed_bonds conn n).

(** A connectivity that fits [n] nodes and [w] slots: one count per node,
    between 0 and [w]; [n] rows of [w] slots; every slot a node index. *)
Definition conn_ok (n w : Z) (conn : connectivity_t) : bool :=
  let (nlist, n_neigh) := conn in
  (0 <=? w) &&
  (Z.of_nat (length n_neigh) =? n) &&
  rows_ok (nd_rows nlist) n w &&
  forallb (fun nn => (0 <=? nn) && (nn <=? w)) n_neigh &&
  forallb (forallb (fun j => (0 <=? j) && (j <? n))) (nd_rows nlist).

Definition connectivity_ok (self : Self) (conn : connectivity_t) : bool :=
  (Z.of_nat (length (coords self)) =? nnodes self) &&
  conn_ok (nnodes self) (max_neighbours self) conn.

Definition bond_type_event (p : Z * Z) : event :=
  EvBondType (fst p) (snd p).

Definition crack_function_event (p : Z * Z) : event :=
  EvCrackFunction (fst p) (snd p).

(** What [_set_material_types] writes at the end. *)
Definition material_types_written (write_path : option string)
  : list event :=
  match write_path with
  | Some _ => [EvWriteArray "material_types"]
  | None => []
  end.

(** An event that is a call of [bond_type] or of the crack predicate. *)
Definition pair_callback_event (e : event) : bool :=
  match e with
  | EvBondType _ _ | EvCrackFunction _ _ => true
  | _ => false
  end.

(** The calls of [bond_type] among the events, in their order, and those
    of the crack predicate. *)
Definition is_bond_type_call (e : event) : bool :=
  match e with
  | EvBondType _ _ => true
  | _ => false
  end.

Definition is_crack_call (e : event) : bool :=
  match e with
  | EvCrackFunction _ _ => true
  | _ => false
  end.

Definition bond_type_calls (t : list event) : list event :=
  filter is_bond_type_call t.

Definition crack_function_calls (t : list event) : list event :=
  filter is_crack_call t.

(** Where the [initial_crack] argument comes from: a list of pairs, or a
    pair predicate decorated with [initial_crack_helper]. *)
Inductive crack_source : Type :=
| FromList (pairs : list (Z * Z))
| FromHelper (crack_function : list Q -> list Q -> bool).

Definition crack_arg_of (c : crack_source) : crack_arg :=
  match c with
  | FromList pairs => CrackList pairs
  | FromHelper crack_function =>
      CrackCallable (initial_crack_helper crack_function)
  end.

(** The neighbour list the constructor has before it applies the initial
    crack: the one supplied, or the one it creates for the model's
    coordinates, horizon and number of slots. *)
Definition connectivity_before_crack (ext : Externals) (a : InitArgs)
    (m : Model) : connectivity_t :=
  match a_connectivity a with
  | ConnTuple2 nlist n_neigh => (nlist, n_neigh)
  | _ =>
      match context (integrator m) with
      | None =>
          create_neighbour_list_cython ext (coords (attrs m)) (a_horizon a)
            (max_neighbours (attrs m))
      | Some _ =>
          create_neighbour_list_cl ext (coords (attrs m)) (a_horizon a)
            (max_neighbours (attrs m))
      end
  end.

(** ** Symmetric neighbour lists *)

(** The neighbours in the valid slots of node [i]. *)
Definition valid_neighbours (conn : connectivity_t) (i : nat) : list Z :=
  firstn (Z.to_nat (nth i (snd conn) 0)) (nth i (nd_rows (fst conn)) []).

Fixpoint nodupb (l : list Z) : bool :=
  match l with
  | [] => true
  | x :: t => negb (existsb (Z.eqb x) t) && nodupb t
  end.

(** No node lists a neighbour twice or lists itself, and every bond is
    listed from both of its ends. *)
Definition simple_symmetric (conn : connectivity_t) (n : nat) : bool :=
  forallb
    (fun i =>
       let v := valid_neighbours conn i in
       nodupb v &&
       negb (existsb (Z.eqb (Z.of_nat i)) v) &&
       forallb (fun j =>
                  existsb (Z.eqb (Z.of_nat i))
                          (valid_neighbours conn (Z.to_nat j))) v)
    (seq 0 n).

Definition pair_eq_dec (x y : Z * Z) : {x = y} + {x <> y}.
Proof. decide equality; apply Z.eq_dec. Defined.

(** How many of the pairs in [l] join [i] and [j], in either order. *)
Definition pair_hits (l : list (Z * Z)) (i j : Z) : nat :=
  length
    (filter (fun p : Z * Z =>
               ((fst p =? i) && (snd p =? j)) ||
               ((fst p =? j) && (snd p =? i))) l).

(** ** Checks on the input of the stiffness corrections *)

(** The connectivity fits the model, there is one family count and one
    volume per node, and no family is larger than the neighbour list is
    wide. *)
Definition stiffness_input_ok (self : Self) (conn : connectivity_t) : bool :=
  connectivity_ok self conn &&
  (Z.of_nat (length (family self)) =? nnodes self) &&
  (Z.of_nat (length (volume self)) =? nnodes self) &&
  forallb (fun f => (0 <=? f) && (f <=? max_neighbours self)) (family self).

(** Every node has a family and a positive volume. *)
Definition physical (self : Self) : bool :=
  forallb (fun f => 1 <=? f) (family self) &&
  forallb (fun v => if Qlt_le_dec 0 v then true else false) (volume self).

(** The factor the precise mode stores for the bond to [nlist[i][k]], for
    a bulk family volume [bulk]. *)
Definition precise_factor (self : Self) (nlist : ndarray2 Z) (bulk : Q)
    (i k : nat) : float64 :=
  let fv := spec_family_volume (volume self) nlist (family self) in
  np_div (2 * bulk)
    (fv i + fv (Z.to_nat (nth k (nth i (nd_rows nlist) []) 0))).

(** ** Force-loaded nodes *)

Definition ret_list (r : bndret) : list (option Q) :=
  match r with
  | RetList l => l
  | RetOther => []
  end.

Definition is_some {A} (o : option A) : bool :=
  match o with
  | Some _ => true
  | None => false
  end.

(** A node is force-loaded when [is_forces_boundary] reports a non-null
    entry for it on some axis. *)
Definition force_loaded (is_forces_boundary : list Q -> bndret)
    (x : list Q) : bool :=
  existsb is_some (ret_list (is_forces_boundary x)).

(** The number of force-loaded nodes. *)
Definition count_force_nodes (is_forces_boundary : list Q -> bndret)
    (coords : list (list Q)) : Z :=
  Z.of_nat (length (filter (force_loaded is_forces_boundary) coords)).

(** A callback answers with a list of three entries at [x]. *)
Definition answers3 (f : list Q -> bndret) (x : list Q) : bool :=
  match f x with
  | RetList l => (length l =? 3)%nat
  | RetOther => false
  end.

(** The three callbacks answer properly at the probe [[0, 0, 0]] and at
    every node, there is one volume and one coordinate row per node, and
    the model has three degrees of freedom. *)
Definition boundary_input_ok (self : Self)
    (is_displacement_boundary is_forces_boundary is_tip : list Q -> bndret)
  : bool :=
  (Z.of_nat (length (coords self)) =? nnodes self) &&
  (Z.of_nat (length (volume self)) =? nnodes self) &&
  (degrees_freedom self =? 3) &&
  forallb (fun x => answers3 is_displacement_boundary x &&
                    answers3 is_forces_boundary x &&
                    answers3 is_tip x)
          ([0; 0; 0]%Q :: coords self).

(** The entry stored for an axis before the division by the number of
    force-loaded nodes. *)
Definition force_value (vol : Q) (o : option Q) : float64 :=
  match o with
  | Some v => np_div v vol
  | None => Fin 0
  end.

Definition raw_force (self : Self) (is_forces_boundary : list Q -> bndret)
    (i j : nat) : float64 :=
  force_value (nth i (volume self) 0%Q)
    (nth j (ret_list (is_forces_boundary (nth i (coords self) []))) None).

(** ** Invariants of the boundary loops *)

Definition arrays_shape (ba : boundary_arrays) (n : nat) : Prop :=
  has_shape (bc_types ba) n 3 /\ has_shape (bc_values ba) n 3 /\
  has_shape (force_bc_types ba) n 3 /\
  has_shape (force_bc_values ba) n 3 /\ has_shape (tip_types ba) n 3.

(** After the axes below [j] of node [k], the nodes below [k] being
    done. *)
Definition axis_inv (self : Self) (ff : list Q -> bndret) (k j : nat)
    (st : boundary_arrays * Z) : Prop :=
  let n := Z.to_nat (nnodes self) in
  arrays_shape (fst st) n /\
  snd st =
    (if existsb is_some
          (firstn j (ret_list (ff (nth k (coords self) []))))
     then 1 else 0) /\
  forall i j', (i < n)%nat -> (j' < 3)%nat ->
    entry (force_bc_values (fst st)) i j' =
    Some (if (i <? k)%nat then raw_force self ff i j'
          else if ((i =? k) && (j' <? j))%nat then raw_force self ff i j'
               else Fin 0).

(** After the nodes below [k]. *)
Definition node_inv (self : Self) (ff : list Q -> bndret) (k : nat)
    (st : boundary_arrays * Z) : Prop :=
  let n := Z.to_nat (nnodes self) in
  arrays_shape (fst st) n /\
  snd st = count_force_nodes ff (firstn k (coords self)) /\
  forall i j, (i < n)%nat -> (j < 3)%nat ->
    entry (force_bc_values (fst st)) i j =
    Some (if (i <? k)%nat then raw_force self ff i j else Fin 0).

(** ** Checks on a mesh *)

(** A cell names [element_nodes] different nodes of the mesh. *)
Definition cell_ok (nnodes : Z) (element_nodes : nat) (nodes : list Z)
  : bool :=
  (length nodes =? element_nodes)%nat &&
  nodupb nodes &&
  forallb (fun n => (0 <=? n) && (n <? nnodes)) nodes.

(** One point of three components per node, and cells of three nodes in
    two dimensions, of four in three. *)
Definition mesh_ok (nnodes dimensions : Z) (coords : list (list Q))
    (cells : list (list Z)) : bool :=
  (Z.of_nat (length coords) =? nnodes) &&
  forallb (fun x => (length x =? 3)%nat) coords &&
  forallb (cell_ok nnodes (Z.to_nat dimensions + 1)) cells.

(** Coordinate [l] of corner [k] of a cell. *)
Definition corner (coords : list (list Q)) (nodes : list Z) (k l : nat)
  : Q :=
  nth l (nth (Z.to_nat (nth k nodes 0)) coords []) 0%Q.

(** The volume of a cell as the mesh geometry gives it: for a triangle
    half the norm of the cross product of the edges from its first
    corner; for a tetrahedron a sixth of the absolute value of the triple
    product of the edges to its last corner. *)
Definition element_volume (ext : Externals) (dimensions : Z)
    (coords : list (list Q)) (nodes : list Z) : Q :=
  let c := corner coords nodes in
  if dimensions =? 2 then
    let i0 := (c 1%nat 0%nat - c 0%nat 0%nat)%Q in
    let i1 := (c 1%nat 1%nat - c 0%nat 1%nat)%Q in
    let i2 := (c 1%nat 2%nat - c 0%nat 2%nat)%Q in
    let j0 := (c 2%nat 0%nat - c 0%nat 0%nat)%Q in
    let j1 := (c 2%nat 1%nat - c 0%nat 1%nat)%Q in
    let j2 := (c 2%nat 2%nat - c 0%nat 2%nat)%Q in
    ((1 # 2) *
     np_linalg_norm ext
       [i1 * j2 - i2 * j1; i2 * j0 - i0 * j2; i0 * j1 - i1 * j0])%Q
  else
    let i0 := (c 0%nat 0%nat - c 3%nat 0%nat)%Q in
    let i1 := (c 0%nat 1%nat - c 3%nat 1%nat)%Q in
    let i2 := (c 0%nat 2%nat - c 3%nat 2%nat)%Q in
    let j0 := (c 1%nat 0%nat - c 3%nat 0%nat)%Q in
    let j1 := (c 1%nat 1%nat - c 3%nat 1%nat)%Q in
    let j2 := (c 1%nat 2%nat - c 3%nat 2%nat)%Q in
    let k0 := (c 2%nat 0%nat - c 3%nat 0%nat)%Q in
    let k1 := (c 2%nat 1%nat - c 3%nat 1%nat)%Q in
    let k2 := (c 2%nat 2%nat - c 3%nat 2%nat)%Q in
    (Qabs (0 + i0 * (j1 * k2 - j2 * k1) + i1 * (j2 * k0 - j0 * k2) +
           i2 * (j0 * k1 - j1 * k0)) / 6)%Q.

(** What node [n] has received once the cells are done, starting from
    [v]: its share of every cell it is a corner of, added in the order of
    the cells. *)
Definition nodal_volume_from (ext : Externals) (dimensions : Z)
    (coords : list (list Q)) (cells : list (list Z)) (n : nat) (v : Q) : Q :=
  fold_left
    (fun v nodes =>
       if existsb (Z.eqb (Z.of_nat n)) nodes
       then (v + element_volume ext dimensions coords nodes /
                 inject_Z (dimensions + 1))%Q
       else v)
    cells v.

(** The volumes of the cells, added up in their order, starting from
    [s]. *)
Definition total_volume_from (ext : Externals) (dimensions : Z)
    (coords : list (list Q)) (cells : list (list Z)) (s : Q) : Q :=
  fold_left
    (fun s nodes => (s + element_volume ext dimensions coords nodes)%Q)
    cells s.

(** ** Material types of the bonds *)

(** [bond_type] answers with numbers that a C int can hold. *)
Definition fits_intc (bond_type : list Q -> list Q -> Z) : Prop :=
  forall x y, - 2 ^ 31 <= bond_type x y < 2 ^ 31.

(** What slot [k] of node [i] holds after the setup: the type of the bond
    to [nlist[i][k]] in a valid slot, the initial 0 elsewhere. *)
Definition material_type_entry (self : Self) (conn : connectivity_t)
    (bond_type : list Q -> list Q -> Z) (i k : nat) : Z :=
  if (k <? Z.to_nat (nth i (snd conn) 0%Z))%nat
  then bond_type
         (nth i (coords self) [])
         (nth (Z.to_nat (nth k (nth i (nd_rows (fst conn)) []) 0))
              (coords self) [])
  else 0.

(** ** Boundary callbacks and the arrays filled from them *)

(** A callback passes the three checks: it is callable and answers the
    probe [[0, 0, 0]] with a list of three entries. *)
Definition callback_ok (f : callback) : bool :=
  match f with
  | Callable g => answers3 g [0; 0; 0]%Q
  | NotCallable => false
  end.

(** What callback [f] reports for axis [j] of node [i]. *)
Definition bnd_entry (self : Self) (f : list Q -> bndret) (i j : nat)
  : option Q :=
  nth j (ret_list (f (nth i (coords self) []))) None.

Definition type_of_entry (o : option Q) : Z :=
  match o with
  | Some _ => 1
  | None => 0
  end.

Definition value_of_entry (o : option Q) : Q :=
  match o with
  | Some v => v
  | None => 0%Q
  end.

(** The calls [_set_boundary_conditions] makes: two probes of each
    callback, then the three callbacks at every node. *)
Definition boundary_calls (coords : list (list Q)) : list event :=
  [EvIsDisplacementBoundary [0; 0; 0]%Q;
   EvIsDisplacementBoundary [0; 0; 0]%Q;
   EvIsForcesBoundary [0; 0; 0]%Q; EvIsForcesBoundary [0; 0; 0]%Q;
   EvIsTip [0; 0; 0]%Q; EvIsTip [0; 0; 0]%Q] ++
  flat_map (fun x => [EvIsDisplacementBoundary x; EvIsForcesBoundary x;
                      EvIsTip x]) coords.

(** The entries [(i, j)] visited once the axes below [j] of node [k] and
    all the nodes below [k] are done. *)
Definition visited (k j i j' : nat) : bool :=
  ((i <? k) || ((i =? k) && (j' <? j)))%nat.

(** Array [a] holds [v i j] at the entries marked by [d] and its initial
    value [v0] at the others. *)
Definition filled {A} (a : list (list A)) (n : nat)
    (d : nat -> nat -> bool) (v : nat -> nat -> A) (v0 : A) : Prop :=
  forall i j, (i < n)%nat -> (j < 3)%nat ->
    entry a i j = Some (if d i j then v i j else v0).

(** The type and value arrays other than the force values, with the
    entries marked by [d] written. *)
Definition types_filled (self : Self) (fd ff ft : list Q -> bndret)
    (d : nat -> nat -> bool) (ba : boundary_arrays) : Prop :=
  let n := Z.to_nat (nnodes self) in
  arrays_shape ba n /\
  filled (bc_types ba) n d
    (fun i j => type_of_entry (bnd_entry self fd i j)) 0 /\
  filled (bc_values ba) n d
    (fun i j => value_of_entry (bnd_entry self fd i j)) 0%Q /\
  filled (force_bc_types ba) n d
    (fun i j => type_of_entry (bnd_entry self ff i j)) 0 /\
  filled (tip_types ba) n d
    (fun i j => type_of_entry (bnd_entry self ft i j)) 0.

(** ** The initial crack *)

(** The crack predicate evaluated on the coordinates of a pair of
    nodes. *)
Definition cracked (crack_function : list Q -> list Q -> bool)
    (coords : list (list Q)) (p : Z * Z) : bool :=
  crack_function (nth (Z.to_nat (fst p)) coords [])
                 (nth (Z.to_nat (snd p)) coords []).

(** ** The calls of the driver loop *)

(** [write] is [None] or 0: the test [if write:] fails. *)
Definition no_write (w : option Z) : bool :=
  match w with
  | None => true
  | Some w => w =? 0
  end.

(** One integrator call per entry of the magnitude arrays, in order. *)
Definition step_events (displacement_bc_magnitudes force_bc_magnitudes
                        : list Q) : list event :=
  map (fun k => EvIntegratorStep (nth k displacement_bc_magnitudes 0%Q)
                                 (nth k force_bc_magnitudes 0%Q))
      (seq 0 (length displacement_bc_magnitudes)).

(** ** The cell types a model reads from its mesh *)

(** [_mesh_elements_2d] and [_mesh_elements_3d]: the keys of the cells
    and of the boundary cells, for a valid dimension. *)
Definition mesh_elements (dimensions : Z) : option (string * string) :=
  if dimensions =? 2 then Some ("triangle", "line")%string
  else if dimensions =? 3 then Some ("tetra", "triangle")%string
  else None.

(** ** The callbacks of [examples/profiling/example5/example5.py]

    The example drives a reinforced concrete cantilever of length 1.65
    along the first axis, clamped at the low end and loaded at the high
    end. *)

Module Example5.

(** Python's truth value of an integer. *)
Definition truthy (z : Z) : bool := negb (z =? 0).

(** [is_crack] as written, before the decorator is applied. *)
Definition is_crack_function (x y : list Q) : Z :=
  let output := 0 in
  output.

(** [is_crack]: the function made by [@initial_crack_helper]. *)
Definition is_crack : crack_fn :=
  initial_crack_helper (fun x y => truthy (is_crack_function x y)).

Definition is_tip (horizon : Q) (x : list Q) : result Z :=
  let output := 0 in
  x0 <~ getitem x 0 ;;
  if Qlt_le_dec ((1650 # 1000) - (2 # 10) * horizon) x0 then Ok 1
  else Ok output.

(** [bar_centers], [rad_c], [rad_t] and [radii] of [is_rebar]. *)
Definition bar_centers : list (list Q) :=
  [[31 # 1000; 31 # 1000]; [219 # 1000; 31 # 1000];
   [3825 # 100000; 569 # 1000]; [21175 # 100000; 569 # 1000]]%Q.

Definition rad_c : Q := 6 # 1000.
Definition rad_t : Q := 1325 # 100000.

Definition radii : list Q := [rad_c; rad_c; rad_t; rad_t].

(** [np.sum(np.square(cent - p) - (np.square(rad)))]: the square of the
    radius is subtracted from every component before the sum. *)
Definition cost (p cent : list Q) (rad : Q) : result Q :=
  d <~ elt_op Qminus (EVec cent) (EVec p) ;;
  match d with
  | EVec d => Ok (np_sum (map (fun x => x * x - rad * rad)%Q d))
  | EScalar x => Ok (x * x - rad * rad)%Q
  end.

Definition is_rebar (p : list Q) : result bool :=
  let p := skipn 1 p in
  costs <~ for_ (combine bar_centers radii) []
             (fun (cr : list Q * Q) costs =>
                c <~ cost p (fst cr) (snd cr) ;; Ok (costs ++ [c])) ;;
  if existsb (fun c => if Qlt_le_dec 0 c then false else true) costs
  then Ok true
  else Ok false.

Definition bond_type (x y : list Q) : result string :=
  let plain := 0 in
  bool1 <~ is_rebar x ;;
  bool2 <~ is_rebar y ;;
  if plain =? 1 then Ok "concrete"%string
  else if bool1 && bool2 then Ok "steel"%string
  else if negb (Bool.eqb bool1 bool2) then Ok "interface"%string
  else Ok "concrete"%string.

Definition is_boundary (horizon : Q) (x : list Q) : result (list Z) :=
  let bnd := [2; 2; 2] in
  x0 <~ getitem x 0 ;;
  if Qlt_le_dec x0 ((2 # 10) * horizon) then
    bnd <~ setitem bnd 0 0 ;;
    bnd <~ setitem bnd 1 0 ;;
    setitem bnd 2 0
  else Ok bnd.

Definition is_forces_boundary (horizon : Q) (x : list Q)
  : result (list Z) :=
  let bnd := [2; 2; 2] in
  x0 <~ getitem x 0 ;;
  if Qlt_le_dec ((165 # 100) - (2 # 10) * horizon) x0 then
    setitem bnd 2 (-1)
  else Ok bnd.


End Example5.

(** ** A small concrete configuration

    Three nodes at the corners of a right triangle in the plane, one
    triangular cell, an integrator with an OpenCL context that counts its
    steps and hands the arrays back unchanged. *)

Module Fixture.

Definition sq_dist (x y : list Q) : Q :=
  fold_left Qplus (map (fun d => d * d)%Q (vec_sub x y)) 0%Q.

Definition within (horizon : Q) (x y : list Q) : bool :=
  if Qlt_le_dec (horizon * horizon) (sq_dist x y) then false else true.

(** The neighbours of node [i]: every other node within the horizon. *)
Definition neighbours (coords : list (list Q)) (horizon : Q) (i : nat)
  : list Z :=
  match nth_error coords i with
  | None => []
  | Some xi =>
      map Z.of_nat
        (filter (fun j => negb (j =? i)%nat &&
                          within horizon xi (nth j coords []))
                (seq 0 (length coords)))
  end.

(** Modelled from the spec: [set_family] of the compiled neighbour-list
    module, the number of other nodes within the horizon of each node. *)
Definition family_counts (coords : list (list Q)) (horizon : Q) : list Z :=
  map (fun i => Z.of_nat (length (neighbours coords horizon i)))
      (seq 0 (length coords)).

(** Modelled from the spec: [create_neighbour_list_cl] and
    [create_neighbour_list_cython] of the compiled neighbour-list module;
    each row lists the neighbours of a node and is padded to
    [max_neighbours] slots with the node's own index. *)
Definition neighbour_list (coords : list (list Q)) (horizon : Q)
    (max_neighbours : Z) : connectivity_t :=
  let rows :=
    map (fun i =>
           let ns := neighbours coords horizon i in
           firstn (Z.to_nat max_neighbours)
             (ns ++ repeat (Z.of_nat i) (Z.to_nat max_neighbours)))
        (seq 0 (length coords)) in
  ({| nd_cols := max_neighbours; nd_rows := rows |},
   family_counts coords horizon).

Definition remove_from (j : Z) (i : nat) (row : list Z) : list Z :=
  let kept := filter (fun n => negb (n =? j)) row in
  kept ++ repeat (Z.of_nat i) (length row - length kept).

(** Modelled from the spec: [create_crack_cl] and [create_crack_cython]
    of the compiled neighbour-list module; every listed pair is removed
    from both rows, which are compacted and padded again. *)
Definition apply_crack (pairs : list (Z * Z)) (conn : connectivity_t)
  : connectivity_t :=
  fold_left
    (fun (c : connectivity_t) (p : Z * Z) =>
       let (nlist, n_neigh) := c in
       let (a, b) := p in
       let fix_row (i : nat) (row : list Z) :=
         if Z.of_nat i =? a then remove_from b i row
         else if Z.of_nat i =? b then remove_from a i row
         else row in
       let rows :=
         map (fun ir : nat * list Z => fix_row (fst ir) (snd ir))
             (combine (seq 0 (length (nd_rows nlist))) (nd_rows nlist)) in
       let count (i : nat) (n : Z) :=
         if (Z.of_nat i =? a) || (Z.of_nat i =? b) then n - 1 else n in
       ({| nd_cols := nd_cols nlist; nd_rows := rows |},
        map (fun ic : nat * Z => count (fst ic) (snd ic))
            (combine (seq 0 (length n_neigh)) n_neigh)))
    pairs conn.

(** A stand-in for [numpy.linalg.norm] that is exact on vectors along a
    coordinate axis, the only ones it meets here. *)
Definition axis_norm (v : list Q) : Q :=
  fold_left Qplus (map Qabs v) 0%Q.

Definition ext : Externals :=
  {| np_linalg_norm := axis_norm;
     set_family := family_counts;
     create_neighbour_list_cython := neighbour_list;
     create_neighbour_list_cl := neighbour_list;
     create_crack_cython := apply_crack;
     create_crack_cl := apply_crack;
     uninitialised := 0%Q |}.

Definition counting (ctx : option unit) : Integrator :=
  {| istate := nat;
     context := ctx;
     istate0 := O;
     build := fun s _ => s;
     set_buffers := fun s _ => s;
     call := fun s _ _ => S s;
     write := fun _ arrays => arrays |}.

Definition triangle_mesh : Mesh :=
  {| points := [[0; 0; 0]; [1; 0; 0]; [0; 1; 0]]%Q;
     cells_dict := fun key =>
       if String.eqb key "triangle" then Some [[0; 1; 2]]
       else if String.eqb key "line" then Some [[0; 1]; [1; 2]; [2; 0]]
       else None |}.

(** The keyword arguments that vary between the configurations below;
    the others keep their defaults. *)
Record Options : Type := {
  o_mesh : Mesh;
  o_context : option unit;
  o_bond_stiffness : pyvalue;
  o_critical_stretch : pyvalue;
  o_connectivity : connectivity_arg;
  o_initial_crack : crack_arg;
  o_is_forces_boundary : option callback;
  o_is_tip : option callback;
  o_stiffness_corrections : arg (ndarray2 float64);
  o_precise_stiffness_correction : option Z
}.

(** [Model(mesh_file, integrator, horizon=1.5, ...)]. *)
Definition configure (o : Options) : InitArgs :=
  {| a_mesh := o_mesh o;
     a_integrator := AnIntegrator (counting (o_context o));
     a_horizon := 3 # 2;
     a_critical_stretch := o_critical_stretch o;
     a_bond_stiffness := o_bond_stiffness o;
     a_transfinite := 0;
     a_volume_total := None;
     a_write_path := None;
     a_connectivity := o_connectivity o;
     a_family := ArgNone;
     a_volume := ArgNone;
     a_initial_crack := o_initial_crack o;
     a_dimensions := 2;
     a_bond_type := None;
     a_is_displacement_boundary := None;
     a_is_forces_boundary := o_is_forces_boundary o;
     a_is_tip := o_is_tip o;
     a_material_types := ArgNone;
     a_stiffness_corrections := o_stiffness_corrections o;
     a_precise_stiffness_correction := o_precise_stiffness_correction o |}.

(** [critical_stretch=0.005, bond_stiffness=100.0], an OpenCL context and
    nothing else supplied. *)
Definition plain : Options :=
  {| o_mesh := triangle_mesh;
     o_context := Some tt;
     o_bond_stiffness := PyFloat 100;
     o_critical_stretch := PyFloat (5 # 1000);
     o_connectivity := ConnNone;
     o_initial_crack := CrackList [];
     o_is_forces_boundary := None;
     o_is_tip := None;
     o_stiffness_corrections := ArgNone;
     o_precise_stiffness_correction := None |}.

Definition args : InitArgs := configure plain.

(** [precise_stiffness_correction=p]. *)
Definition args_precise (p : Z) : InitArgs :=
  configure
    {| o_mesh := triangle_mesh;
       o_context := Some tt;
       o_bond_stiffness := PyFloat 100;
       o_critical_stretch := PyFloat (5 # 1000);
       o_connectivity := ConnNone;
       o_initial_crack := CrackList [];
       o_is_forces_boundary := None;
       o_is_tip := None;
       o_stiffness_corrections := ArgNone;
       o_precise_stiffness_correction := Some p |}.

(** [bond_stiffness=[[2.0, 1.0]], critical_stretch=[[1.0, 2.0]]]: two
    regimes. *)
Definition args_two_regimes : InitArgs :=
  configure
    {| o_mesh := triangle_mesh;
       o_context := Some tt;
       o_bond_stiffness := PyList [1; 2] (NMat [[2; 1]]%Q);
       o_critical_stretch := PyList [1; 2] (NMat [[1; 2]]%Q);
       o_connectivity := ConnNone;
       o_initial_crack := CrackList [];
       o_is_forces_boundary := None;
       o_is_tip := None;
       o_stiffness_corrections := ArgNone;
       o_precise_stiffness_correction := None |}.



(** [connectivity=(nlist, n_neigh)] with an [nlist] of shape (3, 0),
    together with [stiffness_corrections] of the same shape. *)
Definition args_width_zero : InitArgs :=
  configure
    {| o_mesh := triangle_mesh;
       o_context := Some tt;
       o_bond_stiffness := PyFloat 100;
       o_critical_stretch := PyFloat (5 # 1000);
       o_connectivity :=
         ConnTuple2 {| nd_cols := 0; nd_rows := [[]; []; []] |} [0; 0; 0];
       o_initial_crack := CrackList [];
       o_is_forces_boundary := None;
       o_is_tip := None;
       o_stiffness_corrections :=
         ArgNdarray {| nd_cols := 0; nd_rows := [[]; []; []] |};
       o_precise_stiffness_correction := None |}.

(** [simulate(steps=2, write=1)]. *)
Definition run : SimArgs :=
  {| s_steps := 2;
     s_u := None;
     s_ud := None;
     s_connectivity := ConnNone;
     s_regimes := ArgNone;
     s_critical_stretch := None;
     s_bond_stiffness := None;
     s_displacement_bc_magnitudes := ArgNone;
     s_force_bc_magnitudes := ArgNone;
     s_first_step := 1;
     s_write := Some 1;
     s_write_path := None |}.

(** A model object with no nodes, for the cases below that cannot occur. *)
Definition empty_model : Model :=
  {| attrs :=
       {| dimensions := 2; coords := []; nnodes := 0;
          mesh_connectivity := []; horizon := 0; volume := [];
          volume_total := None; family := []; max_neighbours := 0;
          degrees_freedom := 3; write_path := None |};
     integrator := counting (Some tt);
     integrator_state := O;
     nregimes := 1;
     nmaterials := 1;
     bond_stiffness := NScalar 0;
     critical_stretch := NScalar 0;
     sum_total_volume := None;
     initial_connectivity := ({| nd_cols := 0; nd_rows := [] |}, []);
     stiffness_corrections := [];
     material_types := [];
     model_tip_types := [] |}.

(** The object the constructor returns. *)
Definition built (a : InitArgs) : Model :=
  match outcome (Model_init ext a) with
  | Ok m => m
  | Raise _ => empty_model
  end.

Definition triangle_model : Model := built args.

(** A force boundary: the nodes off the origin are pulled along the first
    axis. *)
Definition pulled (x : list Q) : bndret :=
  match x with
  | [x0; x1; _] =>
      if Qlt_le_dec (1 # 2) (x0 + x1) then RetList [Some 1%Q; None; None]
      else RetList [None; None; None]
  | _ => RetList [None; None; None]
  end.

Definition nowhere (_ : list Q) : bndret := RetList [None; None; None].

(** A bond type that tells the bonds leaving the plane [x = 0] from the
    others. *)
Definition two_materials (x _ : list Q) : Z :=
  match x with
  | [x0; _; _] => if Qeq_bool x0 0 then 1 else 2
  | _ => 0
  end.
(** A callback that answers with two entries instead of three. *)
Definition two_axes (_ : list Q) : bndret := RetList [None; None].

(** A crack predicate: the bond crosses the line [x + y = 1/2] from or to
    the origin. *)
Definition leaves_origin (x y : list Q) : bool :=
  match x, y with
  | [x0; x1; _], [y0; y1; _] =>
      Qeq_bool (x0 + x1) 0 || Qeq_bool (y0 + y1) 0
  | _, _ => false
  end.
(** [simulate(steps=2, displacement_bc_magnitudes=..., first_step=...,
    write=...)]. *)
Definition run_with (magnitudes : arg (list Q)) (first_step : Z)
    (write : option Z) : SimArgs :=
  {| s_steps := 2;
     s_u := None;
     s_ud := None;
     s_connectivity := ConnNone;
     s_regimes := ArgNone;
     s_critical_stretch := None;
     s_bond_stiffness := None;
     s_displacement_bc_magnitudes := magnitudes;
     s_force_bc_magnitudes := ArgNone;
     s_first_step := first_step;
     s_write := write;
     s_write_path := None |}.

(** A mesh file without boundary cells. *)
Definition open_mesh : Mesh :=
  {| points := points triangle_mesh;
     cells_dict := fun key =>
       if String.eqb key "triangle" then Some [[0; 1; 2]] else None |}.

(** [Model(mesh_file, integrator, dimensions=..., transfinite=...)], no
    [volume_total]. *)
Definition args_with (mesh : Mesh) (integ : integrator_arg)
    (dims transfinite : Z) : InitArgs :=
  {| a_mesh := mesh;
     a_integrator := integ;
     a_horizon := 3 # 2;
     a_critical_stretch := PyFloat (5 # 1000);
     a_bond_stiffness := PyFloat 100;
     a_transfinite := transfinite;
     a_volume_total := None;
     a_write_path := None;
     a_connectivity := ConnNone;
     a_family := ArgNone;
     a_volume := ArgNone;
     a_initial_crack := CrackList [];
     a_dimensions := dims;
     a_bond_type := None;
     a_is_displacement_boundary := None;
     a_is_forces_boundary := None;
     a_is_tip := None;
     a_material_types := ArgNone;
     a_stiffness_corrections := ArgNone;
     a_precise_stiffness_correction := None |}.

(** [Model(mesh_file, integrator, bond_type=two_materials,
    initial_crack=initial_crack_helper(leaves_origin))]. *)
Definition args_callbacks : InitArgs :=
  {| a_mesh := triangle_mesh;
     a_integrator := AnIntegrator (counting (Some tt));
     a_horizon := 3 # 2;
     a_critical_stretch := PyFloat (5 # 1000);
     a_bond_stiffness := PyFloat 100;
     a_transfinite := 0;
     a_volume_total := None;
     a_write_path := None;
     a_connectivity := ConnNone;
     a_family := ArgNone;
     a_volume := ArgNone;
     a_initial_crack := CrackCallable (initial_crack_helper leaves_origin);
     a_dimensions := 2;
     a_bond_type := Some two_materials;
     a_is_displacement_boundary := None;
     a_is_forces_boundary := None;
     a_is_tip := None;
     a_material_types := ArgNone;
     a_stiffness_corrections := ArgNone;
     a_precise_stiffness_correction := None |}.

(** The constructor followed by [simulate]. *)
Definition build_and_run (a : InitArgs) (s : SimArgs)
  : list event * result (list Q * list pyscalar * list pyscalar *
                         list pyscalar) :=
  match Model_init ext a with
  | (t, Ok m) =>
      match simulate ext m s with
      | (t', Ok st) =>
          (t ++ t',
           Ok (damage_sum_data st, tip_displacement_data st,
               tip_velocity_data st, tip_force_data st))
      | (t', Raise e) => (t ++ t', Raise e)
      end
  | (t, Raise e) => (t, Raise e)
  end.

End Fixture.

(** * Properties *)

(** ** The trace monad *)

Section MonadFacts.

Context {A B : Type}.

Lemma trace_bind (m : M A) (k : A -> M B) :
  trace (bind m k) =
  trace m ++ match outcome m with
             | Ok a => trace (k a)
             | Raise _ => []
             end.
Proof.
  destruct m as [t [a | e]]; simpl.
  - destruct (k a); reflexivity.
  - now rewrite app_nil_r.
Qed.

Lemma outcome_bind (m : M A) (k : A -> M B) :
  outcome (bind m k) =
  match outcome m with
  | Ok a => outcome (k a)
  | Raise e => Raise e
  end.
Proof.
  destruct m as [t [a | e]]; simpl; [destruct (k a) |]; reflexivity.
Qed.

Lemma bind_ok (m : M A) (k : A -> M B) t a :
  m = (t, Ok a) -> bind m k = (t ++ trace (k a), outcome (k a)).
Proof. intros ->. simpl. now destruct (k a). Qed.

Lemma bind_raise (m : M A) (k : A -> M B) t e :
  m = (t, Raise e) -> bind m k = (t, Raise e).
Proof. now intros ->. Qed.

Lemma bind_lift_ok (r : result A) (k : A -> M B) a :
  r = Ok a -> bind (lift r) k = k a.
Proof. intros ->. unfold lift; simpl. now destruct (k a). Qed.

Lemma Forall_trace_bind (P : event -> Prop) (m : M A) (k : A -> M B) :
  Forall P (trace m) ->
  (forall a, outcome m = Ok a -> Forall P (trace (k a))) ->
  Forall P (trace (bind m k)).
Proof.
  intros Hm Hk. rewrite trace_bind. apply Forall_app; split; trivial.
  destruct (outcome m); auto.
Qed.

End MonadFacts.

Lemma M_eta {A} (m : M A) : m = (trace m, outcome m).
Proof. now destruct m. Qed.

Lemma Forall_trace_forM {X S} (P : event -> Prop) (body : X -> S -> M S) :
  (forall x s, Forall P (trace (body x s))) ->
  forall l s, Forall P (trace (forM l s body)).
Proof.
  intros Hb l; induction l as [| x l IH]; intros s; simpl.
  - constructor.
  - apply Forall_trace_bind; auto.
Qed.

(** ** Indexing with natural numbers *)

Section Indexing.

Context {A : Type}.
Implicit Types (l : list A) (k : nat).

Lemma getitem_of_nat l k x :
  nth_error l k = Some x -> getitem l (Z.of_nat k) = Ok x.
Proof.
  intros H. pose proof (nth_error_Some l k) as Hk.
  assert (k < length l)%nat by (apply Hk; congruence).
  unfold getitem.
  replace (Z.of_nat k <? 0) with false by (symmetry; apply Z.ltb_ge; lia).
  replace (0 <=? Z.of_nat k) with true by (symmetry; apply Z.leb_le; lia).
  replace (Z.of_nat k <? Z.of_nat (length l)) with true
    by (symmetry; apply Z.ltb_lt; lia).
  simpl. now rewrite Nat2Z.id, H.
Qed.

Lemma getitem_of_nat_inv l k x :
  getitem l (Z.of_nat k) = Ok x -> nth_error l k = Some x.
Proof.
  unfold getitem.
  replace (Z.of_nat k <? 0) with false by (symmetry; apply Z.ltb_ge; lia).
  destruct ((0 <=? Z.of_nat k) && (Z.of_nat k <? Z.of_nat (length l)));
    [| discriminate].
  rewrite Nat2Z.id. destruct (nth_error l k); congruence.
Qed.

Lemma getitem_out_of_range l k :
  (length l <= k)%nat -> getitem l (Z.of_nat k) = Raise IndexError.
Proof.
  intros H. unfold getitem.
  replace (Z.of_nat k <? 0) with false by (symmetry; apply Z.ltb_ge; lia).
  replace (Z.of_nat k <? Z.of_nat (length l)) with false
    by (symmetry; apply Z.ltb_ge; lia).
  now rewrite andb_false_r.
Qed.

Lemma length_set_nth l k v : length (set_nth l k v) = length l.
Proof.
  revert k; induction l as [| h t IH]; intros [| k]; simpl; auto.
Qed.

Lemma nth_error_set_nth_eq l k v :
  (k < length l)%nat -> nth_error (set_nth l k v) k = Some v.
Proof.
  revert k; induction l as [| h t IH]; intros [| k]; simpl; intros H;
    try lia; auto. apply IH; lia.
Qed.

Lemma nth_error_set_nth_ne l k k' v :
  k <> k' -> nth_error (set_nth l k v) k' = nth_error l k'.
Proof.
  revert k k'; induction l as [| h t IH]; intros [| k] [| k'] H;
    simpl; auto; try congruence.
Qed.

Lemma setitem_of_nat l k v :
  (k < length l)%nat -> setitem l (Z.of_nat k) v = Ok (set_nth l k v).
Proof.
  intros H. unfold setitem.
  replace (Z.of_nat k <? 0) with false by (symmetry; apply Z.ltb_ge; lia).
  replace (0 <=? Z.of_nat k) with true by (symmetry; apply Z.leb_le; lia).
  replace (Z.of_nat k <? Z.of_nat (length l)) with true
    by (symmetry; apply Z.ltb_lt; lia).
  simpl. now rewrite Nat2Z.id.
Qed.

Lemma slice_to_of_nat l k : slice_to l (Z.of_nat k) = firstn k l.
Proof.
  unfold slice_to.
  replace (Z.of_nat k <? 0) with false by (symmetry; apply Z.ltb_ge; lia).
  now rewrite Nat2Z.id.
Qed.

End Indexing.

Lemma range_of_nat n : range (Z.of_nat n) = map Z.of_nat (seq 0 n).
Proof. unfold range. now rewrite Nat2Z.id. Qed.

Lemma range_nonpos n : n <= 0 -> range n = [].
Proof.
  intros H. unfold range. now replace (Z.to_nat n) with O by lia.
Qed.

Lemma range_pos n : 0 < n -> range n = 0 :: map Z.succ (range (n - 1)).
Proof.
  intros H. unfold range.
  replace (Z.to_nat n) with (S (Z.to_nat (n - 1))) by lia.
  simpl. f_equal. rewrite <- seq_shift, !map_map.
  apply map_ext. intros; lia.
Qed.

(** ** Facts about entries of two-dimensional arrays *)

Section Entries.

Context {A : Type}.
Implicit Types (a : list (list A)).

Lemma has_shape_full (n m : nat) (v : A) :
  has_shape (repeat (repeat v m) n) n m.
Proof.
  split; [apply repeat_length |].
  apply Forall_forall. intros r Hr. apply repeat_spec in Hr. subst.
  apply repeat_length.
Qed.

Lemma np_full2_nonneg (n m : Z) (v : A) :
  0 <= n -> 0 <= m ->
  np_full2 n m v = Ok (repeat (repeat v (Z.to_nat m)) (Z.to_nat n)).
Proof.
  intros Hn Hm. unfold np_full2.
  replace (n <? 0) with false by (symmetry; apply Z.ltb_ge; lia).
  replace (m <? 0) with false by (symmetry; apply Z.ltb_ge; lia).
  reflexivity.
Qed.

Lemma np_full2_of_nat (n m : nat) (v : A) :
  np_full2 (Z.of_nat n) (Z.of_nat m) v = Ok (repeat (repeat v m) n).
Proof.
  unfold np_full2.
  replace (Z.of_nat n <? 0) with false by (symmetry; apply Z.ltb_ge; lia).
  replace (Z.of_nat m <? 0) with false by (symmetry; apply Z.ltb_ge; lia).
  simpl. now rewrite !Nat2Z.id.
Qed.

Lemma entry_full (n m : nat) (v : A) i j :
  (i < n)%nat -> (j < m)%nat -> entry (repeat (repeat v m) n) i j = Some v.
Proof.
  intros Hi Hj. unfold entry.
  rewrite nth_error_repeat by trivial. now apply nth_error_repeat.
Qed.

Lemma has_shape_row a n m i :
  has_shape a n m -> (i < n)%nat ->
  exists row, nth_error a i = Some row /\ length row = m.
Proof.
  intros [Hn Hm] Hi.
  destruct (nth_error a i) as [row |] eqn:E.
  - exists row; split; trivial.
    rewrite Forall_forall in Hm. apply Hm. eapply nth_error_In; eauto.
  - apply nth_error_None in E. lia.
Qed.

Lemma getitem2_of_nat a i j x :
  entry a i j = Some x -> getitem2 a (Z.of_nat i) (Z.of_nat j) = Ok x.
Proof.
  unfold entry, getitem2. destruct (nth_error a i) as [row |] eqn:E;
    [| discriminate].
  intros H. rewrite (getitem_of_nat _ _ E). simpl.
  now apply getitem_of_nat.
Qed.

(** Storing into an array of the right shape succeeds, keeps the shape
    and changes the one entry. *)
Lemma setitem2_of_nat a n m i j v :
  has_shape a n m -> (i < n)%nat -> (j < m)%nat ->
  exists a',
    setitem2 a (Z.of_nat i) (Z.of_nat j) v = Ok a' /\
    has_shape a' n m /\
    entry a' i j = Some v /\
    (forall i' j', (i', j') <> (i, j) -> entry a' i' j' = entry a i' j').
Proof.
  intros Hs Hi Hj.
  destruct (has_shape_row Hs Hi) as (row & Hrow & Hlen).
  exists (set_nth a i (set_nth row j v)).
  destruct Hs as [Hn Hm].
  unfold setitem2. rewrite (getitem_of_nat _ _ Hrow). simpl.
  rewrite setitem_of_nat by lia. simpl.
  rewrite setitem_of_nat by lia.
  split; [reflexivity |]. split; [| split].
  - split; [now rewrite length_set_nth |].
    apply Forall_forall. intros r Hr.
    apply In_nth_error in Hr as [k Hk].
    destruct (Nat.eq_dec i k) as [-> | Hne].
    + rewrite nth_error_set_nth_eq in Hk by lia.
      inversion Hk; subst. now rewrite length_set_nth.
    + rewrite nth_error_set_nth_ne in Hk by trivial.
      rewrite Forall_forall in Hm. apply Hm. eapply nth_error_In; eauto.
  - unfold entry. rewrite nth_error_set_nth_eq by lia.
    apply nth_error_set_nth_eq. lia.
  - intros i' j' Hne. unfold entry.
    destruct (Nat.eq_dec i i') as [<- | Hi'].
    + rewrite nth_error_set_nth_eq by lia. rewrite Hrow.
      apply nth_error_set_nth_ne. congruence.
    + now rewrite nth_error_set_nth_ne.
Qed.

End Entries.

(** ** Loops over [range] *)

Section Loops.

Context {S : Type}.

Lemma for_seq_inv (I : nat -> S -> Prop) (body : Z -> S -> result S) :
  forall n a s,
    I a s ->
    (forall k s1, (a <= k < a + n)%nat -> I k s1 ->
       exists s2, body (Z.of_nat k) s1 = Ok s2 /\ I (Datatypes.S k) s2) ->
    exists s', for_ (map Z.of_nat (seq a n)) s body = Ok s' /\
               I (a + n)%nat s'.
Proof.
  induction n as [| n IH]; intros a s H0 Hstep; simpl.
  - exists s. now rewrite Nat.add_0_r.
  - destruct (Hstep a s) as (s2 & E & H2); [lia | trivial |].
    rewrite E; simpl.
    destruct (IH (Datatypes.S a) s2 H2) as (s' & E' & H').
    + intros k s1 Hk. apply Hstep. lia.
    + exists s'. split; trivial.
      now replace (a + Datatypes.S n)%nat with (Datatypes.S a + n)%nat
        by lia.
Qed.

Lemma for_range_inv (I : nat -> S -> Prop) (body : Z -> S -> result S)
    (n : Z) s :
  I O s ->
  (forall k s1, (k < Z.to_nat n)%nat -> I k s1 ->
     exists s2, body (Z.of_nat k) s1 = Ok s2 /\ I (Datatypes.S k) s2) ->
  exists s', for_ (range n) s body = Ok s' /\ I (Z.to_nat n) s'.
Proof.
  intros H0 Hstep. unfold range.
  apply for_seq_inv; trivial.
  intros k s1 Hk. apply Hstep. lia.
Qed.

(** The same for a loop that makes external calls: [T k] is what
    iteration [k] adds to the trace. *)
Lemma forM_seq_inv (I : nat -> S -> Prop) (T : nat -> list event)
    (body : Z -> S -> M S) :
  forall n a s,
    I a s ->
    (forall k s1, (a <= k < a + n)%nat -> I k s1 ->
       exists s2, body (Z.of_nat k) s1 = (T k, Ok s2) /\
                  I (Datatypes.S k) s2) ->
    exists s', forM (map Z.of_nat (seq a n)) s body =
                 (flat_map T (seq a n), Ok s') /\
               I (a + n)%nat s'.
Proof.
  induction n as [| n IH]; intros a s H0 Hstep; simpl.
  - exists s. now rewrite Nat.add_0_r.
  - destruct (Hstep a s) as (s2 & E & H2); [lia | trivial |].
    destruct (IH (Datatypes.S a) s2 H2) as (s' & E' & H').
    + intros k s1 Hk. apply Hstep. lia.
    + exists s'. split.
      * rewrite (bind_ok _ E), E'. reflexivity.
      * now replace (a + Datatypes.S n)%nat with (Datatypes.S a + n)%nat
          by lia.
Qed.

Lemma forM_range_inv (I : nat -> S -> Prop) (T : nat -> list event)
    (body : Z -> S -> M S) (n : Z) s :
  I O s ->
  (forall k s1, (k < Z.to_nat n)%nat -> I k s1 ->
     exists s2, body (Z.of_nat k) s1 = (T k, Ok s2) /\
                I (Datatypes.S k) s2) ->
  exists s', forM (range n) s body =
               (flat_map T (seq 0 (Z.to_nat n)), Ok s') /\
             I (Z.to_nat n) s'.
Proof.
  intros H0 Hstep. unfold range.
  apply forM_seq_inv; trivial.
  intros k s1 Hk. apply Hstep. lia.
Qed.

End Loops.

(** ** The bond-stiffness type test *)

(** [(list or np.ndarray)] is the class [list]. *)
Lemma list_or_ndarray : py_or class_truthy TList TNdarray = TList.
Proof. reflexivity. Qed.

(** C9: a numpy array passed as [bond_stiffness] fails the test
    [type(bond_stiffness) is (list or np.ndarray)], so the scalar branch
    runs: [nregimes] and [nmaterials] are both 1 whatever the shape of the
    array, and the shape comparison with [critical_stretch], hence its
    [ValueError], is never reached. *)
Theorem C9_ndarray_bond_stiffness_takes_scalar_branch :
  forall (shape : list Z) (data : npval) (critical_stretch : pyvalue),
    pytype_eqb (type_of (PyNdarray shape data))
               (py_or class_truthy TList TNdarray) = false /\
    resolve_bond_stiffness (PyNdarray shape data) critical_stretch =
      Ok {| su_nregimes := 1;
            su_nmaterials := 1;
            su_bond_stiffness := data;
            su_critical_stretch := np_float64 critical_stretch |} /\
    resolve_bond_stiffness (PyNdarray shape data) critical_stretch <>
      Raise ValueError.
Proof.
  intros shape data cs. repeat split.
  unfold resolve_bond_stiffness; simpl. discriminate.
Qed.

(** For comparison, a list does reach the shape comparison. *)
Lemma list_bond_stiffness_shape_mismatch :
  resolve_bond_stiffness (PyList [1; 2] (NMat [[2; 1]]%Q))
                         (PyList [1; 3] (NMat [[1; 2; 3]]%Q)) =
  Raise ValueError.
Proof. reflexivity. Qed.

(** ** The intercepts *)

Lemma set_plus_cs_one_regime bond_stiffness critical_stretch nmaterials :
  _set_plus_cs bond_stiffness critical_stretch 1 nmaterials =
  Ok [EScalar 0].
Proof. reflexivity. Qed.

(** An iteration of the loop never completes. *)
Lemma plus_cs_iteration_raises bond_stiffness critical_stretch i st :
  exists e,
    plus_cs_iteration bond_stiffness critical_stretch i st = Raise e.
Proof.
  unfold plus_cs_iteration. destruct st as [plus_cs c_prev].
  repeat match goal with
         | |- context [rbind ?r _] =>
             destruct r; cbn [rbind]; eauto
         end.
Qed.

(** With two or more regimes the first iteration of the loop ends in an
    exception, whatever the arrays hold. *)
Lemma set_plus_cs_many_regimes_raises
    bond_stiffness critical_stretch nregimes nmaterials :
  2 <= nregimes ->
  exists e,
    _set_plus_cs bond_stiffness critical_stretch nregimes nmaterials =
    Raise e.
Proof.
  intros H. unfold _set_plus_cs.
  replace (nregimes =? 1) with false by (symmetry; apply Z.eqb_neq; lia).
  rewrite range_pos by lia. cbn [negb for_].
  destruct (plus_cs_iteration_raises bond_stiffness critical_stretch 0
              ([EScalar 0], EScalar 0)) as [e ->].
  exists e. reflexivity.
Qed.

Lemma set_plus_cs_no_regime
    bond_stiffness critical_stretch nregimes nmaterials :
  nregimes <= 0 ->
  _set_plus_cs bond_stiffness critical_stretch nregimes nmaterials =
  Raise AssertionError.
Proof.
  intros H. unfold _set_plus_cs.
  replace (nregimes =? 1) with false by (symmetry; apply Z.eqb_neq; lia).
  rewrite range_nonpos by lia. cbn.
  destruct nregimes; try lia; reflexivity.
Qed.

(** C2: [_set_plus_cs] does not return the [nregimes] intercepts as soon
    as there are two regimes.  For [bond_stiffness=[[2.0, 1.0]]] and
    [critical_stretch=[[1.0, 2.0]]] the call raises [TypeError] at
    [plus_cs.append[c_i]], both when called directly and when reached
    through the constructor and [simulate]; the continuity constraint asks
    for two intercepts, the first of them 0. *)
Theorem C2_set_plus_cs_raises_with_two_regimes :
  _set_plus_cs (NMat [[2; 1]]%Q) (NMat [[1; 2]]%Q) 2 1 = Raise TypeError /\
  snd (Fixture.build_and_run Fixture.args_two_regimes Fixture.run) =
    Raise TypeError /\
  length (spec_plus_cs [2; 1]%Q [1; 2]%Q) = 2%nat /\
  nth_error (spec_plus_cs [2; 1]%Q [1; 2]%Q) 0 = Some 0%Q.
Proof. repeat split; vm_compute; reflexivity. Qed.

(** ** Widths and powers of two *)

Lemma bit_length_pos z : 0 < z -> bit_length z = Z.log2 z + 1.
Proof.
  intros H. unfold bit_length.
  replace (z =? 0) with false by (symmetry; apply Z.eqb_neq; lia).
  now rewrite Z.abs_eq by lia.
Qed.

(** [1 << (m - 1).bit_length()] is the least power of two that is at
    least [m]. *)
Lemma next_power_of_two m :
  1 <= m ->
  let p := Z.shiftl 1 (bit_length (m - 1)) in
  is_power_of_two p /\ m <= p /\
  (forall q, is_power_of_two q -> m <= q -> p <= q).
Proof.
  intros Hm p. subst p.
  destruct (Z.eq_dec m 1) as [-> | Hne].
  - cbn. repeat split.
    + exists 0. split; [lia | reflexivity].
    + lia.
    + intros q (k & Hk & ->) _. pose proof (Z.pow_pos_nonneg 2 k). lia.
  - rewrite bit_length_pos by lia.
    pose proof (Z.log2_nonneg (m - 1)) as Hl.
    rewrite Z.shiftl_1_l.
    destruct (Z.log2_spec (m - 1)) as [Hlo Hhi]; [lia |].
    replace (Z.succ (Z.log2 (m - 1))) with (Z.log2 (m - 1) + 1) in Hhi
      by lia.
    repeat split.
    + exists (Z.log2 (m - 1) + 1). split; [lia | reflexivity].
    + lia.
    + intros q (k & Hk & ->) Hq.
      apply Z.pow_le_mono_r; [lia |].
      destruct (Z_lt_le_dec k (Z.log2 (m - 1) + 1)) as [Hlt | ]; [| lia].
      exfalso.
      assert (2 ^ k <= 2 ^ Z.log2 (m - 1))
        by (apply Z.pow_le_mono_r; lia).
      lia.
Qed.

(** The test [max_neighbours & (max_neighbours - 1)] on a positive width:
    it is zero exactly for the powers of two. *)
Lemma land_pred_zero_iff w :
  0 < w -> (Z.land w (w - 1) = 0 <-> is_power_of_two w).
Proof.
  intros Hw. split.
  - intros Hland. exists (Z.log2 w).
    pose proof (Z.log2_nonneg w) as Hk. split; trivial.
    destruct (Z.log2_spec w Hw) as [Hlo Hhi].
    destruct (Z.eq_dec w (2 ^ Z.log2 w)) as [| Hne]; trivial.
    exfalso.
    assert (Hb : Z.testbit (Z.land w (w - 1)) (Z.log2 w) = true).
    { rewrite Z.land_spec, Z.bit_log2 by lia.
      replace (Z.log2 w) with (Z.log2 (w - 1)).
      - rewrite Z.bit_log2 by lia. reflexivity.
      - apply Z.log2_unique; lia. }
    rewrite Hland, Z.bits_0 in Hb. discriminate.
  - intros (k & Hk & ->).
    apply Z.bits_inj'. intros n Hn.
    rewrite Z.land_spec, Z.bits_0.
    replace (2 ^ k - 1) with (Z.ones k); cycle 1.
    { rewrite Z.ones_equiv. lia. }
    destruct (Z.eq_dec n k) as [-> | Hnk].
    + rewrite Z.ones_spec_high by lia. apply andb_false_r.
    + rewrite Z.pow2_bits_false by lia. reflexivity.
Qed.

Lemma zero_not_power_of_two : ~ is_power_of_two 0.
Proof.
  intros (k & Hk & H). pose proof (Z.pow_pos_nonneg 2 k). lia.
Qed.

Lemma np_intc_in_range z : - 2 ^ 31 <= z < 2 ^ 31 -> np_intc z = Ok z.
Proof.
  intros H. unfold np_intc.
  replace (- 2 ^ 31 <=? z) with true by (symmetry; apply Z.leb_le; lia).
  replace (z <? 2 ^ 31) with true by (symmetry; apply Z.ltb_lt; lia).
  reflexivity.
Qed.

(** With an OpenCL context and no connectivity supplied, the width handed
    to [create_neighbour_list_cl], and kept as [max_neighbours], is the
    least power of two that is at least the largest family. *)
Lemma cl_max_neighbours_is_next_power_of_two ext a coords family m :
  a_connectivity a = ConnNone ->
  np_max family = Ok m ->
  1 <= m <= 2 ^ 30 ->
  let p := Z.shiftl 1 (bit_length (m - 1)) in
  (is_power_of_two p /\ m <= p /\
   forall q, is_power_of_two q -> m <= q -> p <= q) /\
  In (EvCreateNeighbourListCl p)
     (trace (init_connectivity_cl ext a coords family)) /\
  (forall mc, outcome (init_connectivity_cl ext a coords family) = Ok mc ->
              fst mc = p) /\
  (forall pairs, a_initial_crack a = CrackList pairs ->
     exists conn,
       outcome (init_connectivity_cl ext a coords family) = Ok (p, conn)).
Proof.
  intros Hc Hmax Hm p.
  destruct (@next_power_of_two m) as (Hpow & Hge & Hleast); [lia |].
  fold p in Hpow, Hge, Hleast.
  assert (Hp : p <= 2 ^ 30).
  { apply Hleast; [| lia]. exists 30. split; [lia | reflexivity]. }
  assert (Hintc : np_intc p = Ok p) by (apply np_intc_in_range; lia).
  split; [auto |].
  unfold init_connectivity_cl. rewrite Hc, Hmax.
  rewrite (bind_lift_ok _ eq_refl).
  fold p. rewrite Hintc, (bind_lift_ok _ eq_refl).
  set (conn := create_neighbour_list_cl ext coords (a_horizon a) p).
  assert (Hinner :
    exists t,
      (emit (EvCreateNeighbourListCl p) ;;;
       write_array_if (a_write_path a) ["nlist"; "n_neigh"]%string ;;;
       ret (p, conn)) = (EvCreateNeighbourListCl p :: t, Ok (p, conn))).
  { destruct (a_write_path a); cbn; eauto. }
  destruct Hinner as (t & Hinner).
  rewrite (bind_ok _ Hinner). cbn [fst snd].
  split; [| split].
  - cbn. now left.
  - intros mc. rewrite outcome_bind. cbn.
    destruct (outcome (init_crack a coords EvCreateCrackCl
                         (create_crack_cl ext) conn)); cbn.
    + intros H; inversion H; reflexivity.
    + discriminate.
  - intros pairs Hcrack. rewrite outcome_bind.
    unfold init_crack. rewrite Hcrack.
    destruct pairs; cbn; eauto.
Qed.

(** A supplied neighbour list whose width is positive and not a power of
    two is rejected with [ValueError]. *)
Lemma cl_width_not_power_of_two_rejected ext a coords family nlist n_neigh :
  a_connectivity a = ConnTuple2 nlist n_neigh ->
  0 < nd_cols nlist < 2 ^ 31 ->
  ~ is_power_of_two (nd_cols nlist) ->
  init_connectivity_cl ext a coords family = ([], Raise ValueError).
Proof.
  intros Hc Hw Hnp. unfold init_connectivity_cl. rewrite Hc.
  rewrite np_intc_in_range by lia. rewrite (bind_lift_ok _ eq_refl).
  destruct (Z.eqb_spec (Z.land (nd_cols nlist) (nd_cols nlist - 1)) 0)
    as [E | E].
  - exfalso. apply Hnp. apply land_pred_zero_iff; [lia | trivial].
  - reflexivity.
Qed.

(** A width of zero passes the same test. *)
Lemma cl_width_zero_accepted ext a coords family nlist n_neigh :
  a_connectivity a = ConnTuple2 nlist n_neigh ->
  a_initial_crack a = CrackList [] ->
  nd_cols nlist = 0 ->
  init_connectivity_cl ext a coords family = ([], Ok (0, (nlist, n_neigh))).
Proof.
  intros Hc Hcrack Hw. unfold init_connectivity_cl, init_crack.
  rewrite Hc, Hcrack, Hw. reflexivity.
Qed.

(** C4: the width test misses zero.  With an OpenCL context and a supplied
    connectivity whose [nlist] has shape (3, 0), the constructor raises
    nothing and returns a model whose [max_neighbours] is 0, which is not
    a power of two. *)
Theorem C4_zero_width_connectivity_is_accepted :
  match outcome (Model_init Fixture.ext Fixture.args_width_zero) with
  | Ok m => max_neighbours (attrs m) = 0
  | Raise _ => False
  end /\
  ~ is_power_of_two 0.
Proof.
  split; [vm_compute; reflexivity | exact zero_not_power_of_two].
Qed.

(** ** Stiffness corrections: the approximate mode *)

(** The approximate branch reads [self.volume_total], which the
    constructor never assigns. *)
Lemma approximate_mode_raises self horizon conn write_path :
  volume_total self = None ->
  exists e,
    outcome (_set_stiffness_corrections self horizon conn (Some 0)
               write_path) = Raise e.
Proof.
  intros Hvt. unfold _set_stiffness_corrections.
  destruct conn as [nlist n_neigh].
  rewrite outcome_bind. cbn [lift outcome snd].
  destruct (np_full2 (nnodes self) (max_neighbours self) (Fin 1));
    [| eauto].
  rewrite outcome_bind. cbn [lift outcome snd].
  destruct (family_volumes_of self nlist); [| eauto].
  rewrite outcome_bind. cbn [lift outcome snd].
  unfold approximate_corrections. rewrite Hvt. cbn. eauto.
Qed.

(** No model is ever built with [precise_stiffness_correction=0] unless
    the corrections are supplied. *)
Lemma approximate_mode_never_builds ext a :
  a_stiffness_corrections a = ArgNone ->
  a_precise_stiffness_correction a = Some 0 ->
  exists e, outcome (Model_init ext a) = Raise e.
Proof.
  intros Hsc Hp. unfold Model_init.
  rewrite outcome_bind. destruct (outcome (init_prefix ext a)) as [p |];
    [| eauto].
  rewrite outcome_bind.
  destruct (outcome (init_family ext a (p_nnodes p) (p_coords p)))
    as [family |]; [| eauto].
  unfold init_rest. rewrite outcome_bind.
  match goal with
  | |- context [match outcome ?c with _ => _ end] =>
      destruct (outcome c) as [mc |]; [| eauto]
  end.
  rewrite outcome_bind. unfold init_stiffness_corrections.
  rewrite Hsc, Hp. cbn [horizon write_path].
  match goal with
  | |- context [_set_stiffness_corrections ?s ?h ?c (Some 0) ?w] =>
      destruct (@approximate_mode_raises s h c w eq_refl) as [e ->]
  end.
  eauto.
Qed.

(** C5: in the approximate mode ([precise_stiffness_correction=0]) the
    constructor produces no correction factors at all: on the triangle it
    stops with [AttributeError] right after the neighbour list is made,
    because [self.volume_total] is read and never assigned. *)
Theorem C5_approximate_mode_raises_attribute_error :
  Model_init Fixture.ext (Fixture.args_precise 0) =
  ([EvSetFamily; EvCreateNeighbourListCl 2], Raise AttributeError).
Proof. vm_compute. reflexivity. Qed.

(** C1: in two dimensions the precise correction factor carries a factor
    of one thousandth that the stated formula does not have.  On the
    triangle with horizon 3/2, the factor stored for the bond in slot 0 of
    node 0 is [2 * (pi * horizon^2 * 0.001)] over the sum of the two
    family volumes, and it differs from [2 * (pi * horizon^2)] over the
    same sum. *)
Theorem C1_precise_factor_2d_is_scaled_by_a_thousandth :
  match outcome (Model_init Fixture.ext (Fixture.args_precise 1)) with
  | Ok m =>
      let self := attrs m in
      let nlist := fst (initial_connectivity m) in
      let fv := spec_family_volume (volume self) nlist (family self) in
      dimensions self = 2 /\
      match entry (stiffness_corrections m) 0 0,
            entry (nd_rows nlist) 0 0 with
      | Some factor, Some j =>
          f64_eq factor
            (np_div (2 * (np_pi * horizon self ^ 2 * (1 # 1000)))
                    (fv 0%nat + fv (Z.to_nat j))) /\
          ~ f64_eq factor
              (spec_precise_factor_2d (horizon self)
                 (fv 0%nat) (fv (Z.to_nat j)))
      | _, _ => False
      end
  | Raise _ => False
  end.
Proof.
  vm_compute. split; [reflexivity |]. split; [reflexivity | discriminate].
Qed.

(** ** The damage warnings *)

Lemma inject_Z_nonneg z : 0 <= z -> (0 <= inject_Z z)%Q.
Proof. intros H. unfold Qle; simpl. lia. Qed.

(** Whenever the second threshold is exceeded, so is the first. *)
Lemma damage_warning_never_second damage_sum nnodes :
  0 <= nnodes -> damage_warning damage_sum nnodes <> Some WarnOver7Percent.
Proof.
  intros Hn. unfold damage_warning.
  pose proof (inject_Z_nonneg Hn) as Hq.
  destruct (Qlt_le_dec ((5 # 100) * inject_Z nnodes) damage_sum) as [| Hle];
    [discriminate |].
  destruct (Qlt_le_dec ((7 # 10) * inject_Z nnodes) damage_sum) as [Hlt |];
    [| discriminate].
  exfalso. lra.
Qed.

Lemma damage_warning_cases damage_sum nnodes :
  damage_warning damage_sum nnodes = None \/
  damage_warning damage_sum nnodes = Some WarnOver5Percent \/
  damage_warning damage_sum nnodes = Some WarnOver7Percent.
Proof.
  unfold damage_warning.
  destruct (Qlt_le_dec ((5 # 100) * inject_Z nnodes) damage_sum); auto.
  destruct (Qlt_le_dec ((7 # 10) * inject_Z nnodes) damage_sum); auto.
Qed.

Lemma damage_warning_event damage_sum nnodes w :
  damage_warning damage_sum nnodes = Some w ->
  driver_event nnodes (EvWarn w).
Proof.
  unfold damage_warning.
  destruct (Qlt_le_dec ((5 # 100) * inject_Z nnodes) damage_sum) as [| Hle].
  - intros H; inversion H. exact I.
  - destruct (Qlt_le_dec ((7 # 10) * inject_Z nnodes) damage_sum)
      as [Hlt |]; [| discriminate].
    intros H; inversion H. cbn.
    destruct (Z_lt_le_dec nnodes 0) as [| Hn]; trivial.
    pose proof (inject_Z_nonneg Hn). exfalso. lra.
Qed.

(** The warning is an event of the write step, never its outcome. *)
Lemma write_step_outcome m step st :
  outcome (write_step m step st) =
  match
    tip_sums (attrs m) (model_tip_types m)
      (sn_u (write (integrator m) (st_integrator st) (st_arrays st)))
      (sn_ud (write (integrator m) (st_integrator st) (st_arrays st)))
      (sn_force (write (integrator m) (st_integrator st) (st_arrays st)))
  with
  | Ok sums =>
      let arrays :=
        write (integrator m) (st_integrator st) (st_arrays st) in
      let damage_sum := np_sum (sn_damage arrays) in
      Ok {| st_integrator := st_integrator st;
            st_arrays := arrays;
            damage_sum_data := damage_sum_data st ++ [damage_sum];
            tip_displacement_data :=
              tip_displacement_data st ++ [fst (fst (tip_report sums))];
            tip_velocity_data :=
              tip_velocity_data st ++ [snd (fst (tip_report sums))];
            tip_force_data :=
              tip_force_data st ++ [snd (tip_report sums)] |}
  | Raise e => Raise e
  end.
Proof.
  unfold write_step.
  rewrite !outcome_bind. cbn [emit outcome snd lift].
  destruct (tip_sums _ _ _ _ _) as [sums |]; [| reflexivity].
  destruct (tip_report sums) as [[d v] f]. cbn [fst snd].
  rewrite outcome_bind.
  destruct (damage_warning _ _); reflexivity.
Qed.

(** ** The external calls of the driver *)

Ltac trace_step :=
  lazymatch goal with
  | |- Forall _ (trace (bind _ _)) =>
      apply Forall_trace_bind; [| intros ? ?]
  | |- Forall _ (trace (lift _)) => apply Forall_nil
  | |- Forall _ (trace (ret _)) => apply Forall_nil
  | |- Forall _ (trace (raise _)) => apply Forall_nil
  | |- Forall _ (trace (emit _)) =>
      apply Forall_cons; [first [exact I | reflexivity] | apply Forall_nil]
  | |- Forall _ (trace (match ?x with _ => _ end)) => destruct x eqn:?
  end.

Lemma write_step_trace m step st :
  Forall (driver_event (nnodes (attrs m))) (trace (write_step m step st)).
Proof.
  unfold write_step. repeat trace_step.
  apply Forall_cons; [| apply Forall_nil].
  eapply damage_warning_event; eassumption.
Qed.

Lemma simulate_step_trace m s dm fm step st :
  Forall (driver_event (nnodes (attrs m)))
         (trace (simulate_step m s dm fm step st)).
Proof.
  unfold simulate_step. repeat trace_step.
  all: try apply write_step_trace; try apply Forall_nil.
Qed.

Lemma simulate_initialise_trace ext m s :
  Forall (driver_event (nnodes (attrs m)))
         (trace (_simulate_initialise ext m s)).
Proof.
  unfold _simulate_initialise. repeat trace_step.
Qed.

(** Every external call of [simulate] is a call of the integrator or of
    the mesh writer, or a damage warning. *)
Lemma simulate_trace ext m s :
  Forall (driver_event (nnodes (attrs m))) (trace (simulate ext m s)).
Proof.
  unfold simulate. apply Forall_trace_bind.
  - apply simulate_initialise_trace.
  - intros [[st dm] fm] _. apply Forall_trace_forM.
    intros. apply simulate_step_trace.
Qed.

(** C10: on a model with at least one node the second damage-warning
    branch is dead.  A damage sum above [0.7 * nnodes] is also above
    [0.05 * nnodes], so the warning chosen is never the second one; no run
    of [simulate] emits it; and a warning is only an event of the write
    step, whose outcome is decided by the tip sums alone, so that the loop
    goes on whether or not a warning was issued. *)
Theorem C10_second_damage_warning_is_unreachable :
  forall (ext : Externals) (m : Model) (s : SimArgs),
    0 < nnodes (attrs m) ->
    (forall damage_sum,
       (7 # 10) * inject_Z (nnodes (attrs m)) < damage_sum ->
       (5 # 100) * inject_Z (nnodes (attrs m)) < damage_sum)%Q /\
    (forall damage_sum,
       damage_warning damage_sum (nnodes (attrs m)) = None \/
       damage_warning damage_sum (nnodes (attrs m)) =
         Some WarnOver5Percent) /\
    ~ In (EvWarn WarnOver7Percent) (trace (simulate ext m s)) /\
    (forall step st sums,
       tip_sums (attrs m) (model_tip_types m)
         (sn_u (write (integrator m) (st_integrator st) (st_arrays st)))
         (sn_ud (write (integrator m) (st_integrator st) (st_arrays st)))
         (sn_force (write (integrator m) (st_integrator st) (st_arrays st)))
       = Ok sums ->
       exists st', outcome (write_step m step st) = Ok st').
Proof.
  intros ext m s Hn.
  assert (Hq : (0 <= inject_Z (nnodes (attrs m)))%Q)
    by (apply inject_Z_nonneg; lia).
  split; [| split; [| split]].
  - intros d Hd. lra.
  - intros d.
    pose proof (@damage_warning_never_second d (nnodes (attrs m))) as H.
    destruct (damage_warning_cases d (nnodes (attrs m))) as [E | [E | E]];
      auto.
    exfalso. apply H; [lia | exact E].
  - intros Hin.
    pose proof (simulate_trace ext m s) as Hall.
    rewrite Forall_forall in Hall. specialize (Hall _ Hin).
    cbn in Hall. lia.
  - intros step st sums Hs. rewrite write_step_outcome, Hs. eauto.
Qed.

(** The driver on the triangle. *)
Lemma C10_witness :
  0 < nnodes (attrs Fixture.triangle_model) /\
  ~ In (EvWarn WarnOver7Percent)
       (trace (simulate Fixture.ext Fixture.triangle_model Fixture.run)).
Proof.
  split; [reflexivity |].
  apply (C10_second_damage_warning_is_unreachable Fixture.ext
           Fixture.triangle_model Fixture.run).
  reflexivity.
Defined.

(** ** The tip report *)

Lemma rows_ok_has_shape {A} (a : list (list A)) n m :
  rows_ok a n m = true -> has_shape a (Z.to_nat n) (Z.to_nat m).
Proof.
  unfold rows_ok, has_shape. intros H.
  apply andb_true_iff in H as [Hn Hm].
  apply Z.eqb_eq in Hn. split; [lia |].
  rewrite forallb_forall in Hm. apply Forall_forall.
  intros row Hrow. specialize (Hm _ Hrow). apply Z.eqb_eq in Hm. lia.
Qed.

Lemma has_shape_entry {A} (a : list (list A)) n m i j :
  has_shape a n m -> (i < n)%nat -> (j < m)%nat ->
  exists x, entry a i j = Some x.
Proof.
  intros Hs Hi Hj.
  destruct (has_shape_row Hs Hi) as (row & Hrow & Hlen).
  unfold entry. rewrite Hrow.
  destruct (nth_error row j) as [x |] eqn:E; [eauto |].
  apply nth_error_None in E. lia.
Qed.

Lemma no_tip_entry tip_types i j t :
  no_tip tip_types = true -> entry tip_types i j = Some t -> t <> 1.
Proof.
  unfold no_tip, entry. intros H.
  destruct (nth_error tip_types i) as [row |] eqn:Erow; [| discriminate].
  intros Et.
  rewrite forallb_forall in H.
  specialize (H _ (nth_error_In _ _ Erow)).
  rewrite forallb_forall in H.
  specialize (H _ (nth_error_In _ _ Et)).
  apply negb_true_iff, Z.eqb_neq in H. exact H.
Qed.

(** Without tips nothing is summed and none of [u], [ud] and [force] is
    read. *)
Lemma tip_sums_no_tip self tip_types u ud force :
  rows_ok tip_types (nnodes self) (degrees_freedom self) = true ->
  no_tip tip_types = true ->
  tip_sums self tip_types u ud force = Ok (0, 0%Q, 0%Q, 0%Q).
Proof.
  intros Hrows Hno. apply rows_ok_has_shape in Hrows.
  unfold tip_sums, range.
  set (zero := (0, 0%Q, 0%Q, 0%Q)).
  match goal with
  | |- for_ (map Z.of_nat (seq 0 ?N)) ?s ?b = _ =>
      destruct (@for_seq_inv _ (fun _ acc => acc = zero) b N 0%nat s
                  eq_refl) as (acc & E & ->); [| exact E]
  end.
  intros i acc Hi ->.
  match goal with
  | |- exists _, for_ (map Z.of_nat (seq 0 ?N)) ?s ?b = _ /\ _ =>
      destruct (@for_seq_inv _ (fun _ acc => acc = zero) b N 0%nat s
                  eq_refl) as (acc & E & ->); [| eauto]
  end.
  intros j acc Hj ->. exists zero. split; trivial.
  destruct (@has_shape_entry _ tip_types _ _ i j Hrows) as [t Ht];
    [lia | lia |].
  unfold zero. rewrite (getitem2_of_nat _ _ _ Ht). cbn [rbind].
  replace (t =? 1) with false; [reflexivity |].
  symmetry. apply Z.eqb_neq. eapply no_tip_entry; eauto.
Qed.

(** C7 (amended): at a write step where no entry of [tip_types] equals 1,
    the tip-averaged displacement and the tip-averaged velocity are
    recorded as [None], while the tip-summed force is recorded as the
    number 0. *)
Theorem C7_empty_tip_reports_none_none_zero :
  forall (m : Model) (step : Z) (st : SimState (istate (integrator m))),
    rows_ok (model_tip_types m) (nnodes (attrs m))
            (degrees_freedom (attrs m)) = true ->
    no_tip (model_tip_types m) = true ->
    exists st',
      outcome (write_step m step st) = Ok st' /\
      tip_displacement_data st' = tip_displacement_data st ++ [PyNone] /\
      tip_velocity_data st' = tip_velocity_data st ++ [PyNone] /\
      tip_force_data st' = tip_force_data st ++ [PyNum 0].
Proof.
  intros m step st Hrows Hno.
  rewrite write_step_outcome.
  rewrite (@tip_sums_no_tip _ _ _ _ _ Hrows Hno).
  eexists. split; [reflexivity |]. cbn. auto.
Qed.

(** The triangle has no tip: its write steps record [None], [None], 0. *)
Lemma C7_witness :
  exists st',
    outcome (write_step Fixture.triangle_model 1
               {| st_integrator := O;
                  st_arrays :=
                    {| sn_u := []; sn_ud := []; sn_force := [];
                       sn_damage := [];
                       sn_nlist := {| nd_cols := 0; nd_rows := [] |};
                       sn_n_neigh := [] |};
                  damage_sum_data := [];
                  tip_displacement_data := [];
                  tip_velocity_data := [];
                  tip_force_data := [] |}) = Ok st' /\
    tip_displacement_data st' = [PyNone] /\
    tip_velocity_data st' = [PyNone] /\
    tip_force_data st' = [PyNum 0].
Proof.
  apply (C7_empty_tip_reports_none_none_zero Fixture.triangle_model 1);
    reflexivity.
Defined.

(** The claim as stated fails: with no tip the force entry of a write
    step is the number 0, not [None]. *)
Lemma C7_counterexample :
  no_tip (model_tip_types Fixture.triangle_model) = true /\
  match snd (Fixture.build_and_run Fixture.args Fixture.run) with
  | Ok (_, _, _, tip_force_data) =>
      nth_error tip_force_data 0 = Some (PyNum 0) /\
      nth_error tip_force_data 0 <> Some PyNone
  | Raise _ => False
  end.
Proof.
  split; [reflexivity |]. vm_compute. split; [reflexivity | discriminate].
Qed.

(** ** The family check *)










(** ** Calls of [bond_type] and of the crack predicate *)

Lemma flat_map_map_in {A B C} (g : B -> list C) (h : A -> B) (l : list A) :
  flat_map g (map h l) = flat_map (fun x => g (h x)) l.
Proof.
  induction l as [| x l IH]; simpl; [reflexivity | now rewrite IH].
Qed.

Section ListFacts.

Context {A B : Type}.

Lemma flat_map_singleton (f : A -> B) (l : list A) :
  flat_map (fun x => [f x]) l = map f l.
Proof.
  induction l as [| x l IH]; simpl; [reflexivity | now rewrite IH].
Qed.

(** Visiting the first [m] positions of [l] by index is visiting its
    first [m] elements. *)
Lemma flat_map_seq_nth (f : A -> list B) (d : A) (l : list A) :
  forall m, (m <= length l)%nat ->
    flat_map (fun k => f (nth k l d)) (seq 0 m) = flat_map f (firstn m l).
Proof.
  induction l as [| x l IH]; intros [| m] H; simpl in *; try lia;
    try reflexivity.
  f_equal. rewrite <- seq_shift, flat_map_map_in. apply IH. lia.
Qed.

Lemma filter_flat_map (p : B -> bool) (f : A -> list B) (l : list A) :
  filter p (flat_map f l) = flat_map (fun x => filter p (f x)) l.
Proof.
  induction l as [| x l IH]; simpl; [reflexivity |].
  now rewrite filter_app, IH.
Qed.

Lemma filter_map_comm (p : B -> bool) (f : A -> B) (l : list A) :
  filter p (map f l) = map f (filter (fun x => p (f x)) l).
Proof.
  induction l as [| x l IH]; simpl; [reflexivity |].
  destruct (p (f x)); simpl; now rewrite IH.
Qed.

End ListFacts.

(** A loop over a list whose every iteration succeeds. *)
Lemma forM_list_trace {X S} (T : X -> list event) (body : X -> S -> M S)
    (l : list X) :
  (forall x s, In x l -> exists s', body x s = (T x, Ok s')) ->
  forall s, exists s', forM l s body = (flat_map T l, Ok s').
Proof.
  induction l as [| x l IH]; intros Hb s; simpl.
  - eexists. reflexivity.
  - destruct (Hb x s) as (s1 & E1); [now left |].
    destruct (IH (fun y s Hy => Hb y s (or_intror Hy)) s1) as (s' & E').
    exists s'. rewrite (bind_ok _ E1), E'. reflexivity.
Qed.

(** What [conn_ok] provides for node [i] and slot [k]. *)
Lemma conn_ok_counts n w nlist n_neigh i :
  conn_ok n w (nlist, n_neigh) = true -> (i < Z.to_nat n)%nat ->
  exists nn, nth_error n_neigh i = Some nn /\ 0 <= nn <= w.
Proof.
  unfold conn_ok. rewrite !andb_true_iff.
  intros [[[[_ Hlen] _] Hnn] _] Hi. apply Z.eqb_eq in Hlen.
  destruct (nth_error n_neigh i) as [nn |] eqn:E.
  - exists nn. split; trivial.
    rewrite forallb_forall in Hnn.
    specialize (Hnn _ (nth_error_In _ _ E)).
    apply andb_true_iff in Hnn as [H1 H2].
    apply Z.leb_le in H1, H2. lia.
  - apply nth_error_None in E. lia.
Qed.

Lemma conn_ok_rows n w nlist n_neigh i :
  conn_ok n w (nlist, n_neigh) = true -> (i < Z.to_nat n)%nat ->
  exists row,
    nth_error (nd_rows nlist) i = Some row /\
    length row = Z.to_nat w /\
    Forall (fun j => 0 <= j < n) row.
Proof.
  unfold conn_ok. rewrite !andb_true_iff.
  intros [[[[_ _] Hrows] _] Hent] Hi.
  apply rows_ok_has_shape in Hrows.
  destruct (has_shape_row Hrows Hi) as (row & Hrow & Hlen).
  exists row. repeat split; trivial.
  rewrite forallb_forall in Hent.
  specialize (Hent _ (nth_error_In _ _ Hrow)).
  rewrite forallb_forall in Hent. apply Forall_forall.
  intros j Hj. specialize (Hent _ Hj).
  apply andb_true_iff in Hent as [H1 H2].
  apply Z.leb_le in H1. apply Z.ltb_lt in H2. lia.
Qed.

Lemma getitem_in_range {A} (l : list A) (j : Z) :
  0 <= j < Z.of_nat (length l) -> exists x, getitem l j = Ok x.
Proof.
  intros H.
  destruct (nth_error l (Z.to_nat j)) as [x |] eqn:E.
  - exists x. rewrite <- (Z2Nat.id j) by lia. now apply getitem_of_nat.
  - apply nth_error_None in E. lia.
Qed.

Lemma connectivity_ok_parts self conn :
  connectivity_ok self conn = true ->
  nnodes self = Z.of_nat (length (coords self)) /\
  0 <= max_neighbours self /\
  conn_ok (nnodes self) (max_neighbours self) conn = true.
Proof.
  unfold connectivity_ok. rewrite andb_true_iff. intros [Hc Hok].
  apply Z.eqb_eq in Hc. repeat split; auto.
  unfold conn_ok in Hok. destruct conn as [nlist n_neigh].
  rewrite !andb_true_iff in Hok.
  destruct Hok as [[[[Hw _] _] _] _]. now apply Z.leb_le in Hw.
Qed.

(** Storing a number that fits a C int into an array of C ints. *)
Lemma store_intc_ok (mt : list (list Z)) n m i k v :
  has_shape mt n m -> (i < n)%nat -> (k < m)%nat ->
  - 2 ^ 31 <= v < 2 ^ 31 ->
  exists mt',
    (_ <- lift (getitem2 mt (Z.of_nat i) (Z.of_nat k)) ;;
     material_type <- lift (np_intc v) ;;
     lift (setitem2 mt (Z.of_nat i) (Z.of_nat k) material_type)) =
    ([], Ok mt') /\
    has_shape mt' n m /\
    entry mt' i k = Some v /\
    (forall i' k', (i', k') <> (i, k) -> entry mt' i' k' = entry mt i' k').
Proof.
  intros Hs Hi Hk Hv.
  destruct (@has_shape_entry _ mt _ _ i k Hs Hi Hk) as (old & Hold).
  destruct (@setitem2_of_nat _ mt _ _ i k v Hs Hi Hk)
    as (mt' & Hset & Hs' & He' & Ho').
  exists mt'. split; [| split; [exact Hs' | split; [exact He' | exact Ho']]].
  rewrite (@bind_lift_ok _ _ _ _ _ (@getitem2_of_nat _ _ _ _ _ Hold)).
  rewrite (@bind_lift_ok _ _ _ _ _ (@np_intc_in_range v Hv)).
  now rewrite Hset.
Qed.

(** One slot: one call of [bond_type], on the node and its neighbour. *)
Lemma material_type_of_slot_ok self nlist n_neigh bond_type i k mt :
  connectivity_ok self (nlist, n_neigh) = true ->
  fits_intc bond_type ->
  (i < Z.to_nat (nnodes self))%nat ->
  (k < Z.to_nat (max_neighbours self))%nat ->
  has_shape mt (Z.to_nat (nnodes self)) (Z.to_nat (max_neighbours self)) ->
  exists mt',
    material_type_of_slot self nlist bond_type (Z.of_nat i) (Z.of_nat k) mt
    = ([EvBondType (Z.of_nat i) (nth k (nth i (nd_rows nlist) []) 0)],
       Ok mt') /\
    has_shape mt' (Z.to_nat (nnodes self))
              (Z.to_nat (max_neighbours self)).
Proof.
  intros Hok Hfit Hi Hk Hs.
  destruct (@connectivity_ok_parts _ _ Hok) as (Hc & Hw & Hconn).
  destruct (@conn_ok_rows _ _ _ _ i Hconn Hi) as (row & Hrow & Hlen & Hin).
  rewrite (@nth_error_nth _ _ _ _ [] Hrow).
  assert (Hj : nth_error row k = Some (nth k row 0))
    by (apply nth_error_nth'; lia).
  set (j := nth k row 0) in *.
  assert (Hjr : 0 <= j < nnodes self).
  { rewrite Forall_forall in Hin. apply Hin. eapply nth_error_In; eauto. }
  destruct (@getitem_in_range _ (coords self) (Z.of_nat i)) as [xi Hxi];
    [lia |].
  destruct (@getitem_in_range _ (coords self) j) as [xj Hxj]; [lia |].
  assert (He : entry (nd_rows nlist) i k = Some j)
    by (unfold entry; now rewrite Hrow).
  destruct (@store_intc_ok mt _ _ i k (bond_type xi xj) Hs Hi Hk
              (Hfit xi xj)) as (mt' & Hset & Hs' & _).
  exists mt'. split; trivial.
  unfold material_type_of_slot.
  rewrite (@bind_lift_ok _ _ _ _ _ (@getitem2_of_nat _ _ _ _ _ He)).
  rewrite (@bind_lift_ok _ _ _ _ _ Hxi), (@bind_lift_ok _ _ _ _ _ Hxj).
  rewrite Hset. reflexivity.
Qed.

(** One node: one call per valid slot, in slot order. *)
Lemma material_types_of_node_ok self nlist n_neigh bond_type i mt :
  connectivity_ok self (nlist, n_neigh) = true ->
  fits_intc bond_type ->
  (i < Z.to_nat (nnodes self))%nat ->
  has_shape mt (Z.to_nat (nnodes self)) (Z.to_nat (max_neighbours self)) ->
  exists mt',
    material_types_of_node self (nlist, n_neigh) bond_type (Z.of_nat i) mt
    = (map bond_type_event
         (map (fun j => (Z.of_nat i, j))
              (firstn (Z.to_nat (nth i n_neigh 0))
                      (nth i (nd_rows nlist) []))),
       Ok mt') /\
    has_shape mt' (Z.to_nat (nnodes self))
              (Z.to_nat (max_neighbours self)).
Proof.
  intros Hok Hfit Hi Hs.
  destruct (@connectivity_ok_parts _ _ Hok) as (Hc & Hw & Hconn).
  destruct (@conn_ok_counts _ _ _ _ i Hconn Hi) as (nn & Hnn & Hrange).
  destruct (@conn_ok_rows _ _ _ _ i Hconn Hi) as (row & Hrow & Hlen & _).
  unfold material_types_of_node.
  rewrite (@bind_lift_ok _ _ _ _ _ (@getitem_of_nat _ _ _ _ Hnn)).
  rewrite (@nth_error_nth _ _ _ _ 0 Hnn).
  destruct (@forM_range_inv _
              (fun _ mt => has_shape mt (Z.to_nat (nnodes self))
                             (Z.to_nat (max_neighbours self)))
              (fun k => [EvBondType (Z.of_nat i)
                           (nth k (nth i (nd_rows nlist) []) 0)])
              (material_type_of_slot self nlist bond_type (Z.of_nat i))
              nn mt Hs) as (mt' & E & Hs').
  { intros k mt1 Hk Hs1.
    apply material_type_of_slot_ok with (n_neigh := n_neigh); trivial.
    lia. }
  exists mt'. split; trivial. rewrite E. f_equal.
  rewrite (@flat_map_seq_nth _ _
             (fun j => [EvBondType (Z.of_nat i) j]) 0
             (nth i (nd_rows nlist) [])).
  - rewrite flat_map_singleton, map_map. reflexivity.
  - rewrite (@nth_error_nth _ _ _ _ [] Hrow). lia.
Qed.

Lemma map_flat_map {A B C} (f : B -> C) (g : A -> list B) (l : list A) :
  map f (flat_map g l) = flat_map (fun x => map f (g x)) l.
Proof.
  induction l as [| x l IH]; simpl; [reflexivity |].
  now rewrite map_app, IH.
Qed.

(** The whole array: [bond_type] is called once for every directed bond,
    in the order of the neighbour list. *)
Lemma set_material_types_calls self conn bond_type write_path :
  connectivity_ok self conn = true ->
  fits_intc bond_type ->
  exists material_types,
    _set_material_types self conn bond_type write_path =
    (map bond_type_event
         (directed_bonds conn (Z.to_nat (nnodes self)))
       ++ material_types_written write_path,
     Ok material_types).
Proof.
  intros Hok Hfit. destruct conn as [nlist n_neigh].
  destruct (@connectivity_ok_parts _ _ Hok) as (Hc & Hw & Hconn).
  unfold _set_material_types.
  rewrite (@bind_lift_ok _ _ _ _ _
             (@np_full2_nonneg _ (nnodes self) (max_neighbours self) 0
                ltac:(lia) Hw)).
  destruct (@forM_range_inv _
              (fun _ mt => has_shape mt (Z.to_nat (nnodes self))
                             (Z.to_nat (max_neighbours self)))
              (fun i =>
                 map bond_type_event
                   (map (fun j => (Z.of_nat i, j))
                      (firstn (Z.to_nat (nth i n_neigh 0))
                              (nth i (nd_rows nlist) []))))
              (material_types_of_node self (nlist, n_neigh) bond_type)
              (nnodes self)
              (repeat (repeat 0 (Z.to_nat (max_neighbours self)))
                      (Z.to_nat (nnodes self)))
              (@has_shape_full _ _ _ _)) as (mt & E & _).
  { intros i mt1 Hi Hs1. now apply material_types_of_node_ok. }
  exists mt. rewrite (@bind_ok _ _ _ _ _ _ E).
  unfold directed_bonds. rewrite map_flat_map. cbn [fst snd].
  destruct write_path; reflexivity.
Qed.

Lemma In_firstn {A} (x : A) n (l : list A) : In x (firstn n l) -> In x l.
Proof.
  intros H. rewrite <- (firstn_skipn n l). apply in_or_app. now left.
Qed.

(** The bonds of the first [n] nodes join indices of nodes. *)
Lemma directed_bonds_in_range n w nlist n_neigh m i j :
  conn_ok n w (nlist, n_neigh) = true -> (m <= Z.to_nat n)%nat ->
  In (i, j) (directed_bonds (nlist, n_neigh) m) ->
  0 <= i < n /\ 0 <= j < n.
Proof.
  intros Hok Hm Hin. unfold directed_bonds in Hin. cbn [fst snd] in Hin.
  apply in_flat_map in Hin as (i' & Hi' & Hin).
  apply in_seq in Hi'.
  apply in_map_iff in Hin as (j' & Heq & Hj').
  inversion Heq; subst; clear Heq.
  destruct (@conn_ok_rows _ _ _ _ i' Hok) as (row & Hrow & _ & Hall);
    [lia |].
  rewrite (@nth_error_nth _ _ _ _ [] Hrow) in Hj'.
  apply In_firstn in Hj'. rewrite Forall_forall in Hall.
  split; [lia | now apply Hall].
Qed.

(** The pairs collected by the helper are the ascending bonds. *)
Lemma crack_pairs n w nlist n_neigh :
  conn_ok n w (nlist, n_neigh) = true ->
  for_ (range n) [] (pairs_of_node nlist n_neigh) =
  Ok (ascending_bonds (nlist, n_neigh) (Z.to_nat n)).
Proof.
  intros Hok.
  destruct (@for_range_inv _
              (fun k pairs =>
                 pairs = ascending_bonds (nlist, n_neigh) k)
              (pairs_of_node nlist n_neigh) n [] eq_refl)
    as (pairs & E & ->); [| exact E].
  intros k pairs Hk ->.
  destruct (@conn_ok_counts _ _ _ _ k Hok Hk) as (nn & Hnn & Hrange).
  destruct (@conn_ok_rows _ _ _ _ k Hok Hk) as (row & Hrow & _ & _).
  eexists. split.
  - unfold pairs_of_node.
    rewrite (@getitem_of_nat _ _ _ _ Hrow). cbn [rbind].
    rewrite (@getitem_of_nat _ _ _ _ Hnn). cbn [rbind]. reflexivity.
  - unfold ascending_bonds, directed_bonds. cbn [fst snd].
    rewrite seq_S, flat_map_app, filter_app. cbn [flat_map Nat.add].
    rewrite app_nil_r. f_equal.
    rewrite (@nth_error_nth _ _ _ _ 0 Hnn).
    rewrite (@nth_error_nth _ _ _ _ [] Hrow).
    rewrite filter_map_comm. cbn [fst snd].
    replace nn with (Z.of_nat (Z.to_nat nn)) at 1 by lia.
    now rewrite slice_to_of_nat.
Qed.

(** The crack predicate is called once for every ascending bond. *)
Lemma initial_crack_helper_calls crack_function coords nlist n_neigh w :
  length coords = length (nd_rows nlist) ->
  conn_ok (Z.of_nat (length (nd_rows nlist))) w (nlist, n_neigh) = true ->
  exists crack,
    initial_crack_helper crack_function coords nlist n_neigh =
    (map crack_function_event
         (ascending_bonds (nlist, n_neigh) (length (nd_rows nlist))),
     Ok crack).
Proof.
  intros Hlen Hok. unfold initial_crack_helper.
  rewrite (@bind_lift_ok _ _ _ _ _ (@crack_pairs _ _ _ _ Hok)).
  rewrite Nat2Z.id.
  destruct (@forM_list_trace _ _ (fun p => [crack_function_event p])
              (test_pair crack_function coords)
              (ascending_bonds (nlist, n_neigh)
                 (length (nd_rows nlist)))) with (s := @nil (Z * Z))
    as (crack & E).
  - intros [i j] crack Hin.
    apply filter_In in Hin as [Hin _].
    apply (@directed_bonds_in_range _ _ _ _ _ _ _ Hok) in Hin;
      [| rewrite Nat2Z.id; lia].
    destruct (@getitem_in_range _ coords i) as [xi Hxi]; [lia |].
    destruct (@getitem_in_range _ coords j) as [xj Hxj]; [lia |].
    eexists. unfold test_pair.
    rewrite (@bind_lift_ok _ _ _ _ _ Hxi), (@bind_lift_ok _ _ _ _ _ Hxj).
    reflexivity.
  - exists crack. rewrite E, flat_map_singleton. reflexivity.
Qed.

Lemma nth_error_Some_length' {A} (l : list A) k x :
  nth_error l k = Some x -> (k < length l)%nat.
Proof. intros H. apply nth_error_Some. congruence. Qed.

Lemma length_directed_bonds n w nlist n_neigh :
  conn_ok n w (nlist, n_neigh) = true ->
  forall m, (m <= Z.to_nat n)%nat ->
    Z.of_nat (length (directed_bonds (nlist, n_neigh) m)) =
    fold_left Z.add (firstn m n_neigh) 0.
Proof.
  intros Hok. induction m as [| m IH]; intros Hm; [reflexivity |].
  destruct (@conn_ok_counts _ _ _ _ m Hok) as (nn & Hnn & Hrange); [lia |].
  destruct (@conn_ok_rows _ _ _ _ m Hok) as (row & Hrow & Hlen & _);
    [lia |].
  unfold directed_bonds in *. cbn [fst snd] in *.
  rewrite seq_S, flat_map_app, length_app, Nat2Z.inj_add, IH by lia.
  cbn [flat_map Nat.add]. rewrite app_nil_r, length_map, length_firstn.
  rewrite (@nth_error_nth _ _ _ _ 0 Hnn).
  rewrite (@nth_error_nth _ _ _ _ [] Hrow).
  assert (Hsplit : firstn (S m) n_neigh = firstn m n_neigh ++ [nn]).
  { rewrite <- (firstn_skipn_middle _ _ Hnn) at 1.
    assert (Hl : length (firstn m n_neigh) = m).
    { rewrite length_firstn. apply nth_error_Some_length' in Hnn. lia. }
    rewrite firstn_app, Hl.
    replace (S m - m)%nat with 1%nat by lia.
    rewrite firstn_all2 by lia. reflexivity. }
  rewrite Hsplit, fold_left_app. cbn [fold_left]. lia.
Qed.

Lemma driver_event_not_pair_callback nnodes e :
  driver_event nnodes e -> pair_callback_event e = false.
Proof. destruct e; cbn; intros H; trivial; contradiction. Qed.

(** ** Force boundary values *)

Lemma firstn_snoc {A} (l : list A) j d :
  (j < length l)%nat -> firstn (S j) l = firstn j l ++ [nth j l d].
Proof.
  revert j; induction l as [| x l IH]; intros [| j] H; simpl in *;
    try lia; try reflexivity.
  f_equal. apply IH. lia.
Qed.


(** What [boundary_input_ok] provides. *)
Lemma answers3_list f x :
  answers3 f x = true -> exists l, f x = RetList l /\ length l = 3%nat.
Proof.
  unfold answers3. destruct (f x) as [l |]; [| discriminate].
  intros H. apply Nat.eqb_eq in H. eauto.
Qed.

Lemma boundary_input_ok_parts self fd ff ft :
  boundary_input_ok self fd ff ft = true ->
  nnodes self = Z.of_nat (length (coords self)) /\
  nnodes self = Z.of_nat (length (volume self)) /\
  degrees_freedom self = 3 /\
  forall x, x = [0; 0; 0]%Q \/ In x (coords self) ->
    answers3 fd x = true /\ answers3 ff x = true /\ answers3 ft x = true.
Proof.
  unfold boundary_input_ok. rewrite !andb_true_iff.
  intros [[[Hc Hv] Hd] Hall].
  apply Z.eqb_eq in Hc, Hv, Hd. repeat split; try lia.
  all: rewrite forallb_forall in Hall.
  all: assert (Hx : In x ([0; 0; 0]%Q :: coords self))
         by (destruct H; [left; auto | right; auto]).
  all: specialize (Hall _ Hx); rewrite !andb_true_iff in Hall; tauto.
Qed.

Lemma bnd_item_list l j :
  length l = 3%nat -> (j < 3)%nat ->
  bnd_item (RetList l) (Z.of_nat j) = Ok (nth j l None).
Proof.
  intros Hl Hj. cbn [bnd_item]. apply getitem_of_nat.
  apply nth_error_nth'. lia.
Qed.

Ltac step_setitem2 :=
  match goal with
  | |- context [setitem2 ?a (Z.of_nat ?i) (Z.of_nat ?j) ?v] =>
      let a' := fresh "a'" in
      let E := fresh "E" in
      let Hs := fresh "Hs" in
      let He := fresh "He" in
      let Ho := fresh "Ho" in
      destruct (@setitem2_of_nat _ a _ _ i j v
                  ltac:(eassumption) ltac:(lia) ltac:(lia))
        as (a' & E & Hs & He & Ho);
      rewrite E; cbn [rbind]
  end.

(** One axis of one node. *)
Lemma boundary_axis_ok self fd ff ft k j st :
  boundary_input_ok self fd ff ft = true ->
  (k < Z.to_nat (nnodes self))%nat -> (j < 3)%nat ->
  axis_inv self ff k j st ->
  exists st',
    boundary_axis self (fd (nth k (coords self) []))
      (ff (nth k (coords self) [])) (ft (nth k (coords self) []))
      (Z.of_nat k) (Z.of_nat j) st = Ok st' /\
    axis_inv self ff k (S j) st'.
Proof.
  intros Hok Hk Hj Hinv. unfold axis_inv in *.
  destruct (@boundary_input_ok_parts _ _ _ _ Hok) as (Hc & Hv & Hd & Hans).
  set (x := nth k (coords self) []) in *.
  assert (Hx : In x (coords self)) by (apply nth_In; lia).
  destruct (Hans x (or_intror Hx)) as (Had & Haf & Hat).
  apply answers3_list in Had as (ld & Eld & Hld).
  apply answers3_list in Haf as (lf & Elf & Hlf).
  apply answers3_list in Hat as (lt & Elt & Hlt).
  destruct st as [arrays flag].
  destruct Hinv as ((S1 & S2 & S3 & S4 & S5) & Hflag & Hent).
  cbn [fst snd] in *. rewrite Elf in Hflag. cbn [ret_list] in Hflag.
  assert (Hvol : getitem (volume self) (Z.of_nat k) =
                 Ok (nth k (volume self) 0%Q)).
  { apply getitem_of_nat, nth_error_nth'. lia. }
  assert (Hraw : raw_force self ff k j =
                 force_value (nth k (volume self) 0%Q) (nth j lf None)).
  { unfold raw_force. fold x. now rewrite Elf. }
  unfold boundary_axis. rewrite Eld, Elf, Elt.
  rewrite !bnd_item_list by trivial. cbn [rbind].
  assert (Hfirst : existsb is_some (firstn (S j) lf) =
                   existsb is_some (firstn j lf) || is_some (nth j lf None)).
  { rewrite (@firstn_snoc _ lf j None) by lia.
    rewrite existsb_app. cbn. now rewrite orb_false_r. }
  cbn [fst snd ret_list].
  rewrite Hfirst.
  destruct (nth j ld None) as [vd |]; destruct (nth j lf None) as [vf |];
    destruct (nth j lt None) as [vt |]; cbn [rbind];
    repeat step_setitem2; try rewrite Hvol; cbn [rbind];
    repeat step_setitem2; cbn [fst snd];
    (eexists; split; [reflexivity |]);
    unfold arrays_shape;
    cbn [fst snd bc_types bc_values force_bc_types force_bc_values
         tip_types is_some];
    rewrite ?orb_true_r, ?orb_false_r;
    (split; [repeat (split; [assumption |]); assumption |]);
    (split; [first [reflexivity | assumption] |]);
    intros i j' Hi Hj';
    destruct (Nat.eq_dec i k) as [-> | Hik];
    try destruct (Nat.eq_dec j' j) as [-> | Hjj].
  all: repeat match goal with
         | H : forall i' j', (i', j') <> _ -> entry ?a i' j' = _
           |- entry ?a _ _ = _ => rewrite H by congruence
         | H : entry ?a ?i ?j = Some _ |- entry ?a ?i ?j = _ => rewrite H
         end.
  all: rewrite ?Hent by lia; f_equal.
  all: rewrite ?Nat.ltb_irrefl, ?Nat.eqb_refl; cbn [andb].
  all: try (replace (j <? S j)%nat with true
              by (symmetry; apply Nat.ltb_lt; lia)).
  all: try (rewrite Hraw; reflexivity).
  all: repeat match goal with
         | |- context [(?a <? ?b)%nat] => destruct (Nat.ltb_spec a b)
         | |- context [(?a =? ?b)%nat] => destruct (Nat.eqb_spec a b)
         end; cbn [andb]; try reflexivity; try lia.
Qed.

Lemma bind_invoke {B} ev f x (k : bndret -> M B) :
  bind (invoke ev (Callable f) x) k =
  (ev x :: trace (k (f x)), outcome (k (f x))).
Proof. unfold invoke. cbn. destruct (k (f x)); reflexivity. Qed.

(** One node: the three callbacks are called once each, then the three
    axes are filled in. *)
Lemma boundary_node_ok self fd ff ft k st :
  boundary_input_ok self fd ff ft = true ->
  (k < Z.to_nat (nnodes self))%nat ->
  node_inv self ff k st ->
  exists st',
    boundary_node self (Callable fd) (Callable ff) (Callable ft)
      (Z.of_nat k) st =
    ([EvIsDisplacementBoundary (nth k (coords self) []);
      EvIsForcesBoundary (nth k (coords self) []);
      EvIsTip (nth k (coords self) [])], Ok st') /\
    node_inv self ff (S k) st'.
Proof.
  intros Hok Hk Hinv. unfold node_inv in *.
  destruct (@boundary_input_ok_parts _ _ _ _ Hok) as (Hc & Hv & Hd & Hans).
  set (x := nth k (coords self) []) in *.
  assert (Hx : In x (coords self)) by (apply nth_In; lia).
  destruct (Hans x (or_intror Hx)) as (_ & Haf & _).
  apply answers3_list in Haf as (lf & Elf & Hlf).
  destruct st as [arrays num].
  destruct Hinv as (Hshape & Hnum & Hent). cbn [fst snd] in *.
  assert (Hgx : getitem (coords self) (Z.of_nat k) = Ok x).
  { apply getitem_of_nat, nth_error_nth'. lia. }
  destruct (@for_range_inv _ (axis_inv self ff k)
              (boundary_axis self (fd x) (ff x) (ft x) (Z.of_nat k))
              3 (arrays, 0)) as (st' & E & Hinv').
  { unfold axis_inv. cbn [fst snd firstn existsb].
    split; [assumption |]. split; [reflexivity |].
    intros i j' Hi Hj'. rewrite Hent by trivial. f_equal.
    replace (j' <? 0)%nat with false by (symmetry; apply Nat.ltb_ge; lia).
    rewrite andb_false_r. now destruct (i <? k)%nat. }
  { intros j st1 Hj Hst1. apply boundary_axis_ok; trivial. }
  change (Z.to_nat 3) with 3%nat in Hinv'.
  exists (fst st', num + snd st'). split.
  - unfold boundary_node.
    rewrite (@bind_lift_ok _ _ _ _ _ Hgx).
    repeat (rewrite bind_invoke; cbn beta).
    rewrite Hd, (@bind_lift_ok _ _ _ _ _ E). reflexivity.
  - destruct st' as [arrays' flag]. unfold axis_inv in Hinv'.
    destruct Hinv' as (Hshape' & Hflag & Hent'). cbn [fst snd] in *.
    fold x in Hflag. rewrite Elf in Hflag. cbn [ret_list] in Hflag.
    rewrite firstn_all2 in Hflag by lia.
    split; [assumption |]. split.
    + unfold count_force_nodes in *.
      rewrite (@firstn_snoc _ (coords self) k []) by lia.
      rewrite filter_app, length_app, Nat2Z.inj_add, <- Hnum.
      f_equal. cbn [filter]. fold x. unfold force_loaded.
      rewrite Elf. cbn [ret_list]. rewrite Hflag.
      now destruct (existsb is_some lf).
    + intros i j' Hi Hj'. rewrite Hent' by trivial. f_equal.
      repeat match goal with
             | |- context [(?a <? ?b)%nat] => destruct (Nat.ltb_spec a b)
             | |- context [(?a =? ?b)%nat] => destruct (Nat.eqb_spec a b)
             end; cbn [andb]; try reflexivity; try lia.
Qed.

Lemma check_callback_ok ev f :
  answers3 f [0; 0; 0]%Q = true ->
  check_callback ev (Callable f) =
  ([ev [0; 0; 0]%Q; ev [0; 0; 0]%Q], Ok tt).
Proof.
  intros H. apply answers3_list in H as (l & El & Hl).
  unfold check_callback. rewrite El. cbn. rewrite Hl. reflexivity.
Qed.




(** ** Stiffness corrections: the precise and the "none" mode *)

Lemma stiffness_input_ok_parts self conn :
  stiffness_input_ok self conn = true ->
  connectivity_ok self conn = true /\
  nnodes self = Z.of_nat (length (family self)) /\
  nnodes self = Z.of_nat (length (volume self)) /\
  Forall (fun f => 0 <= f <= max_neighbours self) (family self).
Proof.
  unfold stiffness_input_ok. rewrite !andb_true_iff.
  intros [[[Hc Hf] Hv] Hfam]. apply Z.eqb_eq in Hf, Hv.
  repeat split; auto.
  rewrite forallb_forall in Hfam. apply Forall_forall.
  intros f Hin. specialize (Hfam _ Hin).
  apply andb_true_iff in Hfam as [H1 H2].
  apply Z.leb_le in H1, H2. lia.
Qed.

(** The loop over the family of a node adds up the volumes of its first
    [fam] neighbours. *)
Lemma family_volume_loop self (neighbour_list : list Z) (fam : Z) :
  (Z.to_nat fam <= length neighbour_list)%nat ->
  Forall (fun j => 0 <= j < Z.of_nat (length (volume self)))
         neighbour_list ->
  for_ (range fam) 0%Q (add_neighbour_volume self neighbour_list) =
  Ok (fold_left Qplus
        (map (fun j => nth (Z.to_nat j) (volume self) 0%Q)
             (firstn (Z.to_nat fam) neighbour_list)) 0%Q).
Proof.
  intros Hlen Hall.
  destruct (@for_range_inv _
              (fun k tmp =>
                 tmp = fold_left Qplus
                         (map (fun j => nth (Z.to_nat j) (volume self) 0%Q)
                              (firstn k neighbour_list)) 0%Q)
              (add_neighbour_volume self neighbour_list) fam 0%Q eq_refl)
    as (tmp & E & ->); [| exact E].
  intros k tmp Hk ->.
  assert (Hj : nth_error neighbour_list k =
               Some (nth k neighbour_list 0))
    by (apply nth_error_nth'; lia).
  set (j := nth k neighbour_list 0) in *.
  assert (Hjr : 0 <= j < Z.of_nat (length (volume self))).
  { rewrite Forall_forall in Hall. apply Hall.
    eapply nth_error_In; eauto. }
  eexists. split.
  - unfold add_neighbour_volume.
    rewrite (@getitem_of_nat _ _ _ _ Hj). cbn [rbind].
    replace j with (Z.of_nat (Z.to_nat j)) at 1 by lia.
    rewrite (@getitem_of_nat _ (volume self) (Z.to_nat j)
               (nth (Z.to_nat j) (volume self) 0%Q))
      by (apply nth_error_nth'; lia).
    cbn [rbind]. reflexivity.
  - rewrite (@firstn_snoc _ neighbour_list k 0) by lia.
    rewrite map_app, fold_left_app. reflexivity.
Qed.

Lemma conn_ok_rows_volume self nlist n_neigh i :
  stiffness_input_ok self (nlist, n_neigh) = true ->
  (i < Z.to_nat (nnodes self))%nat ->
  exists row fam,
    nth_error (nd_rows nlist) i = Some row /\
    nth_error (family self) i = Some fam /\
    (Z.to_nat fam <= length row)%nat /\ 0 <= fam /\
    Forall (fun j => 0 <= j < Z.of_nat (length (volume self))) row.
Proof.
  intros Hok Hi.
  destruct (@stiffness_input_ok_parts _ _ Hok) as (Hc & Hf & Hv & Hfam).
  destruct (@connectivity_ok_parts _ _ Hc) as (_ & Hw & Hconn).
  destruct (@conn_ok_rows _ _ _ _ i Hconn Hi) as (row & Hrow & Hlen & Hall).
  destruct (nth_error (family self) i) as [fam |] eqn:Efam.
  - exists row, fam. rewrite Forall_forall in Hfam.
    specialize (Hfam _ (nth_error_In _ _ Efam)).
    repeat split; trivial; try lia.
    now rewrite <- Hv.
  - apply nth_error_None in Efam. lia.
Qed.

(** The family volumes the code computes are those of the specification. *)
Lemma family_volumes_of_ok self nlist n_neigh :
  stiffness_input_ok self (nlist, n_neigh) = true ->
  exists family_volumes,
    family_volumes_of self nlist = Ok family_volumes /\
    length family_volumes = Z.to_nat (nnodes self) /\
    forall i, (i < Z.to_nat (nnodes self))%nat ->
      nth_error family_volumes i =
      Some (spec_family_volume (volume self) nlist (family self) i).
Proof.
  intros Hok.
  destruct (@stiffness_input_ok_parts _ _ Hok) as (Hc & Hf & Hv & Hfam).
  unfold family_volumes_of, np_full.
  replace (nnodes self <? 0) with false
    by (symmetry; apply Z.ltb_ge; lia).
  cbn [rbind].
  destruct (@for_range_inv _
              (fun k fvs =>
                 length fvs = Z.to_nat (nnodes self) /\
                 forall i, (i < k)%nat ->
                   nth_error fvs i =
                   Some (spec_family_volume (volume self) nlist
                           (family self) i))
              (family_volume_of_node self nlist) (nnodes self)
              (repeat 0%Q (Z.to_nat (nnodes self))))
    as (fvs & E & Hlen & Hfv).
  - split; [apply repeat_length | intros i Hi; lia].
  - intros k fvs Hk (Hlen & Hfv).
    destruct (@conn_ok_rows_volume _ _ _ k Hok Hk)
      as (row & fam & Hrow & Efam & Hle & Hfam0 & Hall).
    exists (set_nth fvs k
              (spec_family_volume (volume self) nlist (family self) k)).
    split; [| split].
    + unfold family_volume_of_node.
      rewrite (@getitem_of_nat _ _ _ _ Hrow). cbn [rbind].
      rewrite (@getitem_of_nat _ _ _ _ Efam). cbn [rbind].
      replace fam with (Z.of_nat (Z.to_nat fam)) at 2 by lia.
      rewrite slice_to_of_nat.
      rewrite family_volume_loop.
      * cbn [rbind]. rewrite setitem_of_nat by lia.
        unfold spec_family_volume.
        rewrite (@nth_error_nth _ _ _ _ 0 Efam).
        rewrite (@nth_error_nth _ _ _ _ [] Hrow).
        rewrite firstn_firstn, Nat.min_id. reflexivity.
      * rewrite length_firstn. lia.
      * apply Forall_forall. intros j Hj.
        rewrite Forall_forall in Hall. apply Hall.
        eapply In_firstn; eauto.
    + now rewrite length_set_nth.
    + intros i Hi. destruct (Nat.eq_dec k i) as [-> | Hne].
      * apply nth_error_set_nth_eq. lia.
      * rewrite nth_error_set_nth_ne by trivial. apply Hfv. lia.
  - exists fvs. split; [exact E |]. split; [exact Hlen | exact Hfv].
Qed.

(** One slot of the precise mode. *)
Lemma precise_correction_of_slot_ok self nlist n_neigh fvs bulk k s0 sc :
  stiffness_input_ok self (nlist, n_neigh) = true ->
  (forall i, (i < Z.to_nat (nnodes self))%nat ->
     nth_error fvs i =
     Some (spec_family_volume (volume self) nlist (family self) i)) ->
  (k < Z.to_nat (nnodes self))%nat ->
  (s0 < Z.to_nat (max_neighbours self))%nat ->
  has_shape sc (Z.to_nat (nnodes self)) (Z.to_nat (max_neighbours self)) ->
  exists sc',
    precise_correction_of_slot nlist fvs (Some bulk) (Z.of_nat k)
      (spec_family_volume (volume self) nlist (family self) k)
      (Z.of_nat s0) sc = Ok sc' /\
    has_shape sc' (Z.to_nat (nnodes self))
              (Z.to_nat (max_neighbours self)) /\
    entry sc' k s0 = Some (precise_factor self nlist bulk k s0) /\
    (forall i s, (i, s) <> (k, s0) -> entry sc' i s = entry sc i s).
Proof.
  intros Hok Hfv Hk Hs Hshape.
  destruct (@stiffness_input_ok_parts _ _ Hok) as (Hc & _ & _ & _).
  destruct (@connectivity_ok_parts _ _ Hc) as (_ & Hw & Hconn).
  destruct (@conn_ok_rows _ _ _ _ k Hconn Hk) as (row & Hrow & Hlen & Hall).
  assert (Hj : nth_error row s0 = Some (nth s0 row 0))
    by (apply nth_error_nth'; lia).
  assert (Hjr : 0 <= nth s0 row 0 < nnodes self).
  { rewrite Forall_forall in Hall. apply Hall. eapply nth_error_In; eauto. }
  assert (He : entry (nd_rows nlist) k s0 = Some (nth s0 row 0))
    by (unfold entry; now rewrite Hrow).
  unfold precise_correction_of_slot, precise_factor.
  rewrite (@getitem2_of_nat _ _ _ _ _ He). cbn [rbind].
  rewrite (@nth_error_nth _ _ _ _ [] Hrow).
  set (j := nth s0 row 0) in *.
  assert (Hjn : (Z.to_nat j < Z.to_nat (nnodes self))%nat) by lia.
  assert (Hg : getitem fvs j =
               Ok (spec_family_volume (volume self) nlist (family self)
                     (Z.to_nat j))).
  { rewrite <- (@getitem_of_nat _ fvs (Z.to_nat j) _ (Hfv _ Hjn)).
    f_equal. lia. }
  rewrite Hg.
  cbn [rbind read_local].
  destruct (@setitem2_of_nat _ sc _ _ k s0
              (np_div (2 * bulk)
                 (spec_family_volume (volume self) nlist (family self) k +
                  spec_family_volume (volume self) nlist (family self)
                    (Z.to_nat j)))
              Hshape Hk Hs) as (sc' & E & Hs' & He' & Ho).
  exists sc'. split; [exact E |]. split; [exact Hs' |].
  split; [exact He' | exact Ho].
Qed.

(** One node of the precise mode. *)
Lemma precise_corrections_of_node_ok self nlist n_neigh fvs bulk k sc :
  stiffness_input_ok self (nlist, n_neigh) = true ->
  (forall i, (i < Z.to_nat (nnodes self))%nat ->
     nth_error fvs i =
     Some (spec_family_volume (volume self) nlist (family self) i)) ->
  (k < Z.to_nat (nnodes self))%nat ->
  has_shape sc (Z.to_nat (nnodes self)) (Z.to_nat (max_neighbours self)) ->
  exists sc',
    precise_corrections_of_node (nlist, n_neigh) fvs (Some bulk)
      (Z.of_nat k) sc = Ok sc' /\
    has_shape sc' (Z.to_nat (nnodes self))
              (Z.to_nat (max_neighbours self)) /\
    forall i s,
      entry sc' i s =
      if ((i =? k) && (s <? Z.to_nat (nth k n_neigh 0%Z)))%nat
      then Some (precise_factor self nlist bulk k s)
      else entry sc i s.
Proof.
  intros Hok Hfv Hk Hshape.
  destruct (@stiffness_input_ok_parts _ _ Hok) as (Hc & _ & _ & _).
  destruct (@connectivity_ok_parts _ _ Hc) as (_ & Hw & Hconn).
  destruct (@conn_ok_counts _ _ _ _ k Hconn Hk) as (nn & Hnn & Hrange).
  unfold precise_corrections_of_node.
  rewrite (@getitem_of_nat _ _ _ _ (Hfv k Hk)). cbn [rbind].
  rewrite (@getitem_of_nat _ _ _ _ Hnn). cbn [rbind].
  rewrite (@nth_error_nth _ _ _ _ 0 Hnn).
  destruct (@for_range_inv _
              (fun s0 sc' =>
                 has_shape sc' (Z.to_nat (nnodes self))
                           (Z.to_nat (max_neighbours self)) /\
                 forall i s,
                   entry sc' i s =
                   if ((i =? k) && (s <? s0))%nat
                   then Some (precise_factor self nlist bulk k s)
                   else entry sc i s)
              (precise_correction_of_slot nlist fvs (Some bulk)
                 (Z.of_nat k)
                 (spec_family_volume (volume self) nlist (family self) k))
              nn sc) as (sc' & E & Hs' & He').
  - split; [exact Hshape |]. intros i s.
    replace (s <? 0)%nat with false by (symmetry; apply Nat.ltb_ge; lia).
    now rewrite andb_false_r.
  - intros s0 sc1 Hs0 (Hs1 & He1).
    assert (Hs0w : (s0 < Z.to_nat (max_neighbours self))%nat) by lia.
    destruct (@precise_correction_of_slot_ok self nlist n_neigh fvs bulk
                k s0 sc1 Hok Hfv Hk Hs0w Hs1)
      as (sc2 & E2 & Hs2 & He2 & Ho2).
    exists sc2. split; [exact E2 |]. split; [exact Hs2 |].
    intros i s.
    destruct (Nat.eq_dec i k) as [-> | Hik];
      [destruct (Nat.eq_dec s s0) as [-> | Hss] |].
    + rewrite He2, Nat.eqb_refl. cbn [andb].
      replace (s0 <? S s0)%nat with true
        by (symmetry; apply Nat.ltb_lt; lia).
      reflexivity.
    + rewrite Ho2 by congruence. rewrite He1, Nat.eqb_refl. cbn [andb].
      destruct (Nat.ltb_spec s s0), (Nat.ltb_spec s (S s0));
        try reflexivity; lia.
    + rewrite Ho2 by congruence. rewrite He1.
      replace (i =? k)%nat with false
        by (symmetry; now apply Nat.eqb_neq).
      reflexivity.
  - exists sc'. split; [exact E |]. split; [exact Hs' | exact He'].
Qed.

(** The precise loop: every valid slot holds the factor, every other slot
    keeps its initial 1.0. *)
Lemma precise_corrections_ok self nlist n_neigh fvs bulk :
  stiffness_input_ok self (nlist, n_neigh) = true ->
  (forall i, (i < Z.to_nat (nnodes self))%nat ->
     nth_error fvs i =
     Some (spec_family_volume (volume self) nlist (family self) i)) ->
  exists sc,
    precise_corrections self (nlist, n_neigh) fvs (Some bulk)
      (repeat (repeat (Fin 1) (Z.to_nat (max_neighbours self)))
              (Z.to_nat (nnodes self))) = Ok sc /\
    has_shape sc (Z.to_nat (nnodes self))
              (Z.to_nat (max_neighbours self)) /\
    forall i s,
      (i < Z.to_nat (nnodes self))%nat ->
      (s < Z.to_nat (max_neighbours self))%nat ->
      entry sc i s =
      Some (if (s <? Z.to_nat (nth i n_neigh 0%Z))%nat
            then precise_factor self nlist bulk i s
            else Fin 1).
Proof.
  intros Hok Hfv. unfold precise_corrections.
  destruct (@for_range_inv _
              (fun k sc =>
                 has_shape sc (Z.to_nat (nnodes self))
                           (Z.to_nat (max_neighbours self)) /\
                 forall i s,
                   (i < Z.to_nat (nnodes self))%nat ->
                   (s < Z.to_nat (max_neighbours self))%nat ->
                   entry sc i s =
                   Some (if ((i <? k) &&
                             (s <? Z.to_nat (nth i n_neigh 0%Z)))%nat
                         then precise_factor self nlist bulk i s
                         else Fin 1))
              (precise_corrections_of_node (nlist, n_neigh) fvs
                 (Some bulk))
              (nnodes self)
              (repeat (repeat (Fin 1) (Z.to_nat (max_neighbours self)))
                      (Z.to_nat (nnodes self))))
    as (sc & E & Hs & He).
  - split; [apply has_shape_full |]. intros i s Hi Hs.
    rewrite entry_full by trivial. reflexivity.
  - intros k sc1 Hk (Hs1 & He1).
    destruct (@precise_corrections_of_node_ok self nlist n_neigh fvs bulk
                k sc1 Hok Hfv Hk Hs1) as (sc2 & E2 & Hs2 & He2).
    exists sc2. split; [exact E2 |]. split; [exact Hs2 |].
    intros i s Hi Hs. rewrite He2.
    destruct (Nat.eqb_spec i k) as [-> | Hik]; cbn [andb].
    + replace (k <? S k)%nat with true
        by (symmetry; apply Nat.ltb_lt; lia). cbn [andb].
      destruct (s <? Z.to_nat (nth k n_neigh 0%Z))%nat eqn:Elt;
        [reflexivity |].
      rewrite He1 by trivial. now rewrite Elt, andb_false_r.
    + rewrite He1 by trivial.
      destruct (Nat.ltb_spec i k), (Nat.ltb_spec i (S k));
        try reflexivity; lia.
  - exists sc. split; [exact E |]. split; [exact Hs |].
    intros i s Hi Hs'. rewrite He by trivial.
    replace (i <? Z.to_nat (nnodes self))%nat with true
      by (symmetry; now apply Nat.ltb_lt).
    reflexivity.
Qed.

(** What the method returns in the precise mode: for every valid bond
    slot the factor built from the bulk family volume of the model's
    dimension, and 1.0 in the unused slots. *)
Lemma set_stiffness_corrections_precise self horizon nlist n_neigh
    write_path bulk :
  stiffness_input_ok self (nlist, n_neigh) = true ->
  family_volume_bulk_of (dimensions self) horizon = Some bulk ->
  exists sc,
    outcome (_set_stiffness_corrections self horizon (nlist, n_neigh)
               (Some 1) write_path) = Ok sc /\
    forall i s,
      (i < Z.to_nat (nnodes self))%nat ->
      (s < Z.to_nat (max_neighbours self))%nat ->
      entry sc i s =
      Some (if (s <? Z.to_nat (nth i n_neigh 0%Z))%nat
            then precise_factor self nlist bulk i s
            else Fin 1).
Proof.
  intros Hok Hbulk.
  destruct (@stiffness_input_ok_parts _ _ Hok) as (Hc & _ & _ & _).
  destruct (@connectivity_ok_parts _ _ Hc) as (Hn & Hw & _).
  destruct (@family_volumes_of_ok _ _ _ Hok) as (fvs & Efv & _ & Hfv).
  destruct (@precise_corrections_ok self nlist n_neigh fvs bulk Hok Hfv)
    as (sc & E & _ & He).
  exists sc. split; [| exact He].
  unfold _set_stiffness_corrections.
  rewrite (@bind_lift_ok _ _ _ _ _
             (@np_full2_nonneg _ (nnodes self) (max_neighbours self)
                (Fin 1) ltac:(lia) Hw)).
  rewrite (@bind_lift_ok _ _ _ _ _ Efv).
  rewrite Hbulk, (@bind_lift_ok _ _ _ _ _ E).
  destruct write_path; reflexivity.
Qed.

(** In two dimensions the bulk family volume used is
    [pi * horizon^2 * 0.001]. *)
Lemma set_stiffness_corrections_precise_2d self horizon nlist n_neigh
    write_path :
  stiffness_input_ok self (nlist, n_neigh) = true ->
  dimensions self = 2 ->
  exists sc,
    outcome (_set_stiffness_corrections self horizon (nlist, n_neigh)
               (Some 1) write_path) = Ok sc /\
    forall i s,
      (i < Z.to_nat (nnodes self))%nat ->
      (s < Z.to_nat (nth i n_neigh 0%Z))%nat ->
      entry sc i s =
      Some (precise_factor self nlist
              (np_pi * horizon ^ 2 * (1 # 1000))%Q i s).
Proof.
  intros Hok Hd.
  destruct (@set_stiffness_corrections_precise self horizon nlist n_neigh
              write_path (np_pi * horizon ^ 2 * (1 # 1000))%Q Hok)
    as (sc & E & He).
  { unfold family_volume_bulk_of. now rewrite Hd. }
  exists sc. split; [exact E |].
  intros i s Hi Hs.
  destruct (@stiffness_input_ok_parts _ _ Hok) as (Hc & _ & _ & _).
  destruct (@connectivity_ok_parts _ _ Hc) as (_ & _ & Hconn).
  destruct (@conn_ok_counts _ _ _ _ i Hconn Hi) as (nn & Hnn & Hrange).
  rewrite (@nth_error_nth _ _ _ _ 0 Hnn) in Hs.
  rewrite He by lia. rewrite (@nth_error_nth _ _ _ _ 0 Hnn).
  replace (s <? Z.to_nat nn)%nat with true
    by (symmetry; now apply Nat.ltb_lt).
  reflexivity.
Qed.

(** In the "none" mode every factor is exactly 1.0. *)
Lemma set_stiffness_corrections_none self horizon nlist n_neigh write_path :
  stiffness_input_ok self (nlist, n_neigh) = true ->
  outcome (_set_stiffness_corrections self horizon (nlist, n_neigh)
             None write_path) =
  Ok (repeat (repeat (Fin 1) (Z.to_nat (max_neighbours self)))
             (Z.to_nat (nnodes self))).
Proof.
  intros Hok.
  destruct (@stiffness_input_ok_parts _ _ Hok) as (Hc & _ & _ & _).
  destruct (@connectivity_ok_parts _ _ Hc) as (Hn & Hw & _).
  destruct (@family_volumes_of_ok _ _ _ Hok) as (fvs & Efv & _ & _).
  unfold _set_stiffness_corrections.
  rewrite (@bind_lift_ok _ _ _ _ _
             (@np_full2_nonneg _ (nnodes self) (max_neighbours self)
                (Fin 1) ltac:(lia) Hw)).
  rewrite (@bind_lift_ok _ _ _ _ _ Efv).
  destruct write_path; reflexivity.
Qed.

(** Positivity. *)
Lemma fold_left_Qplus_pos (l : list Q) :
  Forall (fun v => 0 < v)%Q l ->
  forall acc, (0 <= acc)%Q -> l <> [] -> (0 < fold_left Qplus l acc)%Q.
Proof.
  induction 1 as [| v l Hv Hl IH]; intros acc Hacc Hne; [congruence |].
  cbn [fold_left]. destruct l as [| w l'].
  - cbn. lra.
  - apply IH; [lra | discriminate].
Qed.

Lemma np_div_pos a b : (0 < a)%Q -> (0 < b)%Q -> f64_pos (np_div a b).
Proof.
  intros Ha Hb. unfold np_div.
  destruct (Qeq_bool b 0) eqn:E.
  - apply Qeq_bool_iff in E. lra.
  - cbn. apply Qlt_shift_div_l; lra.
Qed.

Lemma physical_parts self :
  physical self = true ->
  Forall (fun f => 1 <= f) (family self) /\
  Forall (fun v => 0 < v)%Q (volume self).
Proof.
  unfold physical. rewrite andb_true_iff. intros [Hf Hv].
  rewrite forallb_forall in Hf, Hv. split; apply Forall_forall.
  - intros f Hin. specialize (Hf _ Hin). now apply Z.leb_le in Hf.
  - intros v Hin. specialize (Hv _ Hin).
    destruct (Qlt_le_dec 0 v); [trivial | discriminate].
Qed.

(** Every node with a family of positive volumes has a positive family
    volume. *)
Lemma spec_family_volume_pos self nlist n_neigh i :
  stiffness_input_ok self (nlist, n_neigh) = true ->
  physical self = true ->
  (i < Z.to_nat (nnodes self))%nat ->
  (0 < spec_family_volume (volume self) nlist (family self) i)%Q.
Proof.
  intros Hok Hph Hi.
  destruct (@physical_parts _ Hph) as (Hfam & Hvol).
  destruct (@conn_ok_rows_volume _ _ _ i Hok Hi)
    as (row & fam & Hrow & Efam & Hle & Hfam0 & Hall).
  assert (Hf1 : 1 <= fam).
  { rewrite Forall_forall in Hfam. apply Hfam.
    eapply nth_error_In; eauto. }
  unfold spec_family_volume.
  rewrite (@nth_error_nth _ _ _ _ 0 Efam).
  rewrite (@nth_error_nth _ _ _ _ [] Hrow).
  apply fold_left_Qplus_pos; [| lra |].
  - apply Forall_forall. intros v Hv.
    apply in_map_iff in Hv as (j & <- & Hj).
    apply In_firstn in Hj.
    rewrite Forall_forall in Hall, Hvol.
    specialize (Hall _ Hj). apply Hvol. apply nth_In. lia.
  - destruct row as [| r row']; [cbn in Hle; lia |].
    destruct (Z.to_nat fam) eqn:E; [lia | discriminate].
Qed.

Lemma family_volume_bulk_pos dimensions horizon bulk :
  (0 < horizon)%Q ->
  family_volume_bulk_of dimensions horizon = Some bulk ->
  (0 < bulk)%Q.
Proof.
  intros Hh. unfold family_volume_bulk_of.
  assert (Hpi : (0 < np_pi)%Q) by reflexivity.
  assert (H2 : (0 < horizon * horizon)%Q) by nra.
  destruct (dimensions =? 2); [| destruct (dimensions =? 3)];
    intros H; inversion H; subst; clear H.
  - change (horizon ^ 2)%Q with (horizon * horizon)%Q.
    repeat apply Qmult_lt_0_compat; trivial; reflexivity.
  - change (horizon ^ 3)%Q with (horizon * (horizon * horizon))%Q.
    repeat apply Qmult_lt_0_compat; trivial; reflexivity.
Qed.

(** In the precise mode every correction factor is positive, the unused
    slots included. *)
Lemma precise_mode_factors_positive self horizon nlist n_neigh write_path :
  stiffness_input_ok self (nlist, n_neigh) = true ->
  physical self = true ->
  (0 < horizon)%Q ->
  dimensions self = 2 \/ dimensions self = 3 ->
  exists sc,
    outcome (_set_stiffness_corrections self horizon (nlist, n_neigh)
               (Some 1) write_path) = Ok sc /\
    forall i s,
      (i < Z.to_nat (nnodes self))%nat ->
      (s < Z.to_nat (max_neighbours self))%nat ->
      exists factor, entry sc i s = Some factor /\ f64_pos factor.
Proof.
  intros Hok Hph Hh Hd.
  assert (Hb : exists bulk,
             family_volume_bulk_of (dimensions self) horizon = Some bulk).
  { unfold family_volume_bulk_of.
    destruct Hd as [-> | ->]; cbn; eauto. }
  destruct Hb as (bulk & Hbulk).
  pose proof (@family_volume_bulk_pos _ _ _ Hh Hbulk) as Hpos.
  destruct (@set_stiffness_corrections_precise self horizon nlist n_neigh
              write_path bulk Hok Hbulk) as (sc & E & He).
  exists sc. split; [exact E |].
  intros i s Hi Hs. eexists. split; [apply He; trivial |].
  destruct (s <? Z.to_nat (nth i n_neigh 0%Z))%nat; [| cbn; lra].
  unfold precise_factor.
  destruct (@stiffness_input_ok_parts _ _ Hok) as (Hc & _ & _ & _).
  destruct (@connectivity_ok_parts _ _ Hc) as (_ & _ & Hconn).
  destruct (@conn_ok_rows _ _ _ _ i Hconn Hi) as (row & Hrow & Hlen & Hall).
  rewrite (@nth_error_nth _ _ _ _ [] Hrow).
  assert (Hjr : 0 <= nth s row 0 < nnodes self).
  { rewrite Forall_forall in Hall. apply Hall. apply nth_In. lia. }
  pose proof (@spec_family_volume_pos self nlist n_neigh i Hok Hph Hi).
  pose proof (@spec_family_volume_pos self nlist n_neigh
                (Z.to_nat (nth s row 0)) Hok Hph ltac:(lia)).
  apply np_div_pos; lra.
Qed.

(** ** Calls per bonded pair on a symmetric neighbour list *)

Lemma nodupb_NoDup l : nodupb l = true -> NoDup l.
Proof.
  induction l as [| x t IH]; cbn; intros H; constructor.
  - apply andb_true_iff in H as [H _]. apply negb_true_iff in H.
    intros Hin. assert (existsb (Z.eqb x) t = true); [| congruence].
    apply existsb_exists. exists x. split; [exact Hin | apply Z.eqb_refl].
  - apply IH. now apply andb_true_iff in H as [_ H].
Qed.

Lemma existsb_eqb_In x l : existsb (Z.eqb x) l = true <-> In x l.
Proof.
  rewrite existsb_exists. split.
  - intros (y & Hy & E). apply Z.eqb_eq in E. now subst.
  - intros H. exists x. split; [exact H | apply Z.eqb_refl].
Qed.

Lemma simple_symmetric_parts conn n i :
  simple_symmetric conn n = true -> (i < n)%nat ->
  NoDup (valid_neighbours conn i) /\
  ~ In (Z.of_nat i) (valid_neighbours conn i) /\
  forall j, In j (valid_neighbours conn i) ->
            In (Z.of_nat i) (valid_neighbours conn (Z.to_nat j)).
Proof.
  unfold simple_symmetric. rewrite forallb_forall. intros H Hi.
  specialize (H i). cbv zeta in H.
  rewrite !andb_true_iff in H.
  destruct H as [[H1 H2] H3]; [apply in_seq; lia |].
  split; [now apply nodupb_NoDup |]. split.
  - apply negb_true_iff in H2. intros Hin.
    apply existsb_eqb_In in Hin. congruence.
  - intros j Hj. rewrite forallb_forall in H3.
    apply existsb_eqb_In. now apply H3.
Qed.

Lemma directed_bonds_S conn m :
  directed_bonds conn (S m) =
  directed_bonds conn m ++
  map (fun j => (Z.of_nat m, j)) (valid_neighbours conn m).
Proof.
  unfold directed_bonds, valid_neighbours.
  rewrite seq_S, flat_map_app. cbn [flat_map Nat.add].
  now rewrite app_nil_r.
Qed.

Lemma In_directed_bonds conn m a b :
  In (a, b) (directed_bonds conn m) <->
  exists i, (i < m)%nat /\ a = Z.of_nat i /\ In b (valid_neighbours conn i).
Proof.
  unfold directed_bonds, valid_neighbours. rewrite in_flat_map. split.
  - intros (i & Hi & Hin). apply in_seq in Hi.
    apply in_map_iff in Hin as (j & E & Hj). inversion E; subst.
    exists i. repeat split; trivial. lia.
  - intros (i & Hi & -> & Hb). exists i. split; [apply in_seq; lia |].
    apply in_map_iff. eauto.
Qed.

Lemma NoDup_directed_bonds conn n m :
  simple_symmetric conn n = true -> (m <= n)%nat ->
  NoDup (directed_bonds conn m).
Proof.
  intros Hs. induction m as [| m IH]; intros Hm; [constructor |].
  rewrite directed_bonds_S. apply NoDup_app.
  - apply IH. lia.
  - destruct (@simple_symmetric_parts conn n m Hs) as (Hnd & _); [lia |].
    apply NoDup_map_NoDup_ForallPairs; [| exact Hnd].
    intros x y _ _ E. now inversion E.
  - intros [a b] Hin Hin'.
    apply In_directed_bonds in Hin as (i & Hi & -> & _).
    apply in_map_iff in Hin' as (j & E & _). inversion E. lia.
Qed.

Lemma pair_hits_count l i j :
  i <> j ->
  pair_hits l i j =
  (count_occ pair_eq_dec l (i, j) + count_occ pair_eq_dec l (j, i))%nat.
Proof.
  intros Hne. unfold pair_hits.
  induction l as [| [a b] l IH]; [reflexivity |].
  cbn [filter count_occ fst snd].
  destruct (pair_eq_dec (a, b) (i, j)) as [E | E].
  - inversion E; subst. rewrite !Z.eqb_refl. cbn [andb orb length].
    destruct (pair_eq_dec (i, j) (j, i)) as [E' | _];
      [inversion E'; congruence |].
    rewrite IH. lia.
  - destruct (pair_eq_dec (a, b) (j, i)) as [E' | E'].
    + inversion E'; subst. rewrite !Z.eqb_refl.
      rewrite orb_true_r. cbn [length]. rewrite IH. lia.
    + replace ((a =? i) && (b =? j) || (a =? j) && (b =? i)) with false;
        [exact IH |].
      symmetry. apply orb_false_iff. split; apply andb_false_iff.
      * destruct (Z.eqb_spec a i), (Z.eqb_spec b j); auto. congruence.
      * destruct (Z.eqb_spec a j), (Z.eqb_spec b i); auto. congruence.
Qed.

Lemma bond_type_calls_pair_hits l write_path i j :
  bond_type_calls_on_pair
    (map bond_type_event l ++ material_types_written write_path) i j =
  pair_hits l i j.
Proof.
  unfold bond_type_calls_on_pair, pair_hits.
  rewrite filter_app, length_app.
  replace (length (filter _ (material_types_written write_path)))
    with O by (destruct write_path; reflexivity).
  rewrite Nat.add_0_r, filter_map_comm, length_map. reflexivity.
Qed.

Lemma crack_calls_pair_hits l i j :
  crack_calls_on_pair (map crack_function_event l) i j = pair_hits l i j.
Proof.
  unfold crack_calls_on_pair, pair_hits.
  rewrite filter_map_comm, length_map. reflexivity.
Qed.

(** On a symmetric neighbour list every bonded pair is listed twice among
    the directed bonds and once among the ascending ones. *)
Lemma bonded_pair_hits conn n i j :
  simple_symmetric conn n = true ->
  (i < n)%nat -> In j (valid_neighbours conn i) -> (Z.to_nat j < n)%nat ->
  0 <= j ->
  pair_hits (directed_bonds conn n) (Z.of_nat i) j = 2%nat /\
  pair_hits (ascending_bonds conn n) (Z.of_nat i) j = 1%nat.
Proof.
  intros Hs Hi Hj Hjn Hj0.
  destruct (@simple_symmetric_parts conn n i Hs Hi) as (_ & Hself & Hsym).
  assert (Hne : Z.of_nat i <> j) by (intros E; subst j; contradiction).
  pose proof (Hsym _ Hj) as Hback.
  assert (H1 : In (Z.of_nat i, j) (directed_bonds conn n)).
  { apply In_directed_bonds. eauto. }
  assert (H2 : In (j, Z.of_nat i) (directed_bonds conn n)).
  { apply In_directed_bonds. exists (Z.to_nat j).
    repeat split; trivial. lia. }
  pose proof (@NoDup_directed_bonds conn n n Hs (le_n n)) as Hnd.
  split.
  - rewrite pair_hits_count by trivial.
    rewrite (proj1 (NoDup_count_occ' pair_eq_dec _) Hnd _ H1).
    rewrite (proj1 (NoDup_count_occ' pair_eq_dec _) Hnd _ H2).
    reflexivity.
  - rewrite pair_hits_count by trivial.
    pose proof (NoDup_filter (fun p : Z * Z => fst p <? snd p) Hnd) as Hnd'.
    fold (ascending_bonds conn n) in Hnd'.
    destruct (Z_lt_le_dec (Z.of_nat i) j) as [Hlt | Hge].
    + assert (Ha : In (Z.of_nat i, j) (ascending_bonds conn n)).
      { apply filter_In. split; [exact H1 |]. now apply Z.ltb_lt. }
      assert (Hb : ~ In (j, Z.of_nat i) (ascending_bonds conn n)).
      { intros Hin. apply filter_In in Hin as [_ Hin].
        apply Z.ltb_lt in Hin. cbn in Hin. lia. }
      rewrite (proj1 (NoDup_count_occ' pair_eq_dec _) Hnd' _ Ha).
      rewrite (proj1 (count_occ_not_In pair_eq_dec _ _) Hb).
      reflexivity.
    + assert (Ha : In (j, Z.of_nat i) (ascending_bonds conn n)).
      { apply filter_In. split; [exact H2 |]. apply Z.ltb_lt. cbn. lia. }
      assert (Hb : ~ In (Z.of_nat i, j) (ascending_bonds conn n)).
      { intros Hin. apply filter_In in Hin as [_ Hin].
        apply Z.ltb_lt in Hin. cbn in Hin. lia. }
      rewrite (proj1 (NoDup_count_occ' pair_eq_dec _) Hnd' _ Ha).
      rewrite (proj1 (count_occ_not_In pair_eq_dec _ _) Hb).
      reflexivity.
Qed.

(** * Further properties of the setup methods *)

(** ** Entries of a list after an update *)

Lemma nth_set_nth_ne (l : list Q) (k k' : nat) (v : Q) :
  k <> k' -> nth k' (set_nth l k v) 0%Q = nth k' l 0%Q.
Proof.
  revert k k'. induction l as [| x l IH]; intros [| k] [| k'] H;
    cbn; auto; congruence.
Qed.

Lemma nth_set_nth_eq (l : list Q) (k : nat) (v : Q) :
  (k < length l)%nat -> nth k (set_nth l k v) 0%Q = v.
Proof.
  revert k. induction l as [| x l IH]; intros [| k] H; cbn in H |- *;
    try lia; auto. apply IH. lia.
Qed.

Lemma map_nth_seq (l : list Q) :
  map (fun n => nth n l 0%Q) (seq 0 (length l)) = l.
Proof.
  induction l as [| x l IH]; [reflexivity |].
  cbn [length seq map nth]. f_equal.
  rewrite <- seq_shift, map_map. exact IH.
Qed.

(** ** Nodal volumes *)

Lemma getitem_nth {A} (a : list A) (d : A) (n : Z) :
  0 <= n < Z.of_nat (length a) ->
  getitem a n = Ok (nth (Z.to_nat n) a d).
Proof.
  intros H. rewrite <- (Z2Nat.id n) at 1 by lia.
  apply getitem_of_nat. apply nth_error_nth'. lia.
Qed.

Lemma setitem_in_range {A} (l : list A) (n : Z) (v : A) :
  0 <= n < Z.of_nat (length l) ->
  setitem l n v = Ok (set_nth l (Z.to_nat n) v).
Proof.
  intros H. rewrite <- (Z2Nat.id n) at 1 by lia.
  apply setitem_of_nat. lia.
Qed.

Lemma take_rows_acc {A} (a : list A) (d : A) (nodes : list Z) :
  Forall (fun n => 0 <= n < Z.of_nat (length a)) nodes ->
  forall acc,
    for_ nodes acc (fun n acc => r <~ getitem a n ;; Ok (acc ++ [r])) =
    Ok (acc ++ map (fun n => nth (Z.to_nat n) a d) nodes).
Proof.
  induction 1 as [| n nodes Hn _ IH]; intros acc; cbn [for_ map].
  - now rewrite app_nil_r.
  - rewrite (@getitem_nth _ a d n Hn). cbn [rbind].
    rewrite IH, <- app_assoc. reflexivity.
Qed.

Lemma take_rows_ok {A} (a : list A) (d : A) (nodes : list Z) :
  Forall (fun n => 0 <= n < Z.of_nat (length a)) nodes ->
  take_rows a nodes = Ok (map (fun n => nth (Z.to_nat n) a d) nodes).
Proof. intros H. unfold take_rows. now rewrite (@take_rows_acc _ a d nodes H). Qed.

(** [volume[nodes] += x]: an entry that [nodes] selects becomes its old
    value plus [x], whatever the number of times it is selected; the
    other entries are kept. *)
Lemma iadd_at_acc (volume : list Q) (x : Q) (nodes : list Z) :
  Forall (fun n => 0 <= n < Z.of_nat (length volume)) nodes ->
  forall acc,
    length acc = length volume ->
    exists v',
      for_ nodes acc (fun n acc =>
        old <~ getitem volume n ;; setitem acc n (old + x)%Q) = Ok v' /\
      length v' = length volume /\
      forall k, (k < length volume)%nat ->
        nth k v' 0%Q =
        if existsb (Z.eqb (Z.of_nat k)) nodes
        then (nth k volume 0 + x)%Q else nth k acc 0%Q.
Proof.
  induction 1 as [| n nodes Hn Hr IH]; intros acc Hlen.
  - exists acc. cbn. auto.
  - cbn [for_]. rewrite (@getitem_nth _ volume 0%Q n Hn). cbn [rbind].
    rewrite setitem_in_range by lia. cbn [rbind].
    destruct (IH (set_nth acc (Z.to_nat n)
                    (nth (Z.to_nat n) volume 0 + x)%Q))
      as (v' & E & Hl & Hv).
    + now rewrite length_set_nth.
    + exists v'. split; [exact E |]. split; [exact Hl |].
      intros k Hk. rewrite (Hv k Hk). cbn [existsb].
      destruct (existsb (Z.eqb (Z.of_nat k)) nodes).
      * now rewrite orb_true_r.
      * rewrite orb_false_r.
        destruct (Z.eqb_spec (Z.of_nat k) n) as [Heq | Hne].
        -- subst n. rewrite Nat2Z.id. apply nth_set_nth_eq. lia.
        -- apply nth_set_nth_ne. lia.
Qed.

Lemma iadd_at_ok (volume : list Q) (x : Q) (nodes : list Z) :
  Forall (fun n => 0 <= n < Z.of_nat (length volume)) nodes ->
  exists v',
    iadd_at volume nodes x = Ok v' /\
    length v' = length volume /\
    forall k, (k < length volume)%nat ->
      nth k v' 0%Q =
      if existsb (Z.eqb (Z.of_nat k)) nodes
      then (nth k volume 0 + x)%Q else nth k volume 0%Q.
Proof.
  intros Hr. unfold iadd_at.
  apply (@iadd_at_acc volume x nodes Hr); auto.
Qed.

Lemma cell_ok_parts nnodes k nodes :
  cell_ok nnodes k nodes = true ->
  length nodes = k /\ NoDup nodes /\
  Forall (fun n => 0 <= n < nnodes) nodes.
Proof.
  unfold cell_ok. rewrite !andb_true_iff. intros [[Hl Hd] Hr].
  apply Nat.eqb_eq in Hl. split; [exact Hl |].
  split; [now apply nodupb_NoDup |].
  apply Forall_forall. intros n Hn. rewrite forallb_forall in Hr.
  specialize (Hr _ Hn). apply andb_true_iff in Hr as [H1 H2].
  apply Z.leb_le in H1. apply Z.ltb_lt in H2. lia.
Qed.

Lemma np_full_nonneg {A} (n : Z) (v : A) :
  0 <= n -> np_full n v = Ok (repeat v (Z.to_nat n)).
Proof.
  intros H. unfold np_full.
  now replace (n <? 0) with false by (symmetry; apply Z.ltb_ge; lia).
Qed.

(** X1: on a transfinite mesh with at least one node, [_volume] returns
    one volume per node, each of them the quotient of the total volume by
    the number of nodes, and hands the total volume back as the second
    component of the result.  Neither the coordinates nor the cells are
    looked at. *)
Theorem volume_transfinite_is_uniform :
  forall (ext : Externals) (nnodes dimensions : Z) (coords : list (list Q))
         (cells : list (list Z)) (transfinite : Z) (total : Q),
    transfinite <> 0 ->
    0 < nnodes ->
    exists vol,
      _volume ext nnodes dimensions coords cells transfinite (Some total) =
        Ok (vol, total) /\
      length vol = Z.to_nat nnodes /\
      Forall (fun v => v == total / inject_Z nnodes)%Q vol.
Proof.
  intros ext nnodes dimensions coords cells transfinite total Ht Hn.
  unfold _volume.
  rewrite !np_full_nonneg by lia. cbn [rbind].
  replace (transfinite =? 0) with false by (symmetry; now apply Z.eqb_neq).
  replace (nnodes =? 0) with false by (symmetry; apply Z.eqb_neq; lia).
  cbn [negb]. rewrite map_repeat.
  eexists. split; [reflexivity |].
  split; [apply repeat_length |].
  apply Forall_forall. intros v Hv. apply repeat_spec in Hv. subst v.
  ring.
Qed.

(** Six nodes and a total volume of 1: every node gets a sixth, and no
    cell is needed. *)
Lemma volume_transfinite_is_uniform_witness :
  exists vol,
    _volume Fixture.ext 6 3 [] [] 1 (Some 1%Q) = Ok (vol, 1%Q) /\
    length vol = 6%nat /\
    Forall (fun v => v == 1 # 6)%Q vol.
Proof.
  assert (Ht : 1 <> 0) by lia.
  assert (Hn : 0 < 6) by lia.
  destruct (@volume_transfinite_is_uniform Fixture.ext 6 3 [] [] 1 1%Q
              Ht Hn) as (vol & E & Hl & Hv).
  exists vol. split; [exact E |]. split; [exact Hl |].
  eapply Forall_impl; [| exact Hv].
  intros v Hq. cbn beta in Hq. rewrite Hq. reflexivity.
Defined.

Lemma mesh_ok_parts nnodes dimensions coords cells :
  mesh_ok nnodes dimensions coords cells = true ->
  Z.of_nat (length coords) = nnodes /\
  Forall (fun x => length x = 3%nat) coords /\
  Forall (fun nodes =>
            cell_ok nnodes (Z.to_nat dimensions + 1) nodes = true) cells.
Proof.
  unfold mesh_ok. rewrite !andb_true_iff. intros [[Hl Hc] Hcells].
  apply Z.eqb_eq in Hl. split; [exact Hl |]. split.
  - apply Forall_forall. intros x Hx. rewrite forallb_forall in Hc.
    now apply Nat.eqb_eq, Hc.
  - apply Forall_forall. intros x Hx. rewrite forallb_forall in Hcells.
    now apply Hcells.
Qed.

Lemma nth_coords_length3 (coords : list (list Q)) (n : Z) :
  Forall (fun x => length x = 3%nat) coords ->
  0 <= n < Z.of_nat (length coords) ->
  exists a0 a1 a2, nth (Z.to_nat n) coords [] = [a0; a1; a2].
Proof.
  intros Hc Hn. rewrite Forall_forall in Hc.
  assert (H : length (nth (Z.to_nat n) coords []) = 3%nat)
    by (apply Hc, nth_In; lia).
  destruct (nth (Z.to_nat n) coords []) as [| a0 [| a1 [| a2 [| ? ?]]]];
    try discriminate.
  eauto.
Qed.

(** X2: on a mesh of triangles (two dimensions) or tetrahedra (three
    dimensions) whose cells each name different nodes of the mesh,
    [_volume] succeeds and returns exactly this: for every node, starting
    from zero, the shares [element_volume / (dimensions + 1)] of the cells
    the node is a corner of, added one after the other in the order of
    the cells; and, as second component, the element volumes of all
    cells added one after the other from zero.  The element volume of a
    triangle is half the norm of the cross product of its edges from the
    first corner, that of a tetrahedron a sixth of the absolute value of
    the triple product of its edges to the last corner.  Every addition,
    product and quotient is the one the method performs, in its order. *)
Theorem volume_distributes_element_volumes :
  forall (ext : Externals) (nnodes dimensions : Z) (coords : list (list Q))
         (cells : list (list Z)) (total : option Q),
    dimensions = 2 \/ dimensions = 3 ->
    mesh_ok nnodes dimensions coords cells = true ->
    _volume ext nnodes dimensions coords cells 0 total =
      Ok (map (fun n => nodal_volume_from ext dimensions coords cells n 0%Q)
              (seq 0 (Z.to_nat nnodes)),
          total_volume_from ext dimensions coords cells 0%Q).
Proof.
  intros ext nnodes dimensions coords cells total Hd Hok.
  destruct (@mesh_ok_parts _ _ _ _ Hok) as (Hlen & Hc & Hcells).
  unfold _volume. rewrite np_full_nonneg by lia. cbn [rbind].
  change (0 =? 0) with true. cbn [negb].
  match goal with
  | |- context [for_ cells _ ?b] => set (body := b)
  end.
  assert (Hgen : forall vol0 s0,
            length vol0 = Z.to_nat nnodes ->
            for_ cells (vol0, s0) body =
            Ok (map (fun n => nodal_volume_from ext dimensions coords cells
                                n (nth n vol0 0%Q))
                    (seq 0 (Z.to_nat nnodes)),
                total_volume_from ext dimensions coords cells s0)).
  { clear Hok.
    induction Hcells as [| nodes cells Hcell _ IH]; intros vol0 s0 Hl0.
    - cbn [for_ nodal_volume_from total_volume_from fold_left].
      rewrite <- Hl0, map_nth_seq. reflexivity.
    - cbn [for_].
      assert (Hstep : exists vol1,
                body nodes (vol0, s0) =
                  Ok (vol1,
                      (s0 + element_volume ext dimensions coords nodes)%Q) /\
                length vol1 = length vol0 /\
                forall k, (k < length vol0)%nat ->
                  nth k vol1 0%Q =
                  if existsb (Z.eqb (Z.of_nat k)) nodes
                  then (nth k vol0 0 +
                        element_volume ext dimensions coords nodes /
                        inject_Z (dimensions + 1))%Q
                  else nth k vol0 0%Q).
      { apply cell_ok_parts in Hcell as (Hk & _ & Hr).
        assert (Hr1 : Forall (fun n => 0 <= n < Z.of_nat (length coords))
                        nodes)
          by (rewrite Hlen; exact Hr).
        assert (Hr2 : Forall (fun n => 0 <= n < Z.of_nat (length vol0))
                        nodes).
        { rewrite Hl0. eapply Forall_impl; [| exact Hr]. cbn. lia. }
        unfold body. cbn beta iota.
        rewrite (@take_rows_ok _ coords [] nodes Hr1).
        unfold element_volume, corner.
        destruct Hd as [-> | ->].
        - change (2 =? 2) with true. cbn iota.
          destruct nodes as [| n0 [| n1 [| n2 [| ? ?]]]]; try discriminate.
          inversion Hr1 as [| ? ? H0 Hr1']; subst.
          inversion Hr1' as [| ? ? H1 Hr1'']; subst.
          inversion Hr1'' as [| ? ? H2 _]; subst.
          cbn [map nth].
          destruct (@nth_coords_length3 _ _ Hc H0) as (a0 & a1 & a2 & ->).
          destruct (@nth_coords_length3 _ _ Hc H1) as (b0 & b1 & b2 & ->).
          destruct (@nth_coords_length3 _ _ Hc H2) as (c0 & c1 & c2 & ->).
          cbn [rbind map vec_sub zip_with np_cross read_local nth].
          match goal with
          | |- context [iadd_at vol0 ?ns ?x] =>
              destruct (@iadd_at_ok vol0 x ns Hr2) as (v1 & -> & Hl1 & Hv1)
          end.
          cbn [rbind]. exists v1. split; [reflexivity |].
          split; [exact Hl1 |]. exact Hv1.
        - change (3 =? 2) with false. change (3 =? 3) with true. cbn iota.
          destruct nodes as [| n0 [| n1 [| n2 [| n3 [| ? ?]]]]];
            try discriminate.
          inversion Hr1 as [| ? ? H0 Hr1']; subst.
          inversion Hr1' as [| ? ? H1 Hr1'']; subst.
          inversion Hr1'' as [| ? ? H2 Hr1''']; subst.
          inversion Hr1''' as [| ? ? H3 _]; subst.
          cbn [map nth].
          destruct (@nth_coords_length3 _ _ Hc H0) as (a0 & a1 & a2 & ->).
          destruct (@nth_coords_length3 _ _ Hc H1) as (b0 & b1 & b2 & ->).
          destruct (@nth_coords_length3 _ _ Hc H2) as (c0 & c1 & c2 & ->).
          destruct (@nth_coords_length3 _ _ Hc H3) as (d0 & d1 & d2 & ->).
          cbn [rbind map vec_sub zip_with np_cross np_dot length Nat.eqb
               read_local nth fold_left].
          match goal with
          | |- context [iadd_at vol0 ?ns ?x] =>
              destruct (@iadd_at_ok vol0 x ns Hr2) as (v1 & -> & Hl1 & Hv1)
          end.
          cbn [rbind]. exists v1. split; [reflexivity |].
          split; [exact Hl1 |]. exact Hv1. }
      destruct Hstep as (vol1 & -> & Hl1 & Hv1). cbn [rbind].
      rewrite IH by congruence.
      f_equal. f_equal. apply map_ext_in. intros k Hk.
      apply in_seq in Hk.
      rewrite Hv1 by lia.
      unfold nodal_volume_from. cbn [fold_left].
      destruct (existsb (Z.eqb (Z.of_nat k)) nodes); reflexivity. }
  rewrite Hgen by apply repeat_length.
  f_equal. f_equal. apply map_ext_in. intros k Hk. apply in_seq in Hk.
  f_equal. apply nth_repeat_lt. lia.
Qed.

(** A unit square cut into the triangles 0-1-2 and 1-3-2, each of area
    1/2: the two nodes on the diagonal get a sixth from each triangle,
    the other two a sixth from one, and the areas add up to 1. *)
Lemma volume_distributes_element_volumes_witness :
  exists vol sum_total,
    _volume Fixture.ext 4 2
      [[0; 0; 0]; [1; 0; 0]; [0; 1; 0]; [1; 1; 0]]%Q
      [[0; 1; 2]; [1; 3; 2]] 0 None = Ok (vol, sum_total) /\
    map Qred vol = [1 # 6; 1 # 3; 1 # 3; 1 # 6]%Q /\
    Qred sum_total = 1%Q.
Proof.
  assert (Hd : 2 = 2 \/ 2 = 3) by now left.
  assert (Hok : mesh_ok 4 2 [[0; 0; 0]; [1; 0; 0]; [0; 1; 0]; [1; 1; 0]]%Q
                  [[0; 1; 2]; [1; 3; 2]] = true)
    by (vm_compute; reflexivity).
  eexists _, _. split.
  - exact (@volume_distributes_element_volumes Fixture.ext 4 2
             [[0; 0; 0]; [1; 0; 0]; [0; 1; 0]; [1; 1; 0]]%Q
             [[0; 1; 2]; [1; 3; 2]] None Hd Hok).
  - split; vm_compute; reflexivity.
Defined.

(** ** The material types stored *)

Lemma material_type_of_slot_entry self nlist n_neigh bond_type i k mt :
  connectivity_ok self (nlist, n_neigh) = true ->
  fits_intc bond_type ->
  (i < Z.to_nat (nnodes self))%nat ->
  (k < Z.to_nat (max_neighbours self))%nat ->
  has_shape mt (Z.to_nat (nnodes self)) (Z.to_nat (max_neighbours self)) ->
  exists mt',
    material_type_of_slot self nlist bond_type (Z.of_nat i) (Z.of_nat k) mt
    = ([EvBondType (Z.of_nat i) (nth k (nth i (nd_rows nlist) []) 0)],
       Ok mt') /\
    has_shape mt' (Z.to_nat (nnodes self))
              (Z.to_nat (max_neighbours self)) /\
    entry mt' i k =
      Some (bond_type
              (nth i (coords self) [])
              (nth (Z.to_nat (nth k (nth i (nd_rows nlist) []) 0))
                   (coords self) [])) /\
    (forall i' k', (i', k') <> (i, k) -> entry mt' i' k' = entry mt i' k').
Proof.
  intros Hok Hfit Hi Hk Hs.
  destruct (@connectivity_ok_parts _ _ Hok) as (Hc & Hw & Hconn).
  destruct (@conn_ok_rows _ _ _ _ i Hconn Hi) as (row & Hrow & Hlen & Hin).
  rewrite (@nth_error_nth _ _ _ _ [] Hrow).
  assert (Hj : nth_error row k = Some (nth k row 0))
    by (apply nth_error_nth'; lia).
  set (j := nth k row 0) in *.
  assert (Hjr : 0 <= j < nnodes self).
  { rewrite Forall_forall in Hin. apply Hin. eapply nth_error_In; eauto. }
  assert (Hxi : getitem (coords self) (Z.of_nat i) =
                Ok (nth i (coords self) [])).
  { rewrite (@getitem_nth _ (coords self) [] (Z.of_nat i)) by lia.
    now rewrite Nat2Z.id. }
  assert (Hxj : getitem (coords self) j =
                Ok (nth (Z.to_nat j) (coords self) []))
    by (apply getitem_nth; lia).
  assert (He : entry (nd_rows nlist) i k = Some j)
    by (unfold entry; now rewrite Hrow).
  destruct (@store_intc_ok mt _ _ i k
              (bond_type (nth i (coords self) [])
                 (nth (Z.to_nat j) (coords self) [])) Hs Hi Hk
              (Hfit _ _))
    as (mt' & Hset & Hs' & He' & Ho').
  exists mt'. split; [| split; [exact Hs' | split; [exact He' | exact Ho']]].
  unfold material_type_of_slot.
  rewrite (@bind_lift_ok _ _ _ _ _ (@getitem2_of_nat _ _ _ _ _ He)).
  rewrite (@bind_lift_ok _ _ _ _ _ Hxi), (@bind_lift_ok _ _ _ _ _ Hxj).
  rewrite Hset. reflexivity.
Qed.

Lemma material_types_of_node_entries self nlist n_neigh bond_type i mt :
  connectivity_ok self (nlist, n_neigh) = true ->
  fits_intc bond_type ->
  (i < Z.to_nat (nnodes self))%nat ->
  has_shape mt (Z.to_nat (nnodes self)) (Z.to_nat (max_neighbours self)) ->
  exists t mt',
    material_types_of_node self (nlist, n_neigh) bond_type (Z.of_nat i) mt
    = (t, Ok mt') /\
    has_shape mt' (Z.to_nat (nnodes self))
              (Z.to_nat (max_neighbours self)) /\
    forall i' k,
      entry mt' i' k =
      if ((i' =? i) && (k <? Z.to_nat (nth i n_neigh 0%Z)))%nat
      then Some (material_type_entry self (nlist, n_neigh) bond_type i k)
      else entry mt i' k.
Proof.
  intros Hok Hfit Hi Hs.
  destruct (@connectivity_ok_parts _ _ Hok) as (Hc & Hw & Hconn).
  destruct (@conn_ok_counts _ _ _ _ i Hconn Hi) as (nn & Hnn & Hrange).
  unfold material_types_of_node.
  rewrite (@bind_lift_ok _ _ _ _ _ (@getitem_of_nat _ _ _ _ Hnn)).
  unfold material_type_entry. cbn [fst snd].
  rewrite (@nth_error_nth _ _ _ _ 0 Hnn).
  destruct (@forM_range_inv _
              (fun k0 mt' =>
                 has_shape mt' (Z.to_nat (nnodes self))
                           (Z.to_nat (max_neighbours self)) /\
                 forall i' k,
                   entry mt' i' k =
                   if ((i' =? i) && (k <? k0))%nat
                   then Some (bond_type
                                (nth i (coords self) [])
                                (nth (Z.to_nat
                                        (nth k (nth i (nd_rows nlist) []) 0))
                                     (coords self) []))
                   else entry mt i' k)
              (fun k => [EvBondType (Z.of_nat i)
                           (nth k (nth i (nd_rows nlist) []) 0)])
              (material_type_of_slot self nlist bond_type (Z.of_nat i))
              nn mt) as (mt' & E & Hs' & He').
  - split; [exact Hs |]. intros i' k.
    replace (k <? 0)%nat with false by (symmetry; apply Nat.ltb_ge; lia).
    now rewrite andb_false_r.
  - intros k0 mt1 Hk0 (Hs1 & He1).
    assert (Hk0w : (k0 < Z.to_nat (max_neighbours self))%nat) by lia.
    destruct (@material_type_of_slot_entry self nlist n_neigh bond_type
                i k0 mt1 Hok Hfit Hi Hk0w Hs1)
      as (mt2 & E2 & Hs2 & He2 & Ho2).
    exists mt2. split; [exact E2 |]. split; [exact Hs2 |].
    intros i' k.
    destruct (Nat.eq_dec i' i) as [-> | Hii];
      [destruct (Nat.eq_dec k k0) as [-> | Hkk] |].
    + rewrite He2, Nat.eqb_refl. cbn [andb].
      replace (k0 <? S k0)%nat with true
        by (symmetry; apply Nat.ltb_lt; lia).
      reflexivity.
    + rewrite Ho2 by congruence. rewrite He1, Nat.eqb_refl. cbn [andb].
      destruct (Nat.ltb_spec k k0), (Nat.ltb_spec k (S k0));
        try reflexivity; lia.
    + rewrite Ho2 by congruence. rewrite He1.
      replace (i' =? i)%nat with false
        by (symmetry; now apply Nat.eqb_neq).
      reflexivity.
  - eexists _, mt'. split; [exact E |]. split; [exact Hs' |].
    intros i' k. rewrite He'.
    destruct ((i' =? i) && (k <? Z.to_nat nn))%nat eqn:Eb; [| reflexivity].
    apply andb_true_iff in Eb as [_ Eb]. now rewrite Eb.
Qed.

(** The loop over the nodes: every slot of the array is accounted for. *)
Lemma material_types_loop_entries self conn bond_type :
  connectivity_ok self conn = true ->
  fits_intc bond_type ->
  exists t mt,
    forM (range (nnodes self))
      (repeat (repeat 0 (Z.to_nat (max_neighbours self)))
              (Z.to_nat (nnodes self)))
      (material_types_of_node self conn bond_type) = (t, Ok mt) /\
    has_shape mt (Z.to_nat (nnodes self))
              (Z.to_nat (max_neighbours self)) /\
    forall i k,
      (i < Z.to_nat (nnodes self))%nat ->
      (k < Z.to_nat (max_neighbours self))%nat ->
      entry mt i k = Some (material_type_entry self conn bond_type i k).
Proof.
  intros Hok Hfit. destruct conn as [nlist n_neigh].
  assert (Hgen : forall n a mt0,
    (a + n <= Z.to_nat (nnodes self))%nat ->
    has_shape mt0 (Z.to_nat (nnodes self))
              (Z.to_nat (max_neighbours self)) ->
    exists t mt,
      forM (map Z.of_nat (seq a n)) mt0
        (material_types_of_node self (nlist, n_neigh) bond_type) =
        (t, Ok mt) /\
      has_shape mt (Z.to_nat (nnodes self))
                (Z.to_nat (max_neighbours self)) /\
      forall i k,
        entry mt i k =
        if ((a <=? i) && (i <? a + n) &&
            (k <? Z.to_nat (nth i n_neigh 0%Z)))%nat
        then Some (material_type_entry self (nlist, n_neigh) bond_type i k)
        else entry mt0 i k).
  { induction n as [| n IH]; intros a mt0 Ha Hs0.
    - exists [], mt0. split; [reflexivity |]. split; [exact Hs0 |].
      intros i k.
      destruct (Nat.leb_spec a i), (Nat.ltb_spec i (a + 0));
        cbn [andb]; try reflexivity; lia.
    - cbn [seq map forM].
      destruct (@material_types_of_node_entries self nlist n_neigh
                  bond_type a mt0 Hok Hfit ltac:(lia) Hs0)
        as (t1 & mt1 & E1 & Hs1 & He1).
      destruct (IH (S a) mt1 ltac:(lia) Hs1) as (t2 & mt2 & E2 & Hs2 & He2).
      exists (t1 ++ t2), mt2. split.
      + rewrite (bind_ok _ E1), E2. reflexivity.
      + split; [exact Hs2 |]. intros i k. rewrite He2, He1.
        destruct (Nat.eqb_spec i a) as [-> | Hia].
        * replace (S a <=? a)%nat with false
            by (symmetry; apply Nat.leb_gt; lia).
          rewrite Nat.leb_refl.
          replace (a <? a + S n)%nat with true
            by (symmetry; apply Nat.ltb_lt; lia).
          reflexivity.
        * cbn [andb].
          destruct (Nat.leb_spec (S a) i), (Nat.leb_spec a i),
                   (Nat.ltb_spec i (S a + n)), (Nat.ltb_spec i (a + S n));
            cbn [andb]; try reflexivity; lia. }
  destruct (Hgen (Z.to_nat (nnodes self)) O
              (repeat (repeat 0 (Z.to_nat (max_neighbours self)))
                      (Z.to_nat (nnodes self)))
              ltac:(lia) (@has_shape_full _ _ _ _))
    as (t & mt & E & Hs & He).
  exists t, mt. split; [exact E |]. split; [exact Hs |].
  intros i k Hi Hk. rewrite He. cbn [Nat.leb andb Nat.add].
  replace (i <? Z.to_nat (nnodes self))%nat with true
    by (symmetry; now apply Nat.ltb_lt).
  cbn [andb]. unfold material_type_entry. cbn [snd].
  destruct (k <? Z.to_nat (nth i n_neigh 0%Z))%nat; [reflexivity |].
  now rewrite entry_full.
Qed.

(** X3: on a connectivity that fits the model, and with a [bond_type]
    whose answers fit a C int, [_set_material_types] returns an array of
    shape (nnodes, max_neighbours) in which slot [k] of node [i] holds
    [bond_type(coords[i], coords[nlist[i][k]])] when [k < n_neigh[i]],
    and 0 in the unused slots behind. *)
Theorem material_types_hold_the_bond_types :
  forall (self : Self) (conn : connectivity_t)
         (bond_type : list Q -> list Q -> Z) (write_path : option string),
    connectivity_ok self conn = true ->
    fits_intc bond_type ->
    exists mt,
      outcome (_set_material_types self conn bond_type write_path) = Ok mt /\
      has_shape mt (Z.to_nat (nnodes self))
                (Z.to_nat (max_neighbours self)) /\
      forall i k,
        (i < Z.to_nat (nnodes self))%nat ->
        (k < Z.to_nat (max_neighbours self))%nat ->
        entry mt i k = Some (material_type_entry self conn bond_type i k).
Proof.
  intros self conn bond_type write_path Hok Hfit.
  destruct (@connectivity_ok_parts _ _ Hok) as (Hc & Hw & Hconn).
  destruct (@material_types_loop_entries self conn bond_type Hok Hfit)
    as (t & mt & E & Hs & He).
  exists mt. split; [| split; [exact Hs | exact He]].
  unfold _set_material_types. destruct conn as [nlist n_neigh].
  rewrite (@bind_lift_ok _ _ _ _ _
             (@np_full2_nonneg _ (nnodes self) (max_neighbours self) 0
                ltac:(lia) Hw)).
  rewrite (@bind_ok _ _ _ _ _ _ E).
  destruct write_path; reflexivity.
Qed.

Lemma two_materials_fits : fits_intc Fixture.two_materials.
Proof.
  intros x y. unfold Fixture.two_materials.
  destruct x as [| x0 [| x1 [| x2 [| x3 x]]]]; try lia.
  destruct (Qeq_bool x0 0); lia.
Qed.

(** On the triangle, with two materials: the bonds of node 0, which lies
    in the plane [x = 0], get type 1, and the first bond of node 1, which
    does not, gets type 2. *)
Lemma material_types_hold_the_bond_types_witness :
  connectivity_ok (attrs Fixture.triangle_model)
    (initial_connectivity Fixture.triangle_model) = true /\
  fits_intc Fixture.two_materials /\
  exists mt,
    outcome (_set_material_types (attrs Fixture.triangle_model)
               (initial_connectivity Fixture.triangle_model)
               Fixture.two_materials None) = Ok mt /\
    entry mt 0 0 = Some 1 /\
    entry mt 0 1 = Some 1 /\
    entry mt 1 0 = Some 2.
Proof.
  split; [reflexivity |]. split; [exact two_materials_fits |].
  destruct (@material_types_hold_the_bond_types
              (attrs Fixture.triangle_model)
              (initial_connectivity Fixture.triangle_model)
              Fixture.two_materials None eq_refl two_materials_fits)
    as (mt & E & _ & He).
  exists mt. split; [exact E |].
  rewrite (He 0%nat 0%nat), (He 0%nat 1%nat), (He 1%nat 0%nat)
    by (vm_compute; lia).
  repeat split; reflexivity.
Defined.

(** X4: when the constructor is given neither [bond_type] nor
    [material_types], every bond gets material type 0: the array it
    stores has shape (nnodes, max_neighbours) and holds 0 in every
    slot. *)
Theorem default_bond_type_gives_material_zero :
  forall (a : InitArgs) (self : Self) (conn : connectivity_t),
    a_bond_type a = None ->
    a_material_types a = ArgNone ->
    connectivity_ok self conn = true ->
    exists mt,
      outcome (init_material_types a self conn) = Ok mt /\
      has_shape mt (Z.to_nat (nnodes self))
                (Z.to_nat (max_neighbours self)) /\
      forall i k,
        (i < Z.to_nat (nnodes self))%nat ->
        (k < Z.to_nat (max_neighbours self))%nat ->
        entry mt i k = Some 0.
Proof.
  intros a self conn Hb Hm Hok.
  destruct (@connectivity_ok_parts _ _ Hok) as (Hc & Hw & Hconn).
  assert (Hfit : fits_intc (fun _ _ => 0)) by (intros x y; lia).
  destruct (@material_types_loop_entries self conn (fun _ _ => 0) Hok Hfit)
    as (t & mt & E & Hs & He).
  exists mt. split; [| split; [exact Hs |]].
  - unfold init_material_types. rewrite Hb, Hm.
    unfold _set_material_types. destruct conn as [nlist n_neigh].
    rewrite (@bind_lift_ok _ _ _ _ _
               (@np_full2_nonneg _ (nnodes self) (max_neighbours self) 0
                  ltac:(lia) Hw)).
    rewrite (@bind_ok _ _ _ _ _ _ E).
    destruct (write_path self); reflexivity.
  - intros i k Hi Hk. rewrite He by trivial.
    unfold material_type_entry.
    now destruct (k <? Z.to_nat (nth i (snd conn) 0%Z))%nat.
Qed.

Lemma default_bond_type_gives_material_zero_witness :
  a_bond_type Fixture.args = None /\
  a_material_types Fixture.args = ArgNone /\
  connectivity_ok (attrs Fixture.triangle_model)
    (initial_connectivity Fixture.triangle_model) = true /\
  exists mt,
    outcome (init_material_types Fixture.args
               (attrs Fixture.triangle_model)
               (initial_connectivity Fixture.triangle_model)) = Ok mt /\
    has_shape mt (Z.to_nat (nnodes (attrs Fixture.triangle_model)))
              (Z.to_nat (max_neighbours (attrs Fixture.triangle_model))) /\
    forall i k,
      (i < Z.to_nat (nnodes (attrs Fixture.triangle_model)))%nat ->
      (k < Z.to_nat (max_neighbours (attrs Fixture.triangle_model)))%nat ->
      entry mt i k = Some 0.
Proof.
  split; [reflexivity |]. split; [reflexivity |]. split; [reflexivity |].
  apply (@default_bond_type_gives_material_zero Fixture.args
           (attrs Fixture.triangle_model)
           (initial_connectivity Fixture.triangle_model));
    reflexivity.
Defined.

(** ** The boundary arrays *)

Lemma visited_S k j i j' :
  visited k (S j) i j' = visited k j i j' || ((i =? k) && (j' =? j))%nat.
Proof.
  unfold visited.
  destruct (Nat.ltb_spec i k), (Nat.eqb_spec i k), (Nat.ltb_spec j' (S j)),
           (Nat.ltb_spec j' j), (Nat.eqb_spec j' j);
    cbn; try reflexivity; lia.
Qed.

Lemma visited_next k i j' :
  (j' < 3)%nat -> visited (S k) 0 i j' = visited k 3 i j'.
Proof.
  intros H. unfold visited.
  destruct (Nat.ltb_spec i (S k)), (Nat.ltb_spec i k), (Nat.eqb_spec i k),
           (Nat.eqb_spec i (S k)), (Nat.ltb_spec j' 3), (Nat.ltb_spec j' 0);
    cbn; try reflexivity; lia.
Qed.

(** Writing [v k j] at [(k, j)] marks that entry. *)
Lemma filled_set {A} (a a' : list (list A)) n k j d v (v0 : A) :
  entry a' k j = Some (v k j) ->
  (forall i' j', (i', j') <> (k, j) -> entry a' i' j' = entry a i' j') ->
  filled a n (d j) v v0 ->
  (forall i j', d (S j) i j' = d j i j' || ((i =? k) && (j' =? j))%nat) ->
  filled a' n (d (S j)) v v0.
Proof.
  intros He Ho Hf Hd i j' Hi Hj'. rewrite Hd.
  destruct (Nat.eqb_spec i k) as [-> | Hik];
    [destruct (Nat.eqb_spec j' j) as [-> | Hjj] |]; cbn [andb].
  - now rewrite orb_true_r.
  - rewrite orb_false_r, Ho by congruence. now apply Hf.
  - rewrite orb_false_r, Ho by congruence. now apply Hf.
Qed.

(** Leaving [(k, j)] alone marks it too when [v k j] is the initial
    value and the entry has not been written. *)
Lemma filled_skip {A} (a : list (list A)) n k j d v (v0 : A) :
  v k j = v0 ->
  filled a n (d j) v v0 ->
  (forall i j', d (S j) i j' = d j i j' || ((i =? k) && (j' =? j))%nat) ->
  d j k j = false ->
  filled a n (d (S j)) v v0.
Proof.
  intros Hv Hf Hd Hn i j' Hi Hj'. rewrite Hd.
  destruct (Nat.eqb_spec i k) as [-> | Hik];
    [destruct (Nat.eqb_spec j' j) as [-> | Hjj] |]; cbn [andb].
  - rewrite orb_true_r, Hf by trivial. now rewrite Hn, Hv.
  - rewrite orb_false_r. now apply Hf.
  - rewrite orb_false_r. now apply Hf.
Qed.

Lemma visited_self k j : visited k j k j = false.
Proof.
  unfold visited. rewrite !Nat.ltb_irrefl. now rewrite andb_false_r.
Qed.

Ltac solve_filled k j :=
  first
    [ solve [ eapply (@filled_skip _ _ _ k j (visited k));
              [ cbn beta;
                repeat match goal with
                       | H : bnd_entry _ _ _ _ = _ |- _ => rewrite H
                       end; reflexivity
              | eassumption
              | intros; apply visited_S
              | apply visited_self ] ]
    | solve [ eapply (@filled_set _ _ _ _ k j (visited k));
              [ cbn beta;
                repeat match goal with
                       | H : bnd_entry _ _ _ _ = _ |- _ => rewrite H
                       end; cbn [type_of_entry value_of_entry]; eassumption
              | eassumption
              | eassumption
              | intros; apply visited_S ] ] ].

(** One axis of one node, for the type arrays and the displacement
    values. *)
Lemma boundary_axis_types self fd ff ft k j st :
  boundary_input_ok self fd ff ft = true ->
  (k < Z.to_nat (nnodes self))%nat -> (j < 3)%nat ->
  types_filled self fd ff ft (visited k j) (fst st) ->
  exists st',
    boundary_axis self (fd (nth k (coords self) []))
      (ff (nth k (coords self) [])) (ft (nth k (coords self) []))
      (Z.of_nat k) (Z.of_nat j) st = Ok st' /\
    types_filled self fd ff ft (visited k (S j)) (fst st').
Proof.
  intros Hok Hk Hj Hinv. unfold types_filled in *.
  destruct (@boundary_input_ok_parts _ _ _ _ Hok) as (Hc & Hv & Hd & Hans).
  assert (Hbd : bnd_entry self fd k j =
                nth j (ret_list (fd (nth k (coords self) []))) None)
    by reflexivity.
  assert (Hbf : bnd_entry self ff k j =
                nth j (ret_list (ff (nth k (coords self) []))) None)
    by reflexivity.
  assert (Hbt : bnd_entry self ft k j =
                nth j (ret_list (ft (nth k (coords self) []))) None)
    by reflexivity.
  set (x := nth k (coords self) []) in *.
  assert (Hx : In x (coords self)) by (apply nth_In; lia).
  destruct (Hans x (or_intror Hx)) as (Had & Haf & Hat).
  apply answers3_list in Had as (ld & Eld & Hld).
  apply answers3_list in Haf as (lf & Elf & Hlf).
  apply answers3_list in Hat as (lt & Elt & Hlt).
  destruct st as [arrays flag].
  destruct Hinv as ((S1 & S2 & S3 & S4 & S5) & F1 & F2 & F3 & F4).
  cbn [fst snd] in *.
  rewrite Eld in Hbd. rewrite Elf in Hbf. rewrite Elt in Hbt.
  cbn [ret_list] in Hbd, Hbf, Hbt.
  assert (Hvol : getitem (volume self) (Z.of_nat k) =
                 Ok (nth k (volume self) 0%Q)).
  { apply getitem_of_nat, nth_error_nth'. lia. }
  unfold boundary_axis. rewrite Eld, Elf, Elt.
  rewrite !bnd_item_list by trivial. cbn [rbind].
  destruct (nth j ld None) as [vd |]; destruct (nth j lf None) as [vf |];
    destruct (nth j lt None) as [vt |]; cbn [rbind];
    repeat step_setitem2; try rewrite Hvol; cbn [rbind];
    repeat step_setitem2; cbn [fst snd];
    (eexists; split; [reflexivity |]);
    unfold arrays_shape;
    cbn [fst snd bc_types bc_values force_bc_types force_bc_values
         tip_types];
    (split; [repeat (split; [assumption |]); assumption |]);
    (split; [solve_filled k j |]);
    (split; [solve_filled k j |]);
    (split; [solve_filled k j |]);
    solve_filled k j.
Qed.

Lemma filled_ext {A} (a : list (list A)) n d d' v (v0 : A) :
  (forall i j, (j < 3)%nat -> d' i j = d i j) ->
  filled a n d v v0 -> filled a n d' v v0.
Proof.
  intros Hd Hf i j Hi Hj. rewrite Hd by trivial. now apply Hf.
Qed.

Lemma types_filled_ext self fd ff ft d d' ba :
  (forall i j, (j < 3)%nat -> d' i j = d i j) ->
  types_filled self fd ff ft d ba -> types_filled self fd ff ft d' ba.
Proof.
  intros Hd (Hs & F1 & F2 & F3 & F4).
  split; [exact Hs |].
  repeat split; eapply filled_ext; eauto.
Qed.

(** One node, for the type arrays and the displacement values. *)
Lemma boundary_node_types self fd ff ft k st :
  boundary_input_ok self fd ff ft = true ->
  (k < Z.to_nat (nnodes self))%nat ->
  types_filled self fd ff ft (visited k 0) (fst st) ->
  exists t st',
    boundary_node self (Callable fd) (Callable ff) (Callable ft)
      (Z.of_nat k) st = (t, Ok st') /\
    types_filled self fd ff ft (visited (S k) 0) (fst st').
Proof.
  intros Hok Hk Hinv.
  destruct (@boundary_input_ok_parts _ _ _ _ Hok) as (Hc & Hv & Hd & Hans).
  set (x := nth k (coords self) []) in *.
  destruct st as [arrays num]. cbn [fst snd] in *.
  assert (Hgx : getitem (coords self) (Z.of_nat k) = Ok x).
  { apply getitem_of_nat, nth_error_nth'. lia. }
  destruct (@for_range_inv _
              (fun j st1 =>
                 types_filled self fd ff ft (visited k j) (fst st1))
              (boundary_axis self (fd x) (ff x) (ft x) (Z.of_nat k))
              3 (arrays, 0)) as (st' & E & Hinv').
  { exact Hinv. }
  { intros j st1 Hj Hst1. apply boundary_axis_types; trivial. }
  change (Z.to_nat 3) with 3%nat in Hinv'.
  eexists _, (fst st', num + snd st'). split.
  - unfold boundary_node.
    rewrite (@bind_lift_ok _ _ _ _ _ Hgx).
    repeat (rewrite bind_invoke; cbn beta).
    rewrite Hd, (@bind_lift_ok _ _ _ _ _ E). reflexivity.
  - cbn [fst]. eapply types_filled_ext; [| exact Hinv'].
    intros i j Hj. now apply visited_next.
Qed.

(** The loop over the nodes of [_set_boundary_conditions]: the calls it
    makes, the force values and the other arrays it leaves. *)
Lemma boundary_loop_run self fd ff ft :
  boundary_input_ok self fd ff ft = true ->
  let n := Z.to_nat (nnodes self) in
  exists st,
    forM (range (nnodes self))
      ({| bc_types := repeat (repeat 0 3) n;
          bc_values := repeat (repeat 0%Q 3) n;
          force_bc_types := repeat (repeat 0 3) n;
          force_bc_values := repeat (repeat (Fin 0) 3) n;
          tip_types := repeat (repeat 0 3) n |}, 0)
      (boundary_node self (Callable fd) (Callable ff) (Callable ft)) =
    (flat_map (fun x => [EvIsDisplacementBoundary x; EvIsForcesBoundary x;
                         EvIsTip x]) (coords self), Ok st) /\
    node_inv self ff n st /\
    types_filled self fd ff ft (visited n 0) (fst st).
Proof.
  intros Hok n.
  destruct (@boundary_input_ok_parts _ _ _ _ Hok) as (Hc & Hv & Hd & Hans).
  match goal with
  | |- context [forM (range ?m) ?s ?b] =>
      destruct (@forM_range_inv _
                  (fun k st =>
                     node_inv self ff k st /\
                     types_filled self fd ff ft (visited k 0) (fst st))
                  (fun k =>
                     [EvIsDisplacementBoundary (nth k (coords self) []);
                      EvIsForcesBoundary (nth k (coords self) []);
                      EvIsTip (nth k (coords self) [])])
                  b m s) as (st & E & Hinv & Htypes)
  end.
  - assert (Hshape : arrays_shape
                       {| bc_types := repeat (repeat 0 3) n;
                          bc_values := repeat (repeat 0%Q 3) n;
                          force_bc_types := repeat (repeat 0 3) n;
                          force_bc_values := repeat (repeat (Fin 0) 3) n;
                          tip_types := repeat (repeat 0 3) n |} n).
    { unfold arrays_shape.
      cbn [bc_types bc_values force_bc_types force_bc_values tip_types].
      repeat (split; [apply has_shape_full |]). apply has_shape_full. }
    split.
    + unfold node_inv. cbn [fst snd firstn]. fold n.
      split; [exact Hshape |]. split; [reflexivity |].
      intros i j Hi Hj. cbn [force_bc_values].
      rewrite entry_full by trivial. reflexivity.
    + unfold types_filled. cbn [fst]. fold n. split; [exact Hshape |].
      cbn [bc_types bc_values force_bc_types tip_types].
      repeat split; intros i j Hi Hj; rewrite entry_full by trivial;
        unfold visited; cbn; rewrite andb_false_r; reflexivity.
  - intros k st1 Hk (Hn1 & Ht1).
    destruct (@boundary_node_ok self fd ff ft k st1 Hok Hk Hn1)
      as (st2 & E2 & Hn2).
    destruct (@boundary_node_types self fd ff ft k st1 Hok Hk Ht1)
      as (t3 & st3 & E3 & Ht3).
    assert (st3 = st2) by congruence. subst st3.
    exists st2. split; [exact E2 |]. split; assumption.
  - exists st. split; [| split; assumption].
    rewrite E. f_equal.
    rewrite (@flat_map_seq_nth _ _
               (fun x => [EvIsDisplacementBoundary x; EvIsForcesBoundary x;
                          EvIsTip x]) [] (coords self)) by lia.
    rewrite firstn_all2 by lia. reflexivity.
Qed.

(** The whole method on callbacks that answer properly. *)
Lemma set_boundary_conditions_run self fd ff ft :
  boundary_input_ok self fd ff ft = true ->
  exists st,
    _set_boundary_conditions self (Callable fd) (Callable ff) (Callable ft)
    = (boundary_calls (coords self),
       Ok (normalise_forces (fst st) (snd st))) /\
    node_inv self ff (Z.to_nat (nnodes self)) st /\
    types_filled self fd ff ft (visited (Z.to_nat (nnodes self)) 0) (fst st).
Proof.
  intros Hok.
  destruct (@boundary_input_ok_parts _ _ _ _ Hok) as (Hc & Hv & Hd & Hans).
  destruct (Hans [0; 0; 0]%Q (or_introl eq_refl)) as (H0d & H0f & H0t).
  destruct (@boundary_loop_run self fd ff ft Hok) as (st & E & Hn & Ht).
  exists st. split; [| split; assumption].
  unfold _set_boundary_conditions.
  rewrite (@bind_ok _ _ _ _ _ _ (check_callback_ok _ _ H0d)).
  rewrite (@bind_ok _ _ _ _ _ _ (check_callback_ok _ _ H0f)).
  rewrite (@bind_ok _ _ _ _ _ _ (check_callback_ok _ _ H0t)).
  rewrite Hd.
  assert (Hnn : 0 <= nnodes self) by lia.
  rewrite !(@bind_lift_ok _ _ _ _ _
              (@np_full2_nonneg _ (nnodes self) 3 _ Hnn ltac:(lia))).
  change (Z.to_nat 3) with 3%nat.
  rewrite (@bind_ok _ _ _ _ _ _ E). cbn [ret trace outcome fst snd].
  unfold boundary_calls. now rewrite app_nil_r.
Qed.

Lemma visited_all n i j : (i < n)%nat -> visited n 0 i j = true.
Proof.
  intros H. unfold visited.
  now replace (i <? n)%nat with true by (symmetry; now apply Nat.ltb_lt).
Qed.

(** X5: with callbacks that answer a list of three entries at the probe
    and at every node, [_set_boundary_conditions] returns arrays in which
    [bc_types], [force_bc_types] and [tip_types] hold 1 exactly at the
    (node, axis) entries for which the corresponding callback reported a
    value, and 0 where it reported [None]; [bc_values] holds the reported
    displacement value, and 0.0 where there is none. *)
Theorem boundary_types_mark_the_reported_axes :
  forall (self : Self) (fd ff ft : list Q -> bndret),
    boundary_input_ok self fd ff ft = true ->
    exists t ba,
      _set_boundary_conditions self (Callable fd) (Callable ff)
        (Callable ft) = (t, Ok ba) /\
      forall i j,
        (i < Z.to_nat (nnodes self))%nat -> (j < 3)%nat ->
        entry (bc_types ba) i j =
          Some (type_of_entry (bnd_entry self fd i j)) /\
        entry (bc_values ba) i j =
          Some (value_of_entry (bnd_entry self fd i j)) /\
        entry (force_bc_types ba) i j =
          Some (type_of_entry (bnd_entry self ff i j)) /\
        entry (tip_types ba) i j =
          Some (type_of_entry (bnd_entry self ft i j)).
Proof.
  intros self fd ff ft Hok.
  destruct (@set_boundary_conditions_run self fd ff ft Hok)
    as (st & E & _ & (_ & F1 & F2 & F3 & F4)).
  do 2 eexists. split; [exact E |].
  intros i j Hi Hj.
  assert (Hsame :
    bc_types (normalise_forces (fst st) (snd st)) = bc_types (fst st) /\
    bc_values (normalise_forces (fst st) (snd st)) = bc_values (fst st) /\
    force_bc_types (normalise_forces (fst st) (snd st)) =
      force_bc_types (fst st) /\
    tip_types (normalise_forces (fst st) (snd st)) = tip_types (fst st)).
  { unfold normalise_forces. destruct (negb (snd st =? 0)); auto. }
  destruct Hsame as (-> & -> & -> & ->).
  rewrite (F1 i j Hi Hj), (F2 i j Hi Hj), (F3 i j Hi Hj), (F4 i j Hi Hj).
  rewrite (@visited_all _ i j Hi). auto.
Qed.

(** On the triangle, with the nodes off the origin clamped along the
    first axis. *)
Lemma boundary_types_mark_the_reported_axes_witness :
  boundary_input_ok (attrs Fixture.triangle_model)
    Fixture.pulled Fixture.nowhere Fixture.pulled = true /\
  exists t ba,
    _set_boundary_conditions (attrs Fixture.triangle_model)
      (Callable Fixture.pulled) (Callable Fixture.nowhere)
      (Callable Fixture.pulled) = (t, Ok ba) /\
    entry (bc_types ba) 1 0 = Some 1 /\
    entry (bc_values ba) 1 0 = Some 1%Q /\
    entry (force_bc_types ba) 1 0 = Some 0 /\
    entry (tip_types ba) 0 0 = Some 0.
Proof.
  split; [reflexivity |].
  destruct (@boundary_types_mark_the_reported_axes
              (attrs Fixture.triangle_model)
              Fixture.pulled Fixture.nowhere Fixture.pulled eq_refl)
    as (t & ba & E & H).
  exists t, ba. split; [exact E |].
  destruct (H 1%nat 0%nat ltac:(vm_compute; lia) ltac:(lia))
    as (H1 & H2 & H3 & _).
  destruct (H 0%nat 0%nat ltac:(vm_compute; lia) ltac:(lia))
    as (_ & _ & _ & H4).
  repeat split; assumption.
Defined.

(** X6: with such callbacks the method calls each of them twice at the
    probe [[0, 0, 0]], the displacement callback first, then the force
    and the tip callback, and after that once at the coordinates of every
    node, in node order; it makes no other external call. *)
Theorem boundary_callbacks_are_called_per_node :
  forall (self : Self) (fd ff ft : list Q -> bndret),
    boundary_input_ok self fd ff ft = true ->
    trace (_set_boundary_conditions self (Callable fd) (Callable ff)
             (Callable ft)) = boundary_calls (coords self) /\
    length (boundary_calls (coords self)) =
      (6 + 3 * Z.to_nat (nnodes self))%nat.
Proof.
  intros self fd ff ft Hok.
  destruct (@set_boundary_conditions_run self fd ff ft Hok)
    as (st & E & _ & _).
  destruct (@boundary_input_ok_parts _ _ _ _ Hok) as (Hc & _ & _ & _).
  split; [now rewrite E |].
  unfold boundary_calls. rewrite length_app. cbn [length].
  rewrite Hc, Nat2Z.id. f_equal.
  generalize (coords self) as l.
  induction l as [| x l IH]; [reflexivity |].
  cbn [flat_map length app]. rewrite IH. cbn [length]. lia.
Qed.

Lemma boundary_callbacks_are_called_per_node_witness :
  boundary_input_ok (attrs Fixture.triangle_model)
    Fixture.nowhere Fixture.pulled Fixture.nowhere = true /\
  trace (_set_boundary_conditions (attrs Fixture.triangle_model)
           (Callable Fixture.nowhere) (Callable Fixture.pulled)
           (Callable Fixture.nowhere)) =
    boundary_calls (coords (attrs Fixture.triangle_model)) /\
  length (boundary_calls (coords (attrs Fixture.triangle_model))) =
    (6 + 3 * Z.to_nat (nnodes (attrs Fixture.triangle_model)))%nat.
Proof.
  split; [reflexivity |].
  apply (@boundary_callbacks_are_called_per_node
           (attrs Fixture.triangle_model)
           Fixture.nowhere Fixture.pulled Fixture.nowhere).
  reflexivity.
Defined.

Lemma no_force_node_entries ff (l : list (list Q)) x j :
  count_force_nodes ff l = 0 -> In x l ->
  nth j (ret_list (ff x)) None = None.
Proof.
  unfold count_force_nodes. intros Hc Hx.
  assert (Hnil : filter (force_loaded ff) l = [])
    by (apply length_zero_iff_nil; lia).
  assert (Hf : force_loaded ff x = false).
  { destruct (force_loaded ff x) eqn:E; [| reflexivity].
    assert (Hin : In x (filter (force_loaded ff) l))
      by (apply filter_In; auto).
    rewrite Hnil in Hin. destruct Hin. }
  unfold force_loaded in Hf.
  destruct (nth_in_or_default j (ret_list (ff x)) None) as [Hin | ->];
    [| reflexivity].
  destruct (nth j (ret_list (ff x)) None) as [v |] eqn:E; [| reflexivity].
  assert (Hex : existsb is_some (ret_list (ff x)) = true)
    by (apply existsb_exists; exists (Some v); auto).
  congruence.
Qed.

(** X7: when no node is force-loaded the division by the number of
    loaded nodes is skipped and every entry of [force_bc_values] is the
    0.0 it was initialised with. *)
Theorem unloaded_model_has_zero_force_values :
  forall (self : Self) (fd ff ft : list Q -> bndret),
    boundary_input_ok self fd ff ft = true ->
    count_force_nodes ff (coords self) = 0 ->
    exists t ba,
      _set_boundary_conditions self (Callable fd) (Callable ff)
        (Callable ft) = (t, Ok ba) /\
      forall i j,
        (i < Z.to_nat (nnodes self))%nat -> (j < 3)%nat ->
        entry (force_bc_values ba) i j = Some (Fin 0).
Proof.
  intros self fd ff ft Hok Hcount.
  destruct (@set_boundary_conditions_run self fd ff ft Hok)
    as (st & E & (_ & Hnum & Hent) & _).
  destruct (@boundary_input_ok_parts _ _ _ _ Hok) as (Hc & _ & _ & _).
  do 2 eexists. split; [exact E |].
  intros i j Hi Hj.
  rewrite firstn_all2 in Hnum by lia.
  unfold normalise_forces. rewrite Hnum, Hcount. cbn [Z.eqb negb].
  rewrite Hent by trivial.
  replace (i <? Z.to_nat (nnodes self))%nat with true
    by (symmetry; now apply Nat.ltb_lt).
  unfold raw_force.
  rewrite (@no_force_node_entries ff (coords self) _ j Hcount);
    [reflexivity | apply nth_In; lia].
Qed.

Lemma unloaded_model_has_zero_force_values_witness :
  boundary_input_ok (attrs Fixture.triangle_model)
    Fixture.pulled Fixture.nowhere Fixture.nowhere = true /\
  count_force_nodes Fixture.nowhere
    (coords (attrs Fixture.triangle_model)) = 0 /\
  exists t ba,
    _set_boundary_conditions (attrs Fixture.triangle_model)
      (Callable Fixture.pulled) (Callable Fixture.nowhere)
      (Callable Fixture.nowhere) = (t, Ok ba) /\
    forall i j,
      (i < Z.to_nat (nnodes (attrs Fixture.triangle_model)))%nat ->
      (j < 3)%nat ->
      entry (force_bc_values ba) i j = Some (Fin 0).
Proof.
  split; [reflexivity |]. split; [reflexivity |].
  apply (@unloaded_model_has_zero_force_values
           (attrs Fixture.triangle_model)
           Fixture.pulled Fixture.nowhere Fixture.nowhere);
    reflexivity.
Defined.

(** ** The checks on the boundary callbacks *)

Lemma check_callback_cases ev f :
  (callback_ok f = true /\
   check_callback ev f = ([ev [0; 0; 0]%Q; ev [0; 0; 0]%Q], Ok tt)) \/
  (callback_ok f = false /\
   exists m, (m <= 2)%nat /\
     check_callback ev f =
     (firstn m [ev [0; 0; 0]%Q; ev [0; 0; 0]%Q], Raise TypeError)).
Proof.
  destruct f as [| g]; cbn [callback_ok check_callback].
  - right. split; [reflexivity |]. exists 0%nat. split; [lia | reflexivity].
  - unfold answers3. destruct (g [0; 0; 0]%Q) as [l |] eqn:E.
    + destruct (length l =? 3)%nat eqn:El.
      * left. split; reflexivity.
      * right. split; [reflexivity |]. exists 2%nat.
        split; [lia | reflexivity].
    + right. split; [reflexivity |]. exists 1%nat.
      split; [lia | reflexivity].
Qed.

(** X8: a boundary callback that is not callable, or that answers the
    probe [[0, 0, 0]] with something other than a list of three entries,
    makes [_set_boundary_conditions] raise [TypeError]; the calls made up
    to then are an initial part of the six probes, so that no node has
    been visited. *)
Theorem boundary_callbacks_are_validated :
  forall (self : Self) (d f t : callback),
    callback_ok d && callback_ok f && callback_ok t = false ->
    exists m,
      _set_boundary_conditions self d f t =
      (firstn m (boundary_calls []), Raise TypeError).
Proof.
  intros self d f t H. unfold _set_boundary_conditions.
  destruct (check_callback_cases EvIsDisplacementBoundary d)
    as [[Hd Ed] | (Hd & m & Hm & Ed)].
  2: { exists m. rewrite (bind_raise _ Ed).
       destruct m as [| [| [| m]]]; try lia; reflexivity. }
  rewrite (@bind_ok _ _ _ _ _ _ Ed).
  destruct (check_callback_cases EvIsForcesBoundary f)
    as [[Hf Ef] | (Hf & m & Hm & Ef)].
  2: { exists (2 + m)%nat. rewrite (bind_raise _ Ef).
       destruct m as [| [| [| m]]]; try lia; reflexivity. }
  rewrite (@bind_ok _ _ _ _ _ _ Ef).
  destruct (check_callback_cases EvIsTip t)
    as [[Ht Et] | (Ht & m & Hm & Et)].
  { rewrite Hd, Hf, Ht in H. discriminate. }
  exists (4 + m)%nat. rewrite (bind_raise _ Et).
  destruct m as [| [| [| m]]]; try lia; reflexivity.
Qed.

(** A force callback that answers with two entries. *)
Lemma boundary_callbacks_are_validated_witness :
  callback_ok (Callable Fixture.nowhere) &&
  callback_ok (Callable Fixture.two_axes) &&
  callback_ok (Callable Fixture.nowhere) = false /\
  exists m,
    _set_boundary_conditions (attrs Fixture.triangle_model)
      (Callable Fixture.nowhere) (Callable Fixture.two_axes)
      (Callable Fixture.nowhere) =
    (firstn m (boundary_calls []), Raise TypeError).
Proof.
  split; [reflexivity |].
  apply (@boundary_callbacks_are_validated (attrs Fixture.triangle_model)
           (Callable Fixture.nowhere) (Callable Fixture.two_axes)
           (Callable Fixture.nowhere)).
  reflexivity.
Defined.

(** ** The list of cracked bonds *)

Lemma test_pairs_filter crack_function coords (l : list (Z * Z)) :
  Forall (fun p : Z * Z =>
            0 <= fst p < Z.of_nat (length coords) /\
            0 <= snd p < Z.of_nat (length coords)) l ->
  forall crack,
    outcome (forM l crack (test_pair crack_function coords)) =
    Ok (crack ++ filter (cracked crack_function coords) l).
Proof.
  induction 1 as [| [i j] l [Hi Hj] _ IH]; intros crack; cbn [forM filter].
  - cbn. now rewrite app_nil_r.
  - cbn [fst snd] in Hi, Hj. rewrite outcome_bind.
    unfold test_pair at 1.
    rewrite (@bind_lift_ok _ _ _ _ _ (@getitem_nth _ coords [] i Hi)).
    rewrite (@bind_lift_ok _ _ _ _ _ (@getitem_nth _ coords [] j Hj)).
    unfold cracked at 1. cbn [fst snd].
    destruct (crack_function (nth (Z.to_nat i) coords [])
                (nth (Z.to_nat j) coords [])).
    + cbn. rewrite IH, <- app_assoc. reflexivity.
    + cbn. now rewrite IH.
Qed.

(** X9: on a neighbour list that fits the coordinates, the function made
    by [initial_crack_helper] returns the bonds [(i, j)] with [i < j] on
    which the crack predicate holds, in the order of the neighbour list:
    every bond is reported at most once, from its lower end. *)
Theorem initial_crack_helper_returns_the_cracked_bonds :
  forall (crack_function : list Q -> list Q -> bool)
         (coords : list (list Q)) (nlist : ndarray2 Z) (n_neigh : list Z)
         (w : Z),
    length coords = length (nd_rows nlist) ->
    conn_ok (Z.of_nat (length (nd_rows nlist))) w (nlist, n_neigh) = true ->
    outcome (initial_crack_helper crack_function coords nlist n_neigh) =
      Ok (filter (cracked crack_function coords)
            (ascending_bonds (nlist, n_neigh) (length (nd_rows nlist)))) /\
    forall i j,
      In (i, j)
         (filter (cracked crack_function coords)
            (ascending_bonds (nlist, n_neigh) (length (nd_rows nlist)))) ->
      i < j /\
      In (i, j) (directed_bonds (nlist, n_neigh) (length (nd_rows nlist))) /\
      cracked crack_function coords (i, j) = true.
Proof.
  intros crack_function coords nlist n_neigh w Hlen Hok. split.
  - unfold initial_crack_helper.
    rewrite (@bind_lift_ok _ _ _ _ _ (@crack_pairs _ _ _ _ Hok)).
    rewrite Nat2Z.id.
    rewrite test_pairs_filter; [reflexivity |].
    apply Forall_forall. intros [i j] Hin.
    apply filter_In in Hin as [Hin _].
    apply (@directed_bonds_in_range _ _ _ _ _ _ _ Hok) in Hin;
      [| rewrite Nat2Z.id; lia].
    cbn [fst snd]. lia.
  - intros i j Hin. apply filter_In in Hin as [Hin Hc].
    unfold ascending_bonds in Hin. apply filter_In in Hin as [Hin Hlt].
    cbn [fst snd] in Hlt. apply Z.ltb_lt in Hlt. auto.
Qed.

(** On the triangle every node is bonded to the two others; the bonds
    that touch the origin and go upwards are (0, 1) and (0, 2). *)
Lemma initial_crack_helper_returns_the_cracked_bonds_witness :
  length (coords (attrs Fixture.triangle_model)) =
    length (nd_rows (fst (initial_connectivity Fixture.triangle_model))) /\
  conn_ok
    (Z.of_nat
       (length (nd_rows (fst (initial_connectivity Fixture.triangle_model)))))
    2 (fst (initial_connectivity Fixture.triangle_model),
       snd (initial_connectivity Fixture.triangle_model)) = true /\
  outcome (initial_crack_helper Fixture.leaves_origin
             (coords (attrs Fixture.triangle_model))
             (fst (initial_connectivity Fixture.triangle_model))
             (snd (initial_connectivity Fixture.triangle_model))) =
    Ok [(0, 1); (0, 2)].
Proof.
  assert (H1 :
    length (coords (attrs Fixture.triangle_model)) =
    length (nd_rows (fst (initial_connectivity Fixture.triangle_model))))
    by (vm_compute; reflexivity).
  assert (H2 :
    conn_ok
      (Z.of_nat
         (length
            (nd_rows (fst (initial_connectivity Fixture.triangle_model)))))
      2 (fst (initial_connectivity Fixture.triangle_model),
         snd (initial_connectivity Fixture.triangle_model)) = true)
    by (vm_compute; reflexivity).
  split; [exact H1 |]. split; [exact H2 |].
  destruct (@initial_crack_helper_returns_the_cracked_bonds
              Fixture.leaves_origin
              (coords (attrs Fixture.triangle_model))
              (fst (initial_connectivity Fixture.triangle_model))
              (snd (initial_connectivity Fixture.triangle_model)) 2 H1 H2)
    as [E _].
  rewrite E. vm_compute. reflexivity.
Defined.

(** * Further properties of the driver *)

(** ** Initialisation *)

Lemma bind_ret {A B} (a : A) (k : A -> M B) : bind (ret a) k = k a.
Proof. unfold ret, bind. now destruct (k a). Qed.

Ltac init_step :=
  match goal with
  | |- context [bind (lift ?r) _] =>
      let E := fresh "E" in
      destruct r eqn:E;
      [ rewrite (bind_lift_ok _ eq_refl)
      | left; eexists; reflexivity ]
  end.

(** [_simulate_initialise] either raises, having called nothing, or ends
    with the call of [set_buffers]. *)
Lemma simulate_initialise_cases ext m s :
  (exists e, _simulate_initialise ext m s = ([], Raise e)) \/
  (exists st dm fm,
     _simulate_initialise ext m s = ([EvSetBuffers], Ok (st, dm, fm)) /\
     init_magnitudes (s_steps s) (s_displacement_bc_magnitudes s) = Ok dm /\
     init_magnitudes (s_steps s) (s_force_bc_magnitudes s) = Ok fm /\
     damage_sum_data st = [] /\ tip_displacement_data st = [] /\
     tip_velocity_data st = [] /\ tip_force_data st = []).
Proof.
  unfold _simulate_initialise.
  do 6 init_step.
  assert (Hconn :
    (exists e,
       match s_connectivity s with
       | ConnNone => ret (initial_connectivity m)
       | ConnTuple2 nlist n_neigh => ret (nlist, n_neigh)
       | ConnTupleOfLen _ => raise ValueError
       | ConnOther => raise TypeError
       end = ([], Raise e)) \/
    (exists conn,
       match s_connectivity s with
       | ConnNone => ret (initial_connectivity m)
       | ConnTuple2 nlist n_neigh => ret (nlist, n_neigh)
       | ConnTupleOfLen _ => raise ValueError
       | ConnOther => raise TypeError
       end = ret conn)).
  { destruct (s_connectivity s); [right | right | left | left];
      eexists; reflexivity. }
  destruct Hconn as [[e ->] | [conn ->]]; [left; eexists; reflexivity |].
  rewrite bind_ret.
  assert (Hreg :
    (exists e,
       match s_regimes s with
       | ArgNone =>
           lift (np_full2 (nnodes (attrs m)) (max_neighbours (attrs m)) 0)
       | ArgNdarray r =>
           if negb (shape2_ok r (nnodes (attrs m))
                      (max_neighbours (attrs m)))
           then raise ValueError
           else ret (nd_rows r)
       | ArgOther => raise TypeError
       end = ([], Raise e)) \/
    (exists regimes,
       match s_regimes s with
       | ArgNone =>
           lift (np_full2 (nnodes (attrs m)) (max_neighbours (attrs m)) 0)
       | ArgNdarray r =>
           if negb (shape2_ok r (nnodes (attrs m))
                      (max_neighbours (attrs m)))
           then raise ValueError
           else ret (nd_rows r)
       | ArgOther => raise TypeError
       end = ret regimes)).
  { destruct (s_regimes s) as [| r |].
    - destruct (np_full2 _ _ _); [right | left]; eexists; reflexivity.
    - destruct (negb _); [left | right]; eexists; reflexivity.
    - left; eexists; reflexivity. }
  destruct Hreg as [[e ->] | [regimes ->]]; [left; eexists; reflexivity |].
  rewrite bind_ret.
  init_step.
  right. do 3 eexists. split; [reflexivity |].
  repeat split; reflexivity.
Qed.

(** X10: when [_simulate_initialise] raises, [simulate] raises the same
    exception and has made no external call: the arguments are checked
    before the integrator's buffers are set, and no step is taken. *)
Theorem simulate_rejects_before_any_call :
  forall (ext : Externals) (m : Model) (s : SimArgs) (e : exn),
    outcome (_simulate_initialise ext m s) = Raise e ->
    simulate ext m s = ([], Raise e).
Proof.
  intros ext m s e H.
  destruct (simulate_initialise_cases ext m s)
    as [[e' E] | (st & dm & fm & E & _)];
    rewrite E in H; cbn in H; [| discriminate].
  inversion H; subst e'. unfold simulate. now rewrite E.
Qed.

(** A magnitude array of one entry for two steps. *)
Lemma simulate_rejects_before_any_call_witness :
  outcome (_simulate_initialise Fixture.ext Fixture.triangle_model
             (Fixture.run_with (ArgNdarray [1%Q]) 1 None)) =
    Raise ValueError /\
  simulate Fixture.ext Fixture.triangle_model
    (Fixture.run_with (ArgNdarray [1%Q]) 1 None) = ([], Raise ValueError).
Proof.
  split; [reflexivity |].
  apply (@simulate_rejects_before_any_call Fixture.ext
           Fixture.triangle_model
           (Fixture.run_with (ArgNdarray [1%Q]) 1 None) ValueError).
  reflexivity.
Defined.

(** ** The loop over the steps *)

Lemma init_magnitudes_length steps a v :
  init_magnitudes steps a = Ok v ->
  0 <= steps /\ length v = Z.to_nat steps.
Proof.
  unfold init_magnitudes. destruct a as [| w |]; [| | discriminate].
  - unfold np_full. destruct (Z.ltb_spec steps 0) as [Hlt | Hge];
      [discriminate |].
    intros E; inversion E; subst. split; [lia | apply repeat_length].
  - destruct (Z.eqb_spec (Z.of_nat (length w)) steps) as [Heq | Hne];
      cbn [negb]; [| discriminate].
    intros E; inversion E; subst. lia.
Qed.

Lemma range2_from a n :
  0 <= n ->
  range2 a (a + n) = map (fun k => a + Z.of_nat k) (seq 0 (Z.to_nat n)).
Proof.
  intros H. unfold range2. now replace (a + n - a) with n by lia.
Qed.

(** A step without output: one call of the integrator. *)
Lemma simulate_step_no_write m s dm fm k d f st :
  no_write (s_write s) = true ->
  nth_error dm k = Some d -> nth_error fm k = Some f ->
  simulate_step m s dm fm (1 + Z.of_nat k) st =
  ([EvIntegratorStep d f],
   Ok {| st_integrator := call (integrator m) (st_integrator st) d f;
         st_arrays := st_arrays st;
         damage_sum_data := damage_sum_data st;
         tip_displacement_data := tip_displacement_data st;
         tip_velocity_data := tip_velocity_data st;
         tip_force_data := tip_force_data st |}).
Proof.
  intros Hw Hd Hf. unfold simulate_step.
  replace (1 + Z.of_nat k - 1) with (Z.of_nat k) by lia.
  rewrite (@bind_lift_ok _ _ _ _ _ (@getitem_of_nat _ _ _ _ Hd)).
  rewrite (@bind_lift_ok _ _ _ _ _ (@getitem_of_nat _ _ _ _ Hf)).
  unfold no_write in Hw.
  destruct (s_write s) as [w |]; [rewrite Hw |]; reflexivity.
Qed.

Lemma no_write_loop m s dm fm :
  no_write (s_write s) = true ->
  length fm = length dm ->
  forall n a st,
    (a + n <= length dm)%nat ->
    exists st',
      forM (map (fun k => 1 + Z.of_nat k) (seq a n)) st
        (simulate_step m s dm fm) =
      (map (fun k => EvIntegratorStep (nth k dm 0%Q) (nth k fm 0%Q))
           (seq a n), Ok st') /\
      st_arrays st' = st_arrays st /\
      damage_sum_data st' = damage_sum_data st /\
      tip_displacement_data st' = tip_displacement_data st /\
      tip_velocity_data st' = tip_velocity_data st /\
      tip_force_data st' = tip_force_data st.
Proof.
  intros Hw Hlen. induction n as [| n IH]; intros a st Ha.
  - exists st. cbn. auto 6.
  - cbn [seq map forM].
    assert (Hd : nth_error dm a = Some (nth a dm 0%Q))
      by (apply nth_error_nth'; lia).
    assert (Hf : nth_error fm a = Some (nth a fm 0%Q))
      by (apply nth_error_nth'; lia).
    rewrite (@bind_ok _ _ _ _ _ _
               (@simulate_step_no_write m s dm fm a _ _ st Hw Hd Hf)).
    match goal with
    | |- context [forM _ ?st1 _] =>
        destruct (IH (S a) st1 ltac:(lia)) as (st' & E & H1 & H2 & H3 & H4 & H5)
    end.
    exists st'. rewrite E. cbn [trace outcome fst snd app].
    split; [reflexivity |]. cbn in H1, H2, H3, H4, H5. auto 6.
Qed.

(** X11: a run that starts at step 1 and has no write interval ([write]
    is [None] or 0) cannot fail once it is initialised: after
    [set_buffers] the integrator is called once per step, step [k] with
    entry [k - 1] of the two magnitude arrays, and nothing else is
    called; no mesh is written and the four data lists stay empty. *)
Theorem simulate_without_write_only_steps :
  forall (ext : Externals) (m : Model) (s : SimArgs)
         (st0 : SimState (istate (integrator m))) (dm fm : list Q),
    outcome (_simulate_initialise ext m s) = Ok (st0, dm, fm) ->
    s_first_step s = 1 ->
    no_write (s_write s) = true ->
    length dm = Z.to_nat (s_steps s) /\
    exists st,
      simulate ext m s = (EvSetBuffers :: step_events dm fm, Ok st) /\
      damage_sum_data st = [] /\ tip_displacement_data st = [] /\
      tip_velocity_data st = [] /\ tip_force_data st = [].
Proof.
  intros ext m s st0 dm fm H Hfirst Hw.
  destruct (simulate_initialise_cases ext m s)
    as [[e' E] | (st & dm' & fm' & E & Hdm & Hfm & D1 & D2 & D3 & D4)];
    rewrite E in H; cbn in H; [discriminate |].
  inversion H; subst st dm' fm'.
  apply init_magnitudes_length in Hdm as [Hsteps Hldm].
  apply init_magnitudes_length in Hfm as [_ Hlfm].
  split; [exact Hldm |].
  destruct (@no_write_loop m s dm fm Hw ltac:(congruence)
              (length dm) O st0 ltac:(lia))
    as (st' & El & _ & H2 & H3 & H4 & H5).
  exists st'. split; [| repeat split; congruence].
  unfold simulate. rewrite (@bind_ok _ _ _ _ _ _ E). cbn beta iota.
  rewrite Hfirst, range2_from by lia. rewrite <- Hldm, El.
  reflexivity.
Qed.

(** Two steps on the triangle with magnitudes 1 and 2. *)
Lemma simulate_without_write_only_steps_witness :
  exists st0 fm,
    outcome (_simulate_initialise Fixture.ext Fixture.triangle_model
               (Fixture.run_with (ArgNdarray [1; 2]%Q) 1 None)) =
      Ok (st0, [1; 2]%Q, fm) /\
    trace (simulate Fixture.ext Fixture.triangle_model
             (Fixture.run_with (ArgNdarray [1; 2]%Q) 1 None)) =
      [EvSetBuffers; EvIntegratorStep 1 0; EvIntegratorStep 2 0].
Proof.
  eexists _, _.
  assert (H : outcome (_simulate_initialise Fixture.ext
                         Fixture.triangle_model
                         (Fixture.run_with (ArgNdarray [1; 2]%Q) 1 None)) =
              Ok (_, [1; 2]%Q, _)) by (vm_compute; reflexivity).
  split; [exact H |].
  destruct (@simulate_without_write_only_steps Fixture.ext
              Fixture.triangle_model
              (Fixture.run_with (ArgNdarray [1; 2]%Q) 1 None)
              _ _ _ H eq_refl eq_refl) as (_ & st & E & _).
  rewrite E. reflexivity.
Defined.

(** ** Failures of the loop *)

Lemma getitem_raises {A} (l : list A) (i : Z) e :
  getitem l i = Raise e -> e = IndexError.
Proof.
  unfold getitem. destruct (_ && _).
  - destruct (nth_error _ _); intros H; inversion H; reflexivity.
  - intros H; inversion H; reflexivity.
Qed.

Lemma getitem_beyond {A} (l : list A) (i : Z) :
  Z.of_nat (length l) <= i -> getitem l i = Raise IndexError.
Proof.
  intros H. unfold getitem.
  replace (i <? 0) with false by (symmetry; apply Z.ltb_ge; lia).
  replace (i <? Z.of_nat (length l)) with false
    by (symmetry; apply Z.ltb_ge; lia).
  now rewrite andb_false_r.
Qed.

Lemma getitem2_raises {A} (a : list (list A)) (i j : Z) e :
  getitem2 a i j = Raise e -> e = IndexError.
Proof.
  unfold getitem2. destruct (getitem a i) eqn:E; cbn [rbind].
  - apply getitem_raises.
  - intros H; inversion H; subst. eapply getitem_raises; eauto.
Qed.

Lemma for_raises {X S} (P : exn -> Prop) (body : X -> S -> result S) :
  (forall x s e, body x s = Raise e -> P e) ->
  forall l s e, for_ l s body = Raise e -> P e.
Proof.
  intros Hb l. induction l as [| x l IH]; intros s e; cbn [for_].
  - discriminate.
  - destruct (body x s) eqn:E; cbn [rbind].
    + apply IH.
    + intros H; inversion H; subst. eapply Hb; eauto.
Qed.

Lemma tip_sums_raises self tip_types u ud force e :
  tip_sums self tip_types u ud force = Raise e -> e = IndexError.
Proof.
  unfold tip_sums. revert e.
  apply (@for_raises _ _ (fun e => e = IndexError)). intros i acc.
  apply (@for_raises _ _ (fun e => e = IndexError)).
  intros j [[[tmp d] v] f] e.
  destruct (getitem2 tip_types i j) eqn:E1; cbn [rbind];
    [| intros H; inversion H; subst; eapply getitem2_raises; eauto].
  destruct (_ =? 1); [| discriminate].
  destruct (getitem2 u i j) eqn:E2; cbn [rbind];
    [| intros H; inversion H; subst; eapply getitem2_raises; eauto].
  destruct (getitem2 ud i j) eqn:E3; cbn [rbind];
    [| intros H; inversion H; subst; eapply getitem2_raises; eauto].
  destruct (getitem2 force i j) eqn:E4; cbn [rbind];
    [discriminate
    | intros H; inversion H; subst; eapply getitem2_raises; eauto].
Qed.

(** The only exception a step can end in is [IndexError]. *)
Lemma simulate_step_raises m s dm fm step st e :
  outcome (simulate_step m s dm fm step st) = Raise e -> e = IndexError.
Proof.
  unfold simulate_step. rewrite outcome_bind. cbn [lift outcome snd].
  destruct (getitem dm (step - 1)) eqn:E1;
    [| intros H; inversion H; subst; eapply getitem_raises; eauto].
  rewrite outcome_bind. cbn [lift outcome snd].
  destruct (getitem fm (step - 1)) eqn:E2;
    [| intros H; inversion H; subst; eapply getitem_raises; eauto].
  rewrite outcome_bind. cbn [emit outcome snd].
  destruct (s_write s) as [w |]; [| discriminate].
  destruct (w =? 0); [discriminate |].
  destruct (step mod w =? 0); [| discriminate].
  rewrite write_step_outcome. cbn [st_integrator st_arrays].
  destruct (tip_sums _ _ _ _ _) eqn:E3; [discriminate |].
  intros H; inversion H; subst. eapply tip_sums_raises; eauto.
Qed.

(** A loop one of whose iterations cannot succeed does not succeed. *)
Lemma forM_raises {X S} (P : exn -> Prop) (body : X -> S -> M S) x0 :
  (forall x s e, outcome (body x s) = Raise e -> P e) ->
  (forall s s', outcome (body x0 s) <> Ok s') ->
  forall l s, In x0 l ->
    exists e, outcome (forM l s body) = Raise e /\ P e.
Proof.
  intros Hb H0 l. induction l as [| x l IH]; intros s Hin; [destruct Hin |].
  cbn [forM]. rewrite outcome_bind.
  destruct (outcome (body x s)) as [s' |] eqn:E.
  - destruct Hin as [-> | Hin]; [exfalso; eapply H0; eauto |].
    now apply IH.
  - exists e. split; [reflexivity | eapply Hb; eauto].
Qed.

(** X12: a run that is initialised, has at least one step and starts at
    a step number of 2 or more always ends in [IndexError]: the magnitude
    arrays have one entry per step of this run and are indexed with the
    absolute step number, so the last step at the latest reads beyond
    their end. *)
Theorem simulate_from_a_later_step_raises_index_error :
  forall (ext : Externals) (m : Model) (s : SimArgs)
         (st0 : SimState (istate (integrator m))) (dm fm : list Q),
    outcome (_simulate_initialise ext m s) = Ok (st0, dm, fm) ->
    2 <= s_first_step s ->
    1 <= s_steps s ->
    outcome (simulate ext m s) = Raise IndexError.
Proof.
  intros ext m s st0 dm fm H Hfirst Hsteps.
  destruct (simulate_initialise_cases ext m s)
    as [[e' E] | (st & dm' & fm' & E & Hdm & Hfm & _)];
    rewrite E in H; cbn in H; [discriminate |].
  inversion H; subst st dm' fm'.
  apply init_magnitudes_length in Hdm as [_ Hldm].
  unfold simulate. rewrite outcome_bind, E. cbn [outcome snd].
  destruct (@forM_raises _ _ (fun e => e = IndexError)
              (simulate_step m s dm fm)
              (s_first_step s + s_steps s - 1))
    with (l := range2 (s_first_step s) (s_first_step s + s_steps s))
         (s := st0) as (e & -> & ->).
  - intros x st1 e. apply simulate_step_raises.
  - intros st1 st2. unfold simulate_step.
    rewrite outcome_bind. cbn [lift outcome snd].
    rewrite getitem_beyond by lia. discriminate.
  - rewrite range2_from by lia. apply in_map_iff.
    exists (Z.to_nat (s_steps s - 1)). split; [lia |].
    apply in_seq. lia.
  - reflexivity.
Qed.

(** Two steps on the triangle, started at step 2. *)
Lemma simulate_from_a_later_step_raises_index_error_witness :
  exists st0 dm fm,
    outcome (_simulate_initialise Fixture.ext Fixture.triangle_model
               (Fixture.run_with ArgNone 2 None)) = Ok (st0, dm, fm) /\
    2 <= s_first_step (Fixture.run_with ArgNone 2 None) /\
    1 <= s_steps (Fixture.run_with ArgNone 2 None) /\
    outcome (simulate Fixture.ext Fixture.triangle_model
               (Fixture.run_with ArgNone 2 None)) = Raise IndexError.
Proof.
  eexists _, _, _.
  assert (H : outcome (_simulate_initialise Fixture.ext
                         Fixture.triangle_model
                         (Fixture.run_with ArgNone 2 None)) =
              Ok (_, _, _)) by (vm_compute; reflexivity).
  split; [exact H |]. split; [cbn; lia |]. split; [cbn; lia |].
  apply (@simulate_from_a_later_step_raises_index_error Fixture.ext
           Fixture.triangle_model (Fixture.run_with ArgNone 2 None)
           _ _ _ H); cbn; lia.
Defined.

(** ** The data recorded at the write steps *)

Lemma div_succ_step (k w : Z) :
  0 < w -> 0 <= k ->
  (k + 1) / w = k / w + (if (k + 1) mod w =? 0 then 1 else 0).
Proof.
  intros Hw Hk.
  pose proof (Z.div_mod (k + 1) w ltac:(lia)) as Hdm.
  pose proof (Z.mod_pos_bound (k + 1) w Hw) as Hb.
  destruct (Z.eqb_spec ((k + 1) mod w) 0) as [E | E].
  - assert (Hq : (k + 1) / w - 1 = k / w)
      by (apply (Z.div_unique k w _ (w - 1)); [lia | nia]).
    lia.
  - assert (Hq : (k + 1) / w = k / w)
      by (apply (Z.div_unique k w _ ((k + 1) mod w - 1)); [lia | nia]).
    lia.
Qed.

(** A loop that succeeds has kept its invariant. *)
Lemma forM_seq_ok_inv {S} (I : nat -> S -> Prop) (f : nat -> Z)
    (body : Z -> S -> M S) :
  forall n a s s',
    I a s ->
    (forall k s1 s2, (a <= k < a + n)%nat -> I k s1 ->
       outcome (body (f k) s1) = Ok s2 -> I (Datatypes.S k) s2) ->
    outcome (forM (map f (seq a n)) s body) = Ok s' ->
    I (a + n)%nat s'.
Proof.
  induction n as [| n IH]; intros a s s' H0 Hstep; cbn [seq map forM].
  - cbn. intros E; inversion E; subst. now rewrite Nat.add_0_r.
  - rewrite outcome_bind.
    destruct (outcome (body (f a) s)) as [s1 |] eqn:E1; [| discriminate].
    intros E.
    replace (a + Datatypes.S n)%nat with (Datatypes.S a + n)%nat by lia.
    apply (IH (Datatypes.S a) s1 s').
    + apply (Hstep a s s1); [lia | exact H0 | exact E1].
    + intros k s2 s3 Hk. apply Hstep. lia.
    + exact E.
Qed.

(** What a successful step adds to the four data lists. *)
Lemma simulate_step_lengths m s dm fm step st1 st2 w :
  s_write s = Some w -> w <> 0 ->
  outcome (simulate_step m s dm fm step st1) = Ok st2 ->
  let c := if step mod w =? 0 then 1%nat else 0%nat in
  length (damage_sum_data st2) = (length (damage_sum_data st1) + c)%nat /\
  length (tip_displacement_data st2) =
    (length (tip_displacement_data st1) + c)%nat /\
  length (tip_velocity_data st2) =
    (length (tip_velocity_data st1) + c)%nat /\
  length (tip_force_data st2) = (length (tip_force_data st1) + c)%nat.
Proof.
  intros Hw Hw0. unfold simulate_step.
  rewrite outcome_bind. cbn [lift outcome snd].
  destruct (getitem dm (step - 1)) as [d |]; [| discriminate].
  rewrite outcome_bind. cbn [lift outcome snd].
  destruct (getitem fm (step - 1)) as [f |]; [| discriminate].
  rewrite outcome_bind. cbn [emit outcome snd].
  rewrite Hw.
  replace (w =? 0) with false by (symmetry; now apply Z.eqb_neq).
  destruct (step mod w =? 0).
  - rewrite write_step_outcome.
    cbn [st_integrator st_arrays damage_sum_data tip_displacement_data
         tip_velocity_data tip_force_data].
    destruct (tip_sums _ _ _ _ _) as [sums |]; [| discriminate].
    intros E; inversion E; subst; clear E. cbn.
    rewrite !length_app. cbn [length]. auto.
  - intros E; inversion E; subst; clear E. cbn. auto.
Qed.

(** X13: a run that starts at step 1 with a positive write interval and
    returns has recorded one entry in each of the four data lists for
    every step number divisible by the interval: each list has
    [steps // write] entries. *)
Theorem simulate_records_one_entry_per_write_step :
  forall (ext : Externals) (m : Model) (s : SimArgs)
         (st0 st : SimState (istate (integrator m))) (dm fm : list Q)
         (w : Z),
    outcome (_simulate_initialise ext m s) = Ok (st0, dm, fm) ->
    s_first_step s = 1 ->
    s_write s = Some w ->
    0 < w ->
    outcome (simulate ext m s) = Ok st ->
    length (damage_sum_data st) = Z.to_nat (s_steps s / w) /\
    length (tip_displacement_data st) = Z.to_nat (s_steps s / w) /\
    length (tip_velocity_data st) = Z.to_nat (s_steps s / w) /\
    length (tip_force_data st) = Z.to_nat (s_steps s / w).
Proof.
  intros ext m s st0 st dm fm w H Hfirst Hw Hpos Hrun.
  destruct (simulate_initialise_cases ext m s)
    as [[e' E] | (st1 & dm' & fm' & E & Hdm & _ & D1 & D2 & D3 & D4)];
    rewrite E in H; cbn in H; [discriminate |].
  inversion H; subst st1 dm' fm'.
  apply init_magnitudes_length in Hdm as [Hsteps _].
  unfold simulate in Hrun. rewrite outcome_bind, E in Hrun.
  cbn [outcome snd] in Hrun.
  rewrite Hfirst, range2_from in Hrun by lia.
  pose proof (@forM_seq_ok_inv _
                (fun k st' =>
                   length (damage_sum_data st') =
                     Z.to_nat (Z.of_nat k / w) /\
                   length (tip_displacement_data st') =
                     Z.to_nat (Z.of_nat k / w) /\
                   length (tip_velocity_data st') =
                     Z.to_nat (Z.of_nat k / w) /\
                   length (tip_force_data st') =
                     Z.to_nat (Z.of_nat k / w))
                (fun k => 1 + Z.of_nat k)
                (simulate_step m s dm fm)
                (Z.to_nat (s_steps s)) O st0 st) as Hinv.
  cbn beta in Hinv. rewrite Nat.add_0_l, Z2Nat.id in Hinv by lia.
  apply Hinv; [| | exact Hrun].
  - rewrite D1, D2, D3, D4. cbn [length Z.of_nat].
    rewrite Z.div_0_l by lia. repeat split; reflexivity.
  - intros k s1 s2 Hk (I1 & I2 & I3 & I4) Estep.
    destruct (@simulate_step_lengths m s dm fm _ s1 s2 w Hw ltac:(lia)
                Estep) as (L1 & L2 & L3 & L4).
    rewrite L1, L2, L3, L4, I1, I2, I3, I4.
    rewrite Nat2Z.inj_succ. unfold Z.succ.
    rewrite (@div_succ_step (Z.of_nat k) w Hpos ltac:(lia)).
    replace (1 + Z.of_nat k) with (Z.of_nat k + 1) by lia.
    assert (Hq : 0 <= Z.of_nat k / w) by (apply Z.div_pos; lia).
    destruct ((Z.of_nat k + 1) mod w =? 0); repeat split; lia.
Qed.

(** Two steps on the triangle, written at every step. *)
Lemma simulate_records_one_entry_per_write_step_witness :
  exists st0 dm fm st,
    outcome (_simulate_initialise Fixture.ext Fixture.triangle_model
               Fixture.run) = Ok (st0, dm, fm) /\
    outcome (simulate Fixture.ext Fixture.triangle_model Fixture.run) =
      Ok st /\
    length (damage_sum_data st) = 2%nat.
Proof.
  eexists _, _, _, _.
  assert (H : outcome (_simulate_initialise Fixture.ext
                         Fixture.triangle_model Fixture.run) =
              Ok (_, _, _)) by (vm_compute; reflexivity).
  assert (Hrun : outcome (simulate Fixture.ext Fixture.triangle_model
                            Fixture.run) = Ok _)
    by (vm_compute; reflexivity).
  split; [exact H |]. split; [exact Hrun |].
  destruct (@simulate_records_one_entry_per_write_step Fixture.ext
              Fixture.triangle_model Fixture.run _ _ _ _ 1
              H eq_refl eq_refl ltac:(lia) Hrun) as (L & _).
  exact L.
Defined.

(** * Further properties of the stiffness corrections *)

(** On a model whose nodes all have a family and a positive volume, the
    sum of two family volumes is not zero, so the precise factor of a
    valid bond slot is a finite quotient. *)
Lemma precise_factor_value self nlist n_neigh bulk i s :
  stiffness_input_ok self (nlist, n_neigh) = true ->
  physical self = true ->
  (i < Z.to_nat (nnodes self))%nat ->
  (s < Z.to_nat (nth i n_neigh 0%Z))%nat ->
  let fv := spec_family_volume (volume self) nlist (family self) in
  let j := Z.to_nat (nth s (nth i (nd_rows nlist) []) 0) in
  (j < Z.to_nat (nnodes self))%nat /\
  (0 < fv i + fv j)%Q /\
  precise_factor self nlist bulk i s = Fin (2 * bulk / (fv i + fv j)).
Proof.
  intros Hok Hph Hi Hs fv j.
  destruct (@stiffness_input_ok_parts _ _ Hok) as (Hc & _ & _ & _).
  destruct (@connectivity_ok_parts _ _ Hc) as (_ & _ & Hconn).
  destruct (@conn_ok_counts _ _ _ _ i Hconn Hi) as (ni & Hni & Hri).
  destruct (@conn_ok_rows _ _ _ _ i Hconn Hi) as (row & Hrow & Hlen & Hall).
  rewrite (@nth_error_nth _ _ _ _ 0 Hni) in Hs.
  assert (Hj : (j < Z.to_nat (nnodes self))%nat).
  { unfold j. rewrite (@nth_error_nth _ _ _ _ [] Hrow).
    rewrite Forall_forall in Hall.
    assert (Hin : In (nth s row 0) row) by (apply nth_In; lia).
    specialize (Hall _ Hin). lia. }
  pose proof (@spec_family_volume_pos self nlist n_neigh i Hok Hph Hi)
    as Hpi.
  pose proof (@spec_family_volume_pos self nlist n_neigh j Hok Hph Hj)
    as Hpj.
  fold fv in Hpi, Hpj.
  split; [exact Hj |]. split; [lra |].
  unfold precise_factor, np_div. fold fv. fold j.
  destruct (Qeq_bool (fv i + fv j) 0) eqn:E; [| reflexivity].
  apply Qeq_bool_iff in E. lra.
Qed.



(** X15: the precise factor does not depend on the end from which a bond
    is seen.  On a model with positive volumes and no empty family, if
    slot [s] of node [i] names node [j] and slot [s'] of node [j] names
    node [i], slot [s] of [i] holds twice the bulk volume divided by the
    family volume of [i] plus that of [j], slot [s'] of [j] holds twice
    the bulk volume divided by the family volume of [j] plus that of
    [i], and the two are the same number. *)
Theorem precise_factor_is_the_same_from_both_ends :
  forall (self : Self) (horizon : Q) (nlist : ndarray2 Z)
         (n_neigh : list Z) (write_path : option string) (bulk : Q)
         (i s j s' : nat),
    stiffness_input_ok self (nlist, n_neigh) = true ->
    physical self = true ->
    family_volume_bulk_of (dimensions self) horizon = Some bulk ->
    (i < Z.to_nat (nnodes self))%nat ->
    (j < Z.to_nat (nnodes self))%nat ->
    (s < Z.to_nat (nth i n_neigh 0%Z))%nat ->
    (s' < Z.to_nat (nth j n_neigh 0%Z))%nat ->
    nth s (nth i (nd_rows nlist) []) 0 = Z.of_nat j ->
    nth s' (nth j (nd_rows nlist) []) 0 = Z.of_nat i ->
    let fv := spec_family_volume (volume self) nlist (family self) in
    exists sc,
      outcome (_set_stiffness_corrections self horizon (nlist, n_neigh)
                 (Some 1) write_path) = Ok sc /\
      entry sc i s = Some (Fin (2 * bulk / (fv i + fv j))) /\
      entry sc j s' = Some (Fin (2 * bulk / (fv j + fv i))) /\
      (2 * bulk / (fv i + fv j) == 2 * bulk / (fv j + fv i))%Q.
Proof.
  intros self horizon nlist n_neigh write_path bulk i s j s'
         Hok Hph Hbulk Hi Hj Hs Hs' Hij Hji fv.
  destruct (@set_stiffness_corrections_precise self horizon nlist n_neigh
              write_path bulk Hok Hbulk) as (sc & E & He).
  destruct (@stiffness_input_ok_parts _ _ Hok) as (Hc & _ & _ & _).
  destruct (@connectivity_ok_parts _ _ Hc) as (_ & _ & Hconn).
  destruct (@conn_ok_counts _ _ _ _ i Hconn Hi) as (ni & Hni & Hri).
  destruct (@conn_ok_counts _ _ _ _ j Hconn Hj) as (nj & Hnj & Hrj).
  destruct (@precise_factor_value self nlist n_neigh bulk i s Hok Hph Hi Hs)
    as (_ & Hpos & Vi).
  destruct (@precise_factor_value self nlist n_neigh bulk j s' Hok Hph Hj
              Hs') as (_ & _ & Vj).
  rewrite Hij, Nat2Z.id in Vi, Hpos. rewrite Hji, Nat2Z.id in Vj.
  fold fv in Vi, Vj, Hpos.
  assert (Hw : (s < Z.to_nat (max_neighbours self))%nat)
    by (rewrite (@nth_error_nth _ _ _ _ 0 Hni) in Hs; lia).
  assert (Hw' : (s' < Z.to_nat (max_neighbours self))%nat)
    by (rewrite (@nth_error_nth _ _ _ _ 0 Hnj) in Hs'; lia).
  exists sc. split; [exact E |].
  rewrite (He i s Hi Hw), (He j s' Hj Hw').
  replace (s <? Z.to_nat (nth i n_neigh 0%Z))%nat with true
    by (symmetry; now apply Nat.ltb_lt).
  replace (s' <? Z.to_nat (nth j n_neigh 0%Z))%nat with true
    by (symmetry; now apply Nat.ltb_lt).
  rewrite Vi, Vj. split; [reflexivity |]. split; [reflexivity |].
  now rewrite (Qplus_comm (fv i) (fv j)).
Qed.

(** On the triangle, nodes 0 and 1 name each other in their first
    slots; both slots hold [2 * (pi * horizon^2 * 0.001) / (2/6 + 2/6)],
    which is [3 * pi * horizon^2 / 1000]. *)
Lemma precise_factor_is_the_same_from_both_ends_witness :
  exists sc a b,
    outcome (_set_stiffness_corrections
               (attrs (Fixture.built (Fixture.args_precise 1))) (3 # 2)
               (fst (initial_connectivity
                       (Fixture.built (Fixture.args_precise 1))),
                snd (initial_connectivity
                       (Fixture.built (Fixture.args_precise 1))))
               (Some 1) None) = Ok sc /\
    entry sc 0 0 = Some (Fin a) /\
    entry sc 1 0 = Some (Fin b) /\
    (a == 3 * np_pi * (3 # 2) ^ 2 / 1000)%Q /\
    (b == 3 * np_pi * (3 # 2) ^ 2 / 1000)%Q.
Proof.
  assert (H1 : stiffness_input_ok
                 (attrs (Fixture.built (Fixture.args_precise 1)))
                 (fst (initial_connectivity
                         (Fixture.built (Fixture.args_precise 1))),
                  snd (initial_connectivity
                         (Fixture.built (Fixture.args_precise 1)))) = true)
    by (vm_compute; reflexivity).
  assert (H2 : physical (attrs (Fixture.built (Fixture.args_precise 1))) =
               true) by (vm_compute; reflexivity).
  assert (H3 : family_volume_bulk_of
                 (dimensions (attrs (Fixture.built (Fixture.args_precise 1))))
                 (3 # 2) =
               Some (np_pi * (3 # 2) ^ 2 * (1 # 1000))%Q)
    by (vm_compute; reflexivity).
  assert (H4 : (0 < Z.to_nat
                      (nnodes (attrs (Fixture.built
                                        (Fixture.args_precise 1)))))%nat)
    by (vm_compute; lia).
  assert (H5 : (1 < Z.to_nat
                      (nnodes (attrs (Fixture.built
                                        (Fixture.args_precise 1)))))%nat)
    by (vm_compute; lia).
  assert (H6 : (0 < Z.to_nat
                      (nth 0
                         (snd (initial_connectivity
                                 (Fixture.built (Fixture.args_precise 1))))
                         0%Z))%nat)
    by (vm_compute; lia).
  assert (H7 : (0 < Z.to_nat
                      (nth 1
                         (snd (initial_connectivity
                                 (Fixture.built (Fixture.args_precise 1))))
                         0%Z))%nat)
    by (vm_compute; lia).
  assert (H8 : nth 0 (nth 0 (nd_rows
                               (fst (initial_connectivity
                                       (Fixture.built
                                          (Fixture.args_precise 1))))) [])
                   0 = Z.of_nat 1)
    by (vm_compute; reflexivity).
  assert (H9 : nth 0 (nth 1 (nd_rows
                               (fst (initial_connectivity
                                       (Fixture.built
                                          (Fixture.args_precise 1))))) [])
                   0 = Z.of_nat 0)
    by (vm_compute; reflexivity).
  destruct (@precise_factor_is_the_same_from_both_ends
              (attrs (Fixture.built (Fixture.args_precise 1))) (3 # 2)
              _ _ None (np_pi * (3 # 2) ^ 2 * (1 # 1000))%Q
              0%nat 0%nat 1%nat 0%nat H1 H2 H3 H4 H5 H6 H7 H8 H9)
    as (sc & E & Ea & Eb & _).
  exists sc. do 2 eexists. split; [exact E |].
  split; [exact Ea |]. split; [exact Eb |].
  split; vm_compute; reflexivity.
Defined.

(** X16: a value of [precise_stiffness_correction] other than 0, 1 or
    [None] is rejected with [ValueError], after the family volumes have
    been computed and before anything is printed or written. *)
Theorem stiffness_switch_must_be_0_1_or_None :
  forall (self : Self) (horizon : Q) (nlist : ndarray2 Z)
         (n_neigh : list Z) (p : Z) (write_path : option string),
    stiffness_input_ok self (nlist, n_neigh) = true ->
    p <> 0 -> p <> 1 ->
    _set_stiffness_corrections self horizon (nlist, n_neigh) (Some p)
      write_path = ([], Raise ValueError).
Proof.
  intros self horizon nlist n_neigh p write_path Hok H0 H1.
  destruct (@stiffness_input_ok_parts _ _ Hok) as (Hc & _ & _ & _).
  destruct (@connectivity_ok_parts _ _ Hc) as (Hn & Hw & _).
  destruct (@family_volumes_of_ok _ _ _ Hok) as (fvs & Efv & _ & _).
  unfold _set_stiffness_corrections.
  rewrite (@bind_lift_ok _ _ _ _ _
             (@np_full2_nonneg _ (nnodes self) (max_neighbours self)
                (Fin 1) ltac:(lia) Hw)).
  rewrite (@bind_lift_ok _ _ _ _ _ Efv).
  destruct p as [| [p | p |] | p]; try congruence; reflexivity.
Qed.

Lemma stiffness_switch_must_be_0_1_or_None_witness :
  stiffness_input_ok (attrs Fixture.triangle_model)
    (fst (initial_connectivity Fixture.triangle_model),
     snd (initial_connectivity Fixture.triangle_model)) = true /\
  2 <> 0 /\ 2 <> 1 /\
  _set_stiffness_corrections (attrs Fixture.triangle_model) (3 # 2)
    (fst (initial_connectivity Fixture.triangle_model),
     snd (initial_connectivity Fixture.triangle_model)) (Some 2) None =
  ([], Raise ValueError).
Proof.
  assert (H : stiffness_input_ok (attrs Fixture.triangle_model)
                (fst (initial_connectivity Fixture.triangle_model),
                 snd (initial_connectivity Fixture.triangle_model)) = true)
    by (vm_compute; reflexivity).
  split; [exact H |]. split; [lia |]. split; [lia |].
  apply (@stiffness_switch_must_be_0_1_or_None
           (attrs Fixture.triangle_model) (3 # 2) _ _ 2 None H); lia.
Defined.

(** * Further properties of the constructor *)

(** X17: the constructor checks its [integrator] argument before
    anything else and the number of dimensions next.  An argument that is
    not an [Integrator] gives [InvalidIntegrator], whatever the other
    arguments are; with a valid integrator, a number of dimensions other
    than 2 or 3 gives [DimensionalityError] carrying that number.  In both
    cases none of the recorded external calls has been made. *)
Theorem constructor_checks_integrator_then_dimensions :
  forall (ext : Externals) (a : InitArgs),
    (a_integrator a = NotAnIntegrator ->
     Model_init ext a = ([], Raise InvalidIntegrator)) /\
    (forall integ,
       a_integrator a = AnIntegrator integ ->
       mesh_elements (a_dimensions a) = None ->
       Model_init ext a =
         ([], Raise (DimensionalityError (a_dimensions a)))).
Proof.
  intros ext a. split.
  - intros H. unfold Model_init, init_prefix. now rewrite H.
  - intros integ Hi Hd. unfold Model_init, init_prefix.
    rewrite Hi, bind_ret. unfold mesh_elements in Hd.
    destruct (a_dimensions a =? 2); [discriminate |].
    destruct (a_dimensions a =? 3); [discriminate |].
    reflexivity.
Qed.

(** No integrator and five dimensions; an integrator and four
    dimensions. *)
Lemma constructor_checks_integrator_then_dimensions_witness :
  Model_init Fixture.ext
    (Fixture.args_with Fixture.open_mesh NotAnIntegrator 5 1) =
    ([], Raise InvalidIntegrator) /\
  Model_init Fixture.ext
    (Fixture.args_with Fixture.open_mesh
       (AnIntegrator (Fixture.counting None)) 4 0) =
    ([], Raise (DimensionalityError 4)).
Proof.
  split.
  - apply (@constructor_checks_integrator_then_dimensions Fixture.ext
             (Fixture.args_with Fixture.open_mesh NotAnIntegrator 5 1)).
    reflexivity.
  - apply (proj2 (@constructor_checks_integrator_then_dimensions
                    Fixture.ext
                    (Fixture.args_with Fixture.open_mesh
                       (AnIntegrator (Fixture.counting None)) 4 0))
             (Fixture.counting None));
      reflexivity.
Defined.

(** X18: the mesh must hold cells of both element types of the model's
    dimension, the boundary cells included although the constructor does
    nothing else with them: when either key is missing from the mesh the
    constructor raises [KeyError], and none of the recorded external calls
    has been made. *)
Theorem constructor_needs_both_cell_types :
  forall (ext : Externals) (a : InitArgs) (integ : Integrator)
         (connectivity boundary : string),
    a_integrator a = AnIntegrator integ ->
    mesh_elements (a_dimensions a) = Some (connectivity, boundary) ->
    cells_dict (a_mesh a) connectivity = None \/
    cells_dict (a_mesh a) boundary = None ->
    Model_init ext a = ([], Raise KeyError).
Proof.
  intros ext a integ connectivity boundary Hi Hd Hk.
  unfold Model_init, init_prefix. rewrite Hi, bind_ret.
  unfold mesh_elements in Hd.
  assert (Hm :
    (if a_dimensions a =? 2 then ret ("triangle", "line")%string
     else if a_dimensions a =? 3 then ret ("tetra", "triangle")%string
          else raise (DimensionalityError (a_dimensions a))) =
    ret (connectivity, boundary)).
  { destruct (a_dimensions a =? 2); [now inversion Hd |].
    destruct (a_dimensions a =? 3); [now inversion Hd | discriminate]. }
  rewrite Hm, bind_ret. cbn [fst snd]. unfold lookup_cells.
  destruct (cells_dict (a_mesh a) connectivity) as [c |] eqn:Ec;
    [| reflexivity].
  destruct Hk as [Hk | Hk]; [discriminate |].
  rewrite Hk. reflexivity.
Qed.

(** A two-dimensional mesh without line cells. *)
Lemma constructor_needs_both_cell_types_witness :
  a_integrator
    (Fixture.args_with Fixture.open_mesh
       (AnIntegrator (Fixture.counting None)) 2 0) =
    AnIntegrator (Fixture.counting None) /\
  mesh_elements 2 = Some ("triangle", "line")%string /\
  cells_dict Fixture.open_mesh "line" = None /\
  Model_init Fixture.ext
    (Fixture.args_with Fixture.open_mesh
       (AnIntegrator (Fixture.counting None)) 2 0) =
  ([], Raise KeyError).
Proof.
  split; [reflexivity |]. split; [reflexivity |]. split; [reflexivity |].
  apply (@constructor_needs_both_cell_types Fixture.ext
           (Fixture.args_with Fixture.open_mesh
              (AnIntegrator (Fixture.counting None)) 2 0)
           (Fixture.counting None) "triangle" "line");
    [reflexivity | reflexivity | right; reflexivity].
Defined.

(** X19: a transfinite mesh needs a total volume.  With [transfinite]
    set and no [volume_total] the constructor never gets as far as the
    nodal volumes: it raises before any of the recorded external calls,
    and when the integrator, the dimension, the mesh and the bond
    parameters are accepted the exception is [ValueError], also when a
    [volume] array is supplied. *)
Theorem transfinite_mesh_needs_volume_total :
  forall (ext : Externals) (a : InitArgs),
    a_transfinite a <> 0 ->
    a_volume_total a = None ->
    (exists e, Model_init ext a = ([], Raise e)) /\
    forall (integ : Integrator) (connectivity boundary : string)
           (c b : list (list Z)) (su : stiffness_setup),
      a_integrator a = AnIntegrator integ ->
      mesh_elements (a_dimensions a) = Some (connectivity, boundary) ->
      cells_dict (a_mesh a) connectivity = Some c ->
      cells_dict (a_mesh a) boundary = Some b ->
      resolve_bond_stiffness (a_bond_stiffness a) (a_critical_stretch a) =
        Ok su ->
      Model_init ext a = ([], Raise ValueError).
Proof.
  intros ext a Ht Hv.
  assert (Hcheck :
    (if negb (a_transfinite a =? 0) then
       match a_volume_total a with
       | None => raise ValueError
       | Some _ => ret tt
       end
     else ret tt) = (raise ValueError : M unit)).
  { replace (a_transfinite a =? 0) with false
      by (symmetry; now apply Z.eqb_neq).
    now rewrite Hv. }
  split.
  - unfold Model_init, init_prefix. rewrite Hcheck.
    destruct (a_integrator a) as [| integ]; [eexists; reflexivity |].
    rewrite bind_ret.
    destruct (a_dimensions a =? 2);
      [| destruct (a_dimensions a =? 3); [| eexists; reflexivity]];
      rewrite bind_ret; cbn [fst snd]; unfold lookup_cells;
      repeat match goal with
             | |- context [cells_dict (a_mesh a) ?k] =>
                 destruct (cells_dict (a_mesh a) k);
                 [rewrite (bind_lift_ok _ eq_refl) | eexists; reflexivity]
             end;
      (destruct (resolve_bond_stiffness _ _);
       [rewrite (bind_lift_ok _ eq_refl) | eexists; reflexivity]);
      eexists; reflexivity.
  - intros integ connectivity boundary c b su Hi Hd Hc Hb Hsu.
    unfold Model_init, init_prefix. rewrite Hcheck, Hi, bind_ret.
    unfold mesh_elements in Hd.
    assert (Hm :
      (if a_dimensions a =? 2 then ret ("triangle", "line")%string
       else if a_dimensions a =? 3 then ret ("tetra", "triangle")%string
            else raise (DimensionalityError (a_dimensions a))) =
      ret (connectivity, boundary)).
    { destruct (a_dimensions a =? 2); [now inversion Hd |].
      destruct (a_dimensions a =? 3); [now inversion Hd | discriminate]. }
    rewrite Hm, bind_ret. cbn [fst snd]. unfold lookup_cells.
    rewrite Hc, Hb, !(bind_lift_ok _ eq_refl).
    rewrite Hsu, (bind_lift_ok _ eq_refl). reflexivity.
Qed.

(** The triangle, declared transfinite. *)
Lemma transfinite_mesh_needs_volume_total_witness :
  a_transfinite
    (Fixture.args_with Fixture.triangle_mesh
       (AnIntegrator (Fixture.counting None)) 2 1) <> 0 /\
  a_volume_total
    (Fixture.args_with Fixture.triangle_mesh
       (AnIntegrator (Fixture.counting None)) 2 1) = None /\
  Model_init Fixture.ext
    (Fixture.args_with Fixture.triangle_mesh
       (AnIntegrator (Fixture.counting None)) 2 1) =
  ([], Raise ValueError).
Proof.
  split; [discriminate |]. split; [reflexivity |].
  destruct (@transfinite_mesh_needs_volume_total Fixture.ext
              (Fixture.args_with Fixture.triangle_mesh
                 (AnIntegrator (Fixture.counting None)) 2 1)
              ltac:(discriminate) eq_refl) as [_ H].
  apply (H (Fixture.counting None) "triangle"%string "line"%string
           [[0; 1; 2]] [[0; 1]; [1; 2]; [2; 0]]
           {| su_nregimes := 1; su_nmaterials := 1;
              su_bond_stiffness := NScalar 100;
              su_critical_stretch := NScalar (5 # 1000) |});
    reflexivity.
Defined.

(** * The callbacks of the cantilever example *)

Lemma getitem_head {A} (x0 : A) (x : list A) : getitem (x0 :: x) 0 = Ok x0.
Proof. exact (@getitem_of_nat _ (x0 :: x) 0 x0 eq_refl). Qed.

Lemma getitem_nil {A} (i : Z) : getitem (@nil A) i = Raise IndexError.
Proof.
  unfold getitem. cbn [length Z.of_nat].
  destruct (i <? 0) eqn:E.
  - replace (0 <=? i + 0) with false
      by (symmetry; apply Z.leb_gt; apply Z.ltb_lt in E; lia).
    reflexivity.
  - replace (i <? 0) with false. now rewrite andb_false_r.
Qed.

(** X20: in the example the force boundary is the tip.  For every
    horizon and every node, [is_forces_boundary] loads the third axis
    (with -1) exactly when [is_tip] answers 1, and leaves the node alone
    exactly when [is_tip] answers 0; on an empty coordinate row both raise
    [IndexError]. *)
Theorem example_force_boundary_is_the_tip :
  forall (horizon : Q) (x : list Q),
    (Example5.is_tip horizon x = Ok 1 /\
     Example5.is_forces_boundary horizon x = Ok [2; 2; -1]) \/
    (Example5.is_tip horizon x = Ok 0 /\
     Example5.is_forces_boundary horizon x = Ok [2; 2; 2]) \/
    (x = [] /\
     Example5.is_tip horizon x = Raise IndexError /\
     Example5.is_forces_boundary horizon x = Raise IndexError).
Proof.
  intros horizon [| x0 x].
  - right. right. unfold Example5.is_tip, Example5.is_forces_boundary.
    rewrite getitem_nil. auto.
  - unfold Example5.is_tip, Example5.is_forces_boundary.
    rewrite getitem_head. cbn [rbind].
    destruct (Qlt_le_dec ((1650 # 1000) - (2 # 10) * horizon) x0)
      as [H1 | H1];
      destruct (Qlt_le_dec ((165 # 100) - (2 # 10) * horizon) x0)
        as [H2 | H2].
    + left. split; reflexivity.
    + exfalso. lra.
    + exfalso. lra.
    + right. left. split; reflexivity.
Qed.

(** X21: for a horizon of at most 4 the clamped end and the loaded end
    of the example's beam, which is 1.65 long, do not meet: a node that
    [is_boundary] clamps (all three axes 0) is neither force-loaded nor
    part of the tip. *)
Theorem example_clamped_nodes_are_not_loaded :
  forall (horizon : Q) (x : list Q),
    (horizon <= 4)%Q ->
    Example5.is_boundary horizon x = Ok [0; 0; 0] ->
    Example5.is_forces_boundary horizon x = Ok [2; 2; 2] /\
    Example5.is_tip horizon x = Ok 0.
Proof.
  intros horizon [| x0 x] Hh.
  - unfold Example5.is_boundary. rewrite getitem_nil. discriminate.
  - unfold Example5.is_boundary, Example5.is_forces_boundary,
      Example5.is_tip.
    rewrite getitem_head. cbn [rbind].
    destruct (Qlt_le_dec x0 ((2 # 10) * horizon)) as [H1 | H1];
      [| discriminate].
    intros _.
    destruct (Qlt_le_dec ((165 # 100) - (2 # 10) * horizon) x0);
      [exfalso; lra |].
    destruct (Qlt_le_dec ((1650 # 1000) - (2 # 10) * horizon) x0);
      [exfalso; lra |].
    split; reflexivity.
Qed.

(** A node at the clamped end, for a horizon of 0.3. *)
Lemma example_clamped_nodes_are_not_loaded_witness :
  Example5.is_boundary (3 # 10) [1 # 100; 0; 0]%Q = Ok [0; 0; 0] /\
  Example5.is_forces_boundary (3 # 10) [1 # 100; 0; 0]%Q = Ok [2; 2; 2] /\
  Example5.is_tip (3 # 10) [1 # 100; 0; 0]%Q = Ok 0.
Proof.
  assert (Hh : (3 # 10 <= 4)%Q) by (vm_compute; discriminate).
  assert (Hb : Example5.is_boundary (3 # 10) [1 # 100; 0; 0]%Q =
               Ok [0; 0; 0]) by (vm_compute; reflexivity).
  split; [exact Hb |].
  exact (@example_clamped_nodes_are_not_loaded (3 # 10)
           [1 # 100; 0; 0]%Q Hh Hb).
Defined.



Lemma elt_op_raises f a b e : elt_op f a b = Raise e -> e = ValueError.
Proof.
  destruct a as [x | v], b as [y | w]; cbn [elt_op]; try discriminate.
  destruct (length v =? length w)%nat; [discriminate |].
  destruct v as [| x [| x' v]]; try discriminate;
    destruct w as [| y [| y' w]]; try discriminate;
    intros H; inversion H; reflexivity.
Qed.

Lemma example_cost_raises p cent rad e :
  Example5.cost p cent rad = Raise e -> e = ValueError.
Proof.
  unfold Example5.cost.
  destruct (elt_op Qminus (EVec cent) (EVec p)) as [d |] eqn:E;
    cbn [rbind].
  - destruct d; discriminate.
  - intros H; inversion H; subst. eapply elt_op_raises; eauto.
Qed.

Lemma example_is_rebar_raises p e :
  Example5.is_rebar p = Raise e -> e = ValueError.
Proof.
  unfold Example5.is_rebar.
  destruct (for_ _ _ _) as [costs |] eqn:E; cbn [rbind].
  - destruct (existsb _ _); discriminate.
  - intros H; inversion H; subst.
    revert E. apply (@for_raises _ _ (fun e => e = ValueError)).
    intros cr costs e'.
    destruct (Example5.cost _ _ _) eqn:Ec; cbn [rbind]; [discriminate |].
    intros H'; inversion H'; subst. eapply example_cost_raises; eauto.
Qed.

(** X23: the example's [bond_type] does not depend on the order of the
    two nodes, errors included, and it answers 'steel' exactly when both
    nodes are rebar, 'interface' exactly when one of them is, and
    'concrete' when neither is. *)
Theorem example_bond_type_is_symmetric :
  forall x y : list Q,
    Example5.bond_type x y = Example5.bond_type y x /\
    forall b1 b2,
      Example5.is_rebar x = Ok b1 ->
      Example5.is_rebar y = Ok b2 ->
      Example5.bond_type x y =
      Ok (if b1 && b2 then "steel"
          else if xorb b1 b2 then "interface"
               else "concrete")%string.
Proof.
  intros x y. split.
  - unfold Example5.bond_type.
    destruct (Example5.is_rebar x) as [b1 | e1] eqn:E1;
      destruct (Example5.is_rebar y) as [b2 | e2] eqn:E2; cbn [rbind].
    + destruct b1, b2; reflexivity.
    + reflexivity.
    + reflexivity.
    + apply example_is_rebar_raises in E1, E2. now subst.
  - intros b1 b2 E1 E2. unfold Example5.bond_type.
    rewrite E1, E2. cbn [rbind]. destruct b1, b2; reflexivity.
Qed.

(** A point on the axis of the first bar and a point far from every bar:
    the bond between them is an interface bond from either end. *)
Lemma example_bond_type_is_symmetric_witness :
  Example5.bond_type [0; 31 # 1000; 31 # 1000]%Q [0; 3 # 10; 3 # 10]%Q =
    Ok "interface"%string /\
  Example5.bond_type [0; 3 # 10; 3 # 10]%Q [0; 31 # 1000; 31 # 1000]%Q =
    Ok "interface"%string.
Proof.
  assert (H1 : Example5.is_rebar [0; 31 # 1000; 31 # 1000]%Q = Ok true)
    by (vm_compute; reflexivity).
  assert (H2 : Example5.is_rebar [0; 3 # 10; 3 # 10]%Q = Ok false)
    by (vm_compute; reflexivity).
  destruct (@example_bond_type_is_symmetric
              [0; 31 # 1000; 31 # 1000]%Q [0; 3 # 10; 3 # 10]%Q)
    as [Hsym Hval].
  split.
  - exact (Hval true false H1 H2).
  - rewrite <- Hsym. exact (Hval true false H1 H2).
Defined.

(** X24: the example's initial crack is empty.  On a neighbour list that
    fits the coordinates, the decorated [is_crack] still calls the
    predicate once for every bond that leads to a node of higher index,
    and returns the empty list. *)
Theorem example_initial_crack_is_empty :
  forall (coords : list (list Q)) (nlist : ndarray2 Z) (n_neigh : list Z)
         (w : Z),
    length coords = length (nd_rows nlist) ->
    conn_ok (Z.of_nat (length (nd_rows nlist))) w (nlist, n_neigh) = true ->
    Example5.is_crack coords nlist n_neigh =
    (map crack_function_event
       (ascending_bonds (nlist, n_neigh) (length (nd_rows nlist))),
     Ok []).
Proof.
  intros coords nlist n_neigh w Hlen Hok. unfold Example5.is_crack.
  destruct (@initial_crack_helper_calls
              (fun x y => Example5.truthy (Example5.is_crack_function x y))
              coords nlist n_neigh w Hlen Hok) as (crack & E).
  rewrite E. f_equal. f_equal.
  assert (Hout :
    outcome (initial_crack_helper
               (fun x y => Example5.truthy (Example5.is_crack_function x y))
               coords nlist n_neigh) = Ok crack) by now rewrite E.
  unfold initial_crack_helper in Hout.
  rewrite (@bind_lift_ok _ _ _ _ _ (@crack_pairs _ _ _ _ Hok)) in Hout.
  rewrite Nat2Z.id in Hout.
  assert (Hnil : forall l : list (Z * Z),
            filter (cracked
                      (fun x y =>
                         Example5.truthy (Example5.is_crack_function x y))
                      coords) l = []).
  { induction l as [| p l IH]; [reflexivity | exact IH]. }
  rewrite test_pairs_filter, Hnil in Hout.
  - now inversion Hout.
  - apply Forall_forall. intros [i j] Hin.
    apply filter_In in Hin as [Hin _].
    apply (@directed_bonds_in_range _ _ _ _ _ _ _ Hok) in Hin;
      [| rewrite Nat2Z.id; lia].
    cbn [fst snd]. lia.
Qed.

Lemma example_initial_crack_is_empty_witness :
  length (coords (attrs Fixture.triangle_model)) =
    length (nd_rows (fst (initial_connectivity Fixture.triangle_model))) /\
  conn_ok
    (Z.of_nat
       (length (nd_rows (fst (initial_connectivity Fixture.triangle_model)))))
    2 (fst (initial_connectivity Fixture.triangle_model),
       snd (initial_connectivity Fixture.triangle_model)) = true /\
  Example5.is_crack (coords (attrs Fixture.triangle_model))
    (fst (initial_connectivity Fixture.triangle_model))
    (snd (initial_connectivity Fixture.triangle_model)) =
  ([EvCrackFunction 0 1; EvCrackFunction 0 2; EvCrackFunction 1 2], Ok []).
Proof.
  assert (H1 :
    length (coords (attrs Fixture.triangle_model)) =
    length (nd_rows (fst (initial_connectivity Fixture.triangle_model))))
    by (vm_compute; reflexivity).
  assert (H2 :
    conn_ok
      (Z.of_nat
         (length
            (nd_rows (fst (initial_connectivity Fixture.triangle_model)))))
      2 (fst (initial_connectivity Fixture.triangle_model),
         snd (initial_connectivity Fixture.triangle_model)) = true)
    by (vm_compute; reflexivity).
  split; [exact H1 |]. split; [exact H2 |].
  rewrite (@example_initial_crack_is_empty
             (coords (attrs Fixture.triangle_model))
             (fst (initial_connectivity Fixture.triangle_model))
             (snd (initial_connectivity Fixture.triangle_model)) 2 H1 H2).
  vm_compute. reflexivity.
Defined.

(** * The pair callbacks in a construction *)

Lemma bind_ok_inv {A B} (m : M A) (k : A -> M B) t b :
  bind m k = (t, Ok b) ->
  exists t1 a t2, m = (t1, Ok a) /\ k a = (t2, Ok b) /\ t = t1 ++ t2.
Proof.
  destruct m as [t1 [a | e]]; cbn; [| discriminate].
  destruct (k a) as [t2 r] eqn:E. intros H. inversion H; subst.
  exists t1, a, t2. auto.
Qed.

(** The stages of a construction that succeeds, with the external calls
    of each. *)
Lemma Model_init_stages ext a t m :
  Model_init ext a = (t, Ok m) ->
  exists p tp tf tc ts tm tb ba,
    init_prefix ext a = (tp, Ok p) /\
    init_family ext a (p_nnodes p) (p_coords p) =
      (tf, Ok (family (attrs m))) /\
    match context (integrator m) with
    | None =>
        init_connectivity_cython ext a (coords (attrs m))
          (family (attrs m))
    | Some _ =>
        init_connectivity_cl ext a (coords (attrs m)) (family (attrs m))
    end = (tc, Ok (max_neighbours (attrs m), initial_connectivity m)) /\
    init_stiffness_corrections a (attrs m) (initial_connectivity m) =
      (ts, Ok (stiffness_corrections m)) /\
    init_material_types a (attrs m) (initial_connectivity m) =
      (tm, Ok (material_types m)) /\
    _set_boundary_conditions (attrs m)
      (default_callback (a_is_displacement_boundary a))
      (default_callback (a_is_forces_boundary a))
      (default_callback (a_is_tip a)) = (tb, Ok ba) /\
    t = tp ++ tf ++ tc ++ ts ++ tm ++ tb ++ [EvIntegratorBuild].
Proof.
  unfold Model_init. intros H.
  apply bind_ok_inv in H as (tp & p & t1 & Hp & H & ->).
  apply bind_ok_inv in H as (tf & fam & t2 & Hf & H & ->).
  unfold init_rest in H.
  apply bind_ok_inv in H as (tc & [w conn] & t3 & Hc & H & ->).
  cbv beta zeta in H. cbn [fst snd] in H.
  apply bind_ok_inv in H as (ts & sc & t4 & Hs & H & ->).
  apply bind_ok_inv in H as (tm & mt & t5 & Hm & H & ->).
  apply bind_ok_inv in H as (tb & ba & t6 & Hb & H & ->).
  cbn in H. inversion H; subst; clear H.
  cbn [attrs integrator initial_connectivity stiffness_corrections
       material_types coords family max_neighbours].
  exists p, tp, tf, tc, ts, tm, tb, ba. repeat split; trivial.
Qed.

(** *** Stages that call neither callback *)

Lemma no_pair_call_filters (t : list event) :
  Forall (fun e => pair_callback_event e = false) t ->
  bond_type_calls t = [] /\ crack_function_calls t = [].
Proof.
  induction 1 as [| e t He _ [IH1 IH2]]; [split; reflexivity |].
  unfold bond_type_calls, crack_function_calls in *. cbn [filter].
  rewrite IH1, IH2. destruct e; cbn in He; try discriminate;
    split; reflexivity.
Qed.

Lemma no_call_filter (f : event -> bool) (t : list event) :
  Forall (fun e => f e = false) t -> filter f t = [].
Proof.
  induction 1 as [| e t He _ IH]; [reflexivity |].
  cbn [filter]. now rewrite He.
Qed.

Lemma write_array_if_calls (P : event -> Prop) write_path names :
  (forall name, P (EvWriteArray name)) ->
  Forall P (trace (write_array_if write_path names)).
Proof.
  intros HP. unfold write_array_if. destruct write_path; [| constructor].
  apply Forall_trace_forM. intros name _. repeat constructor. apply HP.
Qed.

Ltac quiet_step :=
  first
    [ apply write_array_if_calls; intros; reflexivity
    | apply Forall_trace_forM; intros
    | trace_step ].

Lemma init_prefix_quiet ext a :
  Forall (fun e => pair_callback_event e = false)
         (trace (init_prefix ext a)).
Proof. unfold init_prefix, init_volume. repeat quiet_step. Qed.

Lemma init_family_quiet ext a nnodes coords :
  Forall (fun e => pair_callback_event e = false)
         (trace (init_family ext a nnodes coords)).
Proof.
  unfold init_family, resolve_family, raise_FamilyError.
  repeat quiet_step.
Qed.

Lemma init_stiffness_corrections_quiet a self conn :
  Forall (fun e => pair_callback_event e = false)
         (trace (init_stiffness_corrections a self conn)).
Proof.
  unfold init_stiffness_corrections, _set_stiffness_corrections.
  repeat quiet_step.
Qed.

Lemma check_callback_quiet ev f :
  (forall x, pair_callback_event (ev x) = false) ->
  Forall (fun e => pair_callback_event e = false)
         (trace (check_callback ev f)).
Proof.
  intros Hev. unfold check_callback.
  destruct f as [| f]; [constructor |].
  apply Forall_trace_bind; [repeat constructor; apply Hev |].
  intros _ _. destruct (f [0; 0; 0]%Q); [| constructor].
  apply Forall_trace_bind; [repeat constructor; apply Hev |].
  intros _ _. destruct (negb _); constructor.
Qed.

Lemma invoke_quiet ev f x :
  (forall x, pair_callback_event (ev x) = false) ->
  Forall (fun e => pair_callback_event e = false) (trace (invoke ev f x)).
Proof.
  intros Hev. unfold invoke. destruct f as [| f]; [constructor |].
  apply Forall_trace_bind; [repeat constructor; apply Hev |].
  intros _ _. constructor.
Qed.

Lemma set_boundary_conditions_quiet self f g h :
  Forall (fun e => pair_callback_event e = false)
         (trace (_set_boundary_conditions self f g h)).
Proof.
  unfold _set_boundary_conditions.
  repeat (apply Forall_trace_bind;
          [first [ apply check_callback_quiet; reflexivity
                 | apply Forall_nil
                 | idtac ]
          | intros ? ?]).
  - apply Forall_trace_forM. intros i [arrays k]. unfold boundary_node.
    repeat (apply Forall_trace_bind;
            [first [ apply invoke_quiet; reflexivity | apply Forall_nil ]
            | intros ? ?]).
    apply Forall_nil.
  - apply Forall_nil.
Qed.

(** Filling the material types calls no crack predicate. *)
Lemma init_material_types_no_crack_call a self conn :
  Forall (fun e => is_crack_call e = false)
         (trace (init_material_types a self conn)).
Proof.
  unfold init_material_types, _set_material_types, material_types_of_node,
    material_type_of_slot.
  repeat quiet_step.
  all: try (unfold material_types_of_node; repeat quiet_step).
  all: try (unfold material_type_of_slot; repeat quiet_step).
Qed.

(** With material types supplied, [bond_type] is not called. *)
Lemma init_material_types_supplied a self conn :
  a_material_types a <> ArgNone ->
  trace (init_material_types a self conn) = [].
Proof.
  intros H. unfold init_material_types.
  destruct (a_material_types a); [congruence | | reflexivity].
  destruct (negb _); reflexivity.
Qed.

(** *** The stage that sets up the neighbour list *)

Lemma init_crack_calls a coords ev create conn c t conn' :
  a_initial_crack a = crack_arg_of c ->
  ev = EvCreateCrackCython \/ ev = EvCreateCrackCl ->
  init_crack a coords ev create conn = (t, Ok conn') ->
  bond_type_calls t =
    match c with
    | FromList _ => []
    | FromHelper crack_function =>
        bond_type_calls
          (trace (initial_crack_helper crack_function coords
                    (fst conn) (snd conn)))
    end /\
  crack_function_calls t =
    match c with
    | FromList _ => []
    | FromHelper crack_function =>
        crack_function_calls
          (trace (initial_crack_helper crack_function coords
                    (fst conn) (snd conn)))
    end.
Proof.
  intros Hc Hev. unfold init_crack. rewrite Hc.
  destruct c as [pairs | crack_function]; cbn [crack_arg_of].
  - destruct pairs as [| p pairs]; cbn; intros H; inversion H; subst;
      destruct Hev as [-> | ->]; split; reflexivity.
  - intros H.
    apply bind_ok_inv in H as (t1 & [] & t2 & H1 & H & ->).
    apply bind_ok_inv in H as (t3 & pairs & t4 & H3 & H & ->).
    cbn in H1. inversion H1; subst; clear H1.
    cbn in H. inversion H; subst; clear H.
    rewrite H3. cbn [trace fst].
    unfold bond_type_calls, crack_function_calls.
    rewrite !filter_app.
    destruct Hev as [-> | ->]; cbn; rewrite !app_nil_r; split; reflexivity.
Qed.

Lemma connectivity_stage_calls ext a c t m :
  a_initial_crack a = crack_arg_of c ->
  match context (integrator m) with
  | None =>
      init_connectivity_cython ext a (coords (attrs m)) (family (attrs m))
  | Some _ =>
      init_connectivity_cl ext a (coords (attrs m)) (family (attrs m))
  end = (t, Ok (max_neighbours (attrs m), initial_connectivity m)) ->
  let conn0 := connectivity_before_crack ext a m in
  bond_type_calls t =
    match c with
    | FromList _ => []
    | FromHelper crack_function =>
        bond_type_calls
          (trace (initial_crack_helper crack_function (coords (attrs m))
                    (fst conn0) (snd conn0)))
    end /\
  crack_function_calls t =
    match c with
    | FromList _ => []
    | FromHelper crack_function =>
        crack_function_calls
          (trace (initial_crack_helper crack_function (coords (attrs m))
                    (fst conn0) (snd conn0)))
    end.
Proof.
  intros Hc H. unfold connectivity_before_crack.
  destruct (context (integrator m)) as [ctx |].
  - unfold init_connectivity_cl in H.
    apply bind_ok_inv in H as (t1 & [w conn0] & t2 & H1 & H & ->).
    apply bind_ok_inv in H as (t3 & conn & t4 & H3 & H & ->).
    cbn in H. inversion H; subst; clear H. cbn [fst snd] in *.
    assert (Hq : Forall (fun e => pair_callback_event e = false) t1).
    { change t1 with (trace (t1, Ok (max_neighbours (attrs m), conn0))).
      rewrite <- H1. repeat quiet_step. }
    destruct (no_pair_call_filters Hq) as [Hb1 Hc1].
    destruct (@init_crack_calls _ _ _ _ _ _ _ _ Hc (or_intror eq_refl) H3)
      as [Hb3 Hc3].
    assert (E0 : conn0 =
                 match a_connectivity a with
                 | ConnTuple2 nlist n_neigh => (nlist, n_neigh)
                 | _ => create_neighbour_list_cl ext (coords (attrs m))
                          (a_horizon a) (max_neighbours (attrs m))
                 end).
    { clear - H1. destruct (a_connectivity a) as [| nlist n_neigh | |].
      - apply bind_ok_inv in H1 as (? & fmax & ? & _ & H1 & _).
        apply bind_ok_inv in H1 as (? & w & ? & _ & H1 & _).
        apply bind_ok_inv in H1 as (? & ? & ? & _ & H1 & _).
        apply bind_ok_inv in H1 as (? & ? & ? & _ & H1 & _).
        cbn in H1. inversion H1; subst. reflexivity.
      - apply bind_ok_inv in H1 as (? & w & ? & _ & H1 & _).
        cbv beta zeta in H1. destruct (negb _) in H1; [discriminate |].
        cbn in H1. inversion H1; subst. reflexivity.
      - discriminate.
      - discriminate. }
    unfold bond_type_calls, crack_function_calls in *.
    rewrite !filter_app, !app_nil_r, Hb1, Hc1, Hb3, Hc3, <- E0.
    destruct (a_connectivity a); split; reflexivity.
  - unfold init_connectivity_cython in H.
    apply bind_ok_inv in H as (t0 & [] & t0' & H0 & H & ->).
    cbn in H0. inversion H0; subst; clear H0.
    apply bind_ok_inv in H as (t1 & [w conn0] & t2 & H1 & H & ->).
    apply bind_ok_inv in H as (t3 & conn & t4 & H3 & H & ->).
    cbn in H. inversion H; subst; clear H. cbn [fst snd] in *.
    assert (Hq : Forall (fun e => pair_callback_event e = false) t1).
    { change t1 with (trace (t1, Ok (max_neighbours (attrs m), conn0))).
      rewrite <- H1. repeat quiet_step. }
    destruct (no_pair_call_filters Hq) as [Hb1 Hc1].
    destruct (@init_crack_calls _ _ _ _ _ _ _ _ Hc (or_introl eq_refl) H3)
      as [Hb3 Hc3].
    assert (E0 : conn0 =
                 match a_connectivity a with
                 | ConnTuple2 nlist n_neigh => (nlist, n_neigh)
                 | _ => create_neighbour_list_cython ext (coords (attrs m))
                          (a_horizon a) (max_neighbours (attrs m))
                 end).
    { clear - H1. destruct (a_connectivity a) as [| nlist n_neigh | |].
      - apply bind_ok_inv in H1 as (? & fmax & ? & _ & H1 & _).
        apply bind_ok_inv in H1 as (? & w & ? & _ & H1 & _).
        apply bind_ok_inv in H1 as (? & ? & ? & _ & H1 & _).
        cbn in H1. inversion H1; subst. reflexivity.
      - apply bind_ok_inv in H1 as (? & w & ? & _ & H1 & _).
        apply bind_ok_inv in H1 as (? & fmax & ? & _ & H1 & _).
        destruct (negb _) in H1; [discriminate |].
        cbn in H1. inversion H1; subst. reflexivity.
      - discriminate.
      - discriminate. }
    unfold bond_type_calls, crack_function_calls in *.
    cbn [filter is_bond_type_call is_crack_call app].
    rewrite !filter_app, !app_nil_r, Hb1, Hc1, Hb3, Hc3, <- E0.
    destruct (a_connectivity a); split; reflexivity.
Qed.

Lemma initial_crack_helper_no_bond_type_call crack_function coords nlist
    n_neigh :
  Forall (fun e => is_bond_type_call e = false)
         (trace (initial_crack_helper crack_function coords nlist n_neigh)).
Proof.
  unfold initial_crack_helper. repeat quiet_step.
  unfold test_pair. repeat quiet_step.
Qed.

Lemma bond_type_calls_of_bonds l write_path :
  bond_type_calls (map bond_type_event l ++ material_types_written write_path)
  = map bond_type_event l.
Proof.
  unfold bond_type_calls. rewrite filter_app.
  replace (filter is_bond_type_call (material_types_written write_path))
    with (@nil event) by (destruct write_path; reflexivity).
  rewrite app_nil_r. induction l as [| p l IH]; [reflexivity |].
  cbn [map filter bond_type_event is_bond_type_call]. now rewrite IH.
Qed.

Lemma crack_function_calls_of_bonds l :
  crack_function_calls (map crack_function_event l) =
  map crack_function_event l.
Proof.
  unfold crack_function_calls. induction l as [| p l IH]; [reflexivity |].
  cbn [map filter crack_function_event is_crack_call]. now rewrite IH.
Qed.

Lemma bond_type_calls_on_pair_filtered t i j :
  bond_type_calls_on_pair t i j =
  bond_type_calls_on_pair (bond_type_calls t) i j.
Proof.
  unfold bond_type_calls_on_pair, bond_type_calls.
  induction t as [| e t IH]; [reflexivity |].
  destruct e; cbn [filter is_bond_type_call]; try exact IH.
  destruct (_ || _); cbn [length]; now rewrite IH.
Qed.

Lemma crack_calls_on_pair_filtered t i j :
  crack_calls_on_pair t i j =
  crack_calls_on_pair (crack_function_calls t) i j.
Proof.
  unfold crack_calls_on_pair, crack_function_calls.
  induction t as [| e t IH]; [reflexivity |].
  destruct e; cbn [filter is_crack_call]; try exact IH.
  destruct (_ || _); cbn [length]; now rewrite IH.
Qed.

Lemma valid_neighbour_in_range self conn i j :
  connectivity_ok self conn = true ->
  (i < Z.to_nat (nnodes self))%nat ->
  In j (valid_neighbours conn i) ->
  0 <= j < nnodes self.
Proof.
  intros Hok Hi Hj.
  destruct (@connectivity_ok_parts _ _ Hok) as (_ & _ & Hconn).
  destruct conn as [nlist n_neigh].
  destruct (@conn_ok_rows _ _ _ _ i Hconn Hi) as (row & Hrow & _ & Hall).
  unfold valid_neighbours in Hj. cbn [fst snd] in Hj.
  rewrite (@nth_error_nth _ _ _ _ [] Hrow) in Hj.
  apply In_firstn in Hj. rewrite Forall_forall in Hall.
  now apply Hall.
Qed.

Lemma connectivity_ok_lengths self nlist n_neigh :
  connectivity_ok self (nlist, n_neigh) = true ->
  Z.of_nat (length (coords self)) = nnodes self /\
  Z.of_nat (length n_neigh) = nnodes self /\
  Z.of_nat (length (nd_rows nlist)) = nnodes self.
Proof.
  intros Hok.
  destruct (@connectivity_ok_parts _ _ Hok) as (Hc & _ & Hconn).
  unfold conn_ok in Hconn. rewrite !andb_true_iff in Hconn.
  destruct Hconn as [[[[_ Hl] Hr] _] _].
  unfold rows_ok in Hr. apply andb_true_iff in Hr as [Hr _].
  apply Z.eqb_eq in Hl, Hr. auto.
Qed.

(** C8 (amended): in a construction that succeeds, with the initial crack
    given as a list of pairs or as a pair predicate decorated with
    [initial_crack_helper], the two pair callbacks are called per
    directed bond, not per bonded pair.
    - A caller-supplied [bond_type] whose values fit a C int is called,
      when no [material_types] array is supplied and the neighbour list of
      the model fits its nodes, exactly once for every directed bond of
      that list, that is once for every slot [k < n_neigh[i]] of every
      node [i], in this order: as many calls as the entries of [n_neigh]
      add up to, and two for every bonded pair of a symmetric neighbour
      list without duplicates.
    - When a [material_types] array is supplied, [bond_type] is not
      called at all.
    - The decorated crack predicate is called, when the neighbour list
      the constructor has before the crack is applied fits the nodes,
      exactly once for every directed bond of that list that leads to a
      node of higher index: one call for every bonded pair of a
      symmetric neighbour list without duplicates.
    - When the initial crack is a list, no crack predicate is called.
    - [simulate] calls neither callback. *)
Theorem C8_pair_callbacks_are_called_per_directed_bond :
  forall (ext : Externals) (a : InitArgs) (c : crack_source)
         (t : list event) (m : Model),
    Model_init ext a = (t, Ok m) ->
    a_initial_crack a = crack_arg_of c ->
    let self := attrs m in
    let n := Z.to_nat (nnodes self) in
    let conn := initial_connectivity m in
    let conn0 := connectivity_before_crack ext a m in
    (forall bond_type,
       a_bond_type a = Some bond_type ->
       a_material_types a = ArgNone ->
       fits_intc bond_type ->
       connectivity_ok self conn = true ->
       bond_type_calls t = map bond_type_event (directed_bonds conn n) /\
       Z.of_nat (length (bond_type_calls t)) =
         fold_left Z.add (snd conn) 0 /\
       (simple_symmetric conn n = true ->
        forall i j,
          (i < n)%nat -> In j (valid_neighbours conn i) ->
          bond_type_calls_on_pair t (Z.of_nat i) j = 2%nat)) /\
    (a_material_types a <> ArgNone -> bond_type_calls t = []) /\
    (forall crack_function,
       c = FromHelper crack_function ->
       connectivity_ok self conn0 = true ->
       crack_function_calls t =
         map crack_function_event (ascending_bonds conn0 n) /\
       (simple_symmetric conn0 n = true ->
        forall i j,
          (i < n)%nat -> In j (valid_neighbours conn0 i) ->
          crack_calls_on_pair t (Z.of_nat i) j = 1%nat)) /\
    (forall pairs, c = FromList pairs -> crack_function_calls t = []) /\
    (forall s,
       Forall (fun e => pair_callback_event e = false)
              (trace (simulate ext m s))).
Proof.
  intros ext a c t m Hinit Hc self n conn conn0.
  destruct (@Model_init_stages _ _ _ _ Hinit)
    as (p & tp & tf & tc & ts & tm & tb & ba &
        Hp & Hf & Hconn & Hs & Hm & Hb & Ht).
  destruct (@connectivity_stage_calls _ _ _ _ _ Hc Hconn) as [Hbc Hcc].
  fold conn0 in Hbc, Hcc. fold self in Hbc, Hcc, Hs, Hm, Hb.
  fold conn in Hs, Hm.
  (* the stages that call neither callback *)
  destruct (no_pair_call_filters (init_prefix_quiet ext a)) as [Bp Cp].
  rewrite Hp in Bp, Cp. cbn [trace fst] in Bp, Cp.
  destruct (no_pair_call_filters
              (init_family_quiet ext a (p_nnodes p) (p_coords p)))
    as [Bf Cf].
  rewrite Hf in Bf, Cf. cbn [trace fst] in Bf, Cf.
  destruct (no_pair_call_filters
              (init_stiffness_corrections_quiet a self conn)) as [Bs Cs].
  rewrite Hs in Bs, Cs. cbn [trace fst] in Bs, Cs.
  destruct (no_pair_call_filters
              (set_boundary_conditions_quiet self
                 (default_callback (a_is_displacement_boundary a))
                 (default_callback (a_is_forces_boundary a))
                 (default_callback (a_is_tip a)))) as [Bb Cb].
  rewrite Hb in Bb, Cb. cbn [trace fst] in Bb, Cb.
  pose proof (no_call_filter is_crack_call
                (init_material_types_no_crack_call a self conn)) as Cm.
  rewrite Hm in Cm. cbn [trace fst] in Cm.
  (* the calls of the whole construction *)
  assert (HB : bond_type_calls t = bond_type_calls tc ++ bond_type_calls tm).
  { rewrite Ht. unfold bond_type_calls in *.
    rewrite !filter_app, Bp, Bf, Bs, Bb. cbn [filter is_bond_type_call app].
    now rewrite app_nil_r. }
  assert (HC : crack_function_calls t = crack_function_calls tc).
  { rewrite Ht. unfold crack_function_calls in *.
    rewrite !filter_app, Cp, Cf, Cs, Cb, Cm. cbn [filter is_crack_call app].
    now rewrite !app_nil_r. }
  assert (Bc : bond_type_calls tc = []).
  { rewrite Hbc. destruct c as [pairs | crack_function]; [reflexivity |].
    apply (no_call_filter is_bond_type_call).
    apply initial_crack_helper_no_bond_type_call. }
  rewrite Bc in HB. cbn [app] in HB.
  split; [| split; [| split; [| split]]].
  - intros bond_type Hbt Hmt Hfit Hok.
    assert (Hcalls : bond_type_calls t =
                     map bond_type_event (directed_bonds conn n)).
    { unfold init_material_types in Hm. rewrite Hbt, Hmt in Hm.
      destruct (@set_material_types_calls self conn bond_type
                  (write_path self) Hok Hfit) as (mt & E).
      rewrite E in Hm. inversion Hm; subst tm.
      rewrite HB. apply bond_type_calls_of_bonds. }
    split; [exact Hcalls |]. split.
    + rewrite Hcalls, length_map.
      destruct (@connectivity_ok_parts _ _ Hok) as (_ & _ & Hcok).
      destruct conn as [nlist n_neigh] eqn:Econn.
      destruct (@connectivity_ok_lengths _ _ _ Hok) as (_ & Hl & _).
      rewrite (@length_directed_bonds _ _ _ _ Hcok) by (unfold n; lia).
      rewrite firstn_all2 by (unfold n; lia). reflexivity.
    + intros Hsym i j Hi Hj.
      rewrite bond_type_calls_on_pair_filtered, Hcalls.
      rewrite <- (app_nil_r (map bond_type_event _)).
      change (@nil event) with (material_types_written None).
      rewrite bond_type_calls_pair_hits.
      pose proof (@valid_neighbour_in_range _ _ _ _ Hok Hi Hj) as Hjr.
      apply bonded_pair_hits; trivial; unfold n; lia.
  - intros Hmt. rewrite HB.
    pose proof (@init_material_types_supplied a self conn Hmt) as E.
    rewrite Hm in E. cbn [trace fst] in E. now rewrite E.
  - intros crack_function -> Hok.
    assert (Hcalls : crack_function_calls t =
                     map crack_function_event (ascending_bonds conn0 n)).
    { rewrite HC, Hcc.
      destruct conn0 as [nlist n_neigh] eqn:Econn. cbn [fst snd].
      destruct (@connectivity_ok_parts _ _ Hok) as (_ & _ & Hcok).
      destruct (@connectivity_ok_lengths _ _ _ Hok) as (Hlc & _ & Hr).
      destruct (@initial_crack_helper_calls crack_function (coords self)
                  nlist n_neigh (max_neighbours self))
        as (crack & E).
      - lia.
      - now rewrite Hr.
      - rewrite E. cbn [trace fst].
        rewrite crack_function_calls_of_bonds.
        unfold n. now replace (Z.to_nat (nnodes self))
          with (length (nd_rows nlist)) by lia. }
    split; [exact Hcalls |].
    intros Hsym i j Hi Hj.
    rewrite crack_calls_on_pair_filtered, Hcalls, crack_calls_pair_hits.
    pose proof (@valid_neighbour_in_range _ _ _ _ Hok Hi Hj) as Hjr.
    apply bonded_pair_hits; trivial; unfold n; lia.
  - intros pairs ->. rewrite HC, Hcc. reflexivity.
  - intros s. eapply Forall_impl; [| apply simulate_trace].
    intros e. apply driver_event_not_pair_callback.
Qed.

(** The triangle, built with [bond_type = two_materials] and with the
    crack predicate [leaves_origin] decorated by [initial_crack_helper].
    Before the crack every node is bonded to the other two, so the
    predicate is called three times, once for each bonded pair.  The
    crack leaves the bond between nodes 1 and 2, on which [bond_type] is
    called twice, once from each end. *)
Lemma C8_witness :
  Model_init Fixture.ext Fixture.args_callbacks =
    (trace (Model_init Fixture.ext Fixture.args_callbacks),
     Ok (Fixture.built Fixture.args_callbacks)) /\
  bond_type_calls (trace (Model_init Fixture.ext Fixture.args_callbacks)) =
    [EvBondType 1 2; EvBondType 2 1] /\
  bond_type_calls_on_pair
    (trace (Model_init Fixture.ext Fixture.args_callbacks)) 1 2 = 2%nat /\
  crack_function_calls
    (trace (Model_init Fixture.ext Fixture.args_callbacks)) =
    [EvCrackFunction 0 1; EvCrackFunction 0 2; EvCrackFunction 1 2] /\
  crack_calls_on_pair
    (trace (Model_init Fixture.ext Fixture.args_callbacks)) 0 1 = 1%nat.
Proof.
  assert (E : Model_init Fixture.ext Fixture.args_callbacks =
              (trace (Model_init Fixture.ext Fixture.args_callbacks),
               Ok (Fixture.built Fixture.args_callbacks)))
    by (vm_compute; reflexivity).
  assert (Hc : a_initial_crack Fixture.args_callbacks =
               crack_arg_of (FromHelper Fixture.leaves_origin))
    by reflexivity.
  destruct (@C8_pair_callbacks_are_called_per_directed_bond
              Fixture.ext Fixture.args_callbacks
              (FromHelper Fixture.leaves_origin) _ _ E Hc)
    as (Hbond & _ & Hcrack & _ & _).
  assert (Hok : connectivity_ok
                  (attrs (Fixture.built Fixture.args_callbacks))
                  (initial_connectivity
                     (Fixture.built Fixture.args_callbacks)) = true)
    by (vm_compute; reflexivity).
  assert (Hok0 : connectivity_ok
                   (attrs (Fixture.built Fixture.args_callbacks))
                   (connectivity_before_crack Fixture.ext
                      Fixture.args_callbacks
                      (Fixture.built Fixture.args_callbacks)) = true)
    by (vm_compute; reflexivity).
  destruct (Hbond Fixture.two_materials eq_refl eq_refl
              two_materials_fits Hok) as (B1 & _ & B3).
  destruct (Hcrack Fixture.leaves_origin eq_refl Hok0) as (C1 & C2).
  assert (Hsym : simple_symmetric
                   (initial_connectivity
                      (Fixture.built Fixture.args_callbacks))
                   (Z.to_nat
                      (nnodes
                         (attrs (Fixture.built Fixture.args_callbacks)))) =
                 true)
    by (vm_compute; reflexivity).
  assert (Hsym0 : simple_symmetric
                    (connectivity_before_crack Fixture.ext
                       Fixture.args_callbacks
                       (Fixture.built Fixture.args_callbacks))
                    (Z.to_nat
                       (nnodes
                          (attrs (Fixture.built Fixture.args_callbacks)))) =
                  true)
    by (vm_compute; reflexivity).
  split; [exact E |]. split; [| split; [| split]].
  - rewrite B1. vm_compute. reflexivity.
  - apply (B3 Hsym 1%nat 2); [vm_compute; lia | vm_compute; auto].
  - rewrite C1. vm_compute. reflexivity.
  - apply (C2 Hsym0 0%nat 1); [vm_compute; lia | vm_compute; auto].
Defined.

(** The claim as stated fails for a caller-supplied [bond_type]: in the
    construction above the one bonded pair that is left, nodes 1 and 2,
    gets two calls of [two_materials], not one. *)
Lemma C8_counterexample :
  a_bond_type Fixture.args_callbacks = Some Fixture.two_materials /\
  (exists m,
     outcome (Model_init Fixture.ext Fixture.args_callbacks) = Ok m /\
     valid_neighbours (initial_connectivity m) 1 = [2] /\
     valid_neighbours (initial_connectivity m) 2 = [1]) /\
  bond_type_calls_on_pair
    (trace (Model_init Fixture.ext Fixture.args_callbacks)) 1 2 = 2%nat /\
  bond_type_calls_on_pair
    (trace (Model_init Fixture.ext Fixture.args_callbacks)) 1 2 <> 1%nat.
Proof.
  split; [reflexivity |]. split.
  - exists (Fixture.built Fixture.args_callbacks).
    split; [vm_compute; reflexivity |].
    split; vm_compute; reflexivity.
  - split; [vm_compute; reflexivity | vm_compute; discriminate].
Qed.
